(** * stress-ng: dispatch, timing, verification and reporting harness

    A shallow embedding of the harness code of three stressors of
    stress-ng:

    - [Dfp]     : stress-dfp.c      (decimal floating point methods)
    - [IpsecMb] : stress-ipsec-mb.c (Intel IPSec MB, per CPU feature)
    - [Prime]   : stress-prime.c    (GMP prime search, SIGALRM handling)

    C [double] values are IEEE-754 binary64 numbers and are modelled by
    Rocq's primitive floats, whose operations are the same.  The
    global tables of the C files are threaded as explicit state.  What
    the code obtains from outside (clock readings, the outcome of the
    arithmetic executed by the hardware, signal delivery, allocation
    results, settings) is read from an environment record, so every
    theorem quantifies over all behaviours of the environment. *)

From Stdlib Require Import ZArith List Bool String Ascii Lia.
From Stdlib Require Import Uint63 PrimFloat.
From stdpp Require Import base option list.
Import ListNotations.

Open Scope Z_scope.

Abbreviation double := PrimFloat.float.

(** Exit statuses of a stressor (stress-ng.h). *)
Inductive exit_status :=
| EXIT_SUCCESS
| EXIT_FAILURE
| EXIT_NO_RESOURCE
| EXIT_NOT_IMPLEMENTED.

Definition is_failure (rc : exit_status) : bool :=
  match rc with EXIT_FAILURE => true | _ => false end.

(** Modelled from the spec: the aggregation kinds of the reporting
    sink [emit_metric(name, value, aggregation_kind)]; the C
    enumeration handed to [stress_metrics_set] is in the core headers. *)
Inductive metric_kind :=
| arithmetic_mean
| harmonic_mean.

(** Modelled from the spec: the kind that stress-dfp.c passes. *)
Definition STRESS_METRIC_HARMONIC_MEAN : metric_kind := harmonic_mean.

(** Modelled from the spec: the kind that stress-prime.c passes. *)
Definition STRESS_HARMONIC_MEAN : metric_kind := harmonic_mean.

(** Process states announced with [stress_set_proc_state]. *)
Inductive proc_state :=
| STRESS_STATE_SYNC_WAIT
| STRESS_STATE_RUN
| STRESS_STATE_DEINIT.

Definition UINT64_MOD : Z := 2 ^ 64.

(** [(double)x] for an unsigned 64 bit [x]: round to nearest.  Values
    of 2^63 and above go through the halved value with the lost bit
    kept sticky, which rounds identically. *)
Definition double_of_uint64 (x : Z) : double :=
  if x <? 2 ^ 63 then PrimFloat.of_uint63 (Uint63.of_Z x)
  else
    PrimFloat.mul 2%float
      (PrimFloat.of_uint63 (Uint63.of_Z (Z.lor (Z.shiftr x 1) (Z.land x 1)))).

(** [memcmp(a, b, n)] over the object representations [a] and [b]:
    the difference of the first pair of differing bytes, 0 if none. *)
Fixpoint memcmp (a b : list Z) (n : nat) : Z :=
  match n, a, b with
  | S n', x :: a', y :: b' => if x =? y then memcmp a' b' n' else x - y
  | _, _, _ => 0
  end.

(** Object representation of a [w]-byte value [v], least significant
    byte first. *)
Fixpoint le_bytes (w : nat) (v : Z) : list Z :=
  match w with
  | O => []
  | S w' => Z.land v 255 :: le_bytes w' (Z.shiftr v 8)
  end.

(** What an option setter does with its argument: the setting it
    hands to [stress_set_setting], what it prints on stderr, and what it
    returns. *)
Inductive setter_return :=
| returns (v : Z)
| returns_set_setting.       (* the value of the stress_set_setting call *)

Record setter_outcome := mk_outcome {
  stored : option (string * Z);
  stderr : string;
  returned : setter_return;
}.

(** [for (i = 0; i < SIZEOF_ARRAY(table); i++) if (!strcmp(opt, table[i].name)) ...]:
    the first index from [i] on whose name equals [opt]. *)
Fixpoint first_match (opt : string) (names : list string) (i : nat) : option nat :=
  match names with
  | [] => None
  | nm :: rest => if String.eqb opt nm then Some i else first_match opt rest (S i)
  end.

(** [for (...) fprintf(stderr, " %s", table[i].name);] *)
Fixpoint list_names (names : list string) : string :=
  match names with
  | [] => ""
  | nm :: rest => (" " ++ nm ++ list_names rest)%string
  end.

Definition newline : string := String (ascii_of_nat 10) EmptyString.

(** ** stress-dfp.c *)
Module Dfp.

Definition LOOPS_PER_CALL : Z := 65536.
Definition DFP_ELEMENTS : nat := 8.

Definition STRESS_DFP_TYPE_DECIMAL32 : Z := 0.
Definition STRESS_DFP_TYPE_DECIMAL64 : Z := 1.
Definition STRESS_DFP_TYPE_DECIMAL128 : Z := 2.
Definition STRESS_DFP_TYPE_ALL : Z := 3.

(** The three sub-structures of [dfp_data_t] and the three macro
    generated loops. *)
Inductive dfp_field := d32 | d64 | d128.
Inductive dfp_op := op_add | op_mul | op_div.

Definition sizeof_field (fld : dfp_field) : nat :=
  match fld with d32 => 4%nat | d64 => 8%nat | d128 => 16%nat end.

(** A decimal value is kept as its encoding, an unsigned integer of
    [sizeof_field] bytes. *)
Definition wrap (fld : dfp_field) (v : Z) : Z :=
  v mod 2 ^ (8 * Z.of_nat (sizeof_field fld)).

Record dfp_fields_t := mk_fields {
  r_init : Z;       (* initialization value for r *)
  r : list Z;       (* result of computation, r[0] and r[1] *)
  add : Z;          (* value to add *)
  add_rev : Z;      (* value to add to revert back *)
  mul : Z;          (* value to multiply *)
  mul_rev : Z;      (* value to multiply to revert back *)
}.

Record dfp_data_t := mk_data {
  data_d32 : dfp_fields_t;
  data_d64 : dfp_fields_t;
  data_d128 : dfp_fields_t;
}.

Definition zero_fields : dfp_fields_t := mk_fields 0 [0; 0] 0 0 0 0.
Definition zero_data : dfp_data_t := mk_data zero_fields zero_fields zero_fields.

#[global] Instance dfp_data_inhabited : Inhabited dfp_data_t := populate zero_data.

Definition upd_field (fld : dfp_field) (g : dfp_fields_t -> dfp_fields_t)
    (d : dfp_data_t) : dfp_data_t :=
  match fld with
  | d32 => mk_data (g (data_d32 d)) (data_d64 d) (data_d128 d)
  | d64 => mk_data (data_d32 d) (g (data_d64 d)) (data_d128 d)
  | d128 => mk_data (data_d32 d) (data_d64 d) (g (data_d128 d))
  end.

(** [f.r[idx] = v] *)
Definition set_r (idx : nat) (v : Z) (f : dfp_fields_t) : dfp_fields_t :=
  mk_fields (r_init f) (<[idx := v]> (r f)) (add f) (add_rev f) (mul f) (mul_rev f).

(** [f.r[idx]] *)
Definition get_r (idx : nat) (f : dfp_fields_t) : Z := r f !!! idx.

(** The functions a registry entry can point to. *)
Inductive stress_dfp_func_t :=
| stress_dfp_all_fn
| stress_dfp_leaf_fn (fld : dfp_field) (op : dfp_op).

Definition stress_dfp_d32_add := stress_dfp_leaf_fn d32 op_add.
Definition stress_dfp_d32_mul := stress_dfp_leaf_fn d32 op_mul.
Definition stress_dfp_d32_div := stress_dfp_leaf_fn d32 op_div.
Definition stress_dfp_d64_add := stress_dfp_leaf_fn d64 op_add.
Definition stress_dfp_d64_mul := stress_dfp_leaf_fn d64 op_mul.
Definition stress_dfp_d64_div := stress_dfp_leaf_fn d64 op_div.
Definition stress_dfp_d128_add := stress_dfp_leaf_fn d128 op_add.
Definition stress_dfp_d128_mul := stress_dfp_leaf_fn d128 op_mul.
Definition stress_dfp_d128_div := stress_dfp_leaf_fn d128 op_div.

(** The constant columns of [stress_dfp_funcs_t]. *)
Record stress_dfp_funcs_t := mk_func {
  name : string;
  description : string;
  dfp_func : stress_dfp_func_t;
  dfp_type : Z;
}.

(** The mutable columns of [stress_dfp_funcs_t]. *)
Record stats_t := mk_stats {
  duration : double;
  ops : double;
}.

(** The registry, built with _Decimal32, _Decimal64 and _Decimal128
    all available. *)
Definition stress_dfp_funcs : list stress_dfp_funcs_t := [
  mk_func "all" "all fp methods" stress_dfp_all_fn STRESS_DFP_TYPE_ALL;
  mk_func "df32add" "_Decimal32 add" stress_dfp_d32_add STRESS_DFP_TYPE_DECIMAL32;
  mk_func "df64add" "_Decimal64 add" stress_dfp_d64_add STRESS_DFP_TYPE_DECIMAL64;
  mk_func "df128add" "_Decimal128 add" stress_dfp_d128_add STRESS_DFP_TYPE_DECIMAL128;
  mk_func "df32mul" "_Decimal32 mul" stress_dfp_d32_mul STRESS_DFP_TYPE_DECIMAL32;
  mk_func "df64mul" "_Decimal64 mul" stress_dfp_d64_mul STRESS_DFP_TYPE_DECIMAL64;
  mk_func "df128mul" "_Decimal128 mul" stress_dfp_d128_mul STRESS_DFP_TYPE_DECIMAL128;
  mk_func "df32div" "_Decimal32 div" stress_dfp_d32_div STRESS_DFP_TYPE_DECIMAL32;
  mk_func "df64div" "_Decimal64 div" stress_dfp_d64_div STRESS_DFP_TYPE_DECIMAL64;
  mk_func "df128div" "_Decimal128 div" stress_dfp_d128_div STRESS_DFP_TYPE_DECIMAL128
].

Definition STRESS_NUM_DFP_FUNCS : nat := length stress_dfp_funcs.

Definition initial_stats : list stats_t :=
  replicate STRESS_NUM_DFP_FUNCS (mk_stats 0%float 0%float).

Definition dfp_type_map : list (Z * string) := [
  (STRESS_DFP_TYPE_DECIMAL32, "_Decimal32"%string);
  (STRESS_DFP_TYPE_DECIMAL64, "_Decimal64"%string);
  (STRESS_DFP_TYPE_DECIMAL128, "_Decimal128"%string);
  (STRESS_DFP_TYPE_ALL, "all"%string)
].

Fixpoint stress_dfp_type_in (map : list (Z * string)) (ty : Z) : string :=
  match map with
  | [] => "unknown"
  | (t, d) :: rest => if ty =? t then d else stress_dfp_type_in rest ty
  end.

Definition stress_dfp_type (ty : Z) : string := stress_dfp_type_in dfp_type_map ty.

(** What the run observes and emits, in program order.  A failure
    report carries the two values found as their encodings, where the C
    code prints them converted to long double. *)
Inductive event :=
| EvCall (method idx : nat)          (* func->dfp_func(args, dfp_data, idx) *)
| EvMemcmp (i : nat)                 (* memcmp of r[0] and r[1] of element i *)
| EvPrFail (dfp_description method_name : string) (i : nat) (r0 r1 : Z)
| EvMmap (ok : bool)
| EvPrInfSkip
| EvProcState (s : proc_state)
| EvMetric (idx : nat) (msg : string) (value : double) (kind : metric_kind)
| EvMunmap.

(** The environment of one run. *)
Record env_t := mk_env {
  (* value returned by the n-th call of stress_time_now() *)
  stress_time_now : nat -> double;
  (* encoding left in r[idx] of element i by the n-th arithmetic loop,
     as the hardware computed it from the element's operands *)
  alu : nat -> dfp_field -> dfp_op -> nat -> dfp_fields_t -> Z;
  (* whether the stop request (SIGALRM) lands during the n-th
     arithmetic loop *)
  sigalrm : nat -> bool;
  (* g_opt_flags & OPT_FLAGS_VERIFY *)
  opt_flags_verify : bool;
  (* args->max_ops, 0 for no budget *)
  max_ops : Z;
  (* whether stress_mmap_populate succeeds *)
  mmap_ok : bool;
  (* the method index that stress_get_setting("fp-method", ...)
     finds in the settings, if any *)
  setting_fp_method : option nat;
  (* encodings (r_init, add, add_rev, mul, mul_rev) that the start-up
     loop derives from stress_mwc32() for _Decimal32 element i *)
  d32_seed : nat -> Z * Z * Z * Z * Z;
}.

Record state := mk_state {
  stats : list stats_t;          (* stress_dfp_funcs[].duration/.ops *)
  dfp_data : list dfp_data_t;    (* the DFP_ELEMENTS mapped elements *)
  continue_flag : bool;          (* stress_continue_flag() *)
  bogo : Z;                      (* bogo-op counter of args *)
  clock_reads : nat;             (* calls of stress_time_now() so far *)
  loops_run : nat;               (* arithmetic loops run so far *)
  trace : list event;
}.

Definition set_stats (s : list stats_t) (st : state) : state :=
  mk_state s (dfp_data st) (continue_flag st) (bogo st) (clock_reads st)
    (loops_run st) (trace st).

Definition log (e : event) (st : state) : state :=
  mk_state (stats st) (dfp_data st) (continue_flag st) (bogo st) (clock_reads st)
    (loops_run st) (trace st ++ [e]).

(** The first loop of each macro: [dfp_data[i].field.r[idx] = dfp_data[i].field.r_init]. *)
Definition reset_elements (fld : dfp_field) (idx : nat) (data : list dfp_data_t)
    : list dfp_data_t :=
  foldl (fun d i => alter (upd_field fld (fun f => set_r idx (r_init f) f)) i d)
    data (seq 0 DFP_ELEMENTS).

(** The timed loop of each macro.  Its body is decimal arithmetic on
    the eight elements; the final content of each [r[idx]] is the one
    the hardware produced. *)
Definition compute_elements (E : env_t) (n : nat) (fld : dfp_field) (op : dfp_op)
    (idx : nat) (data : list dfp_data_t) : list dfp_data_t :=
  foldl (fun d i =>
           alter (upd_field fld (fun f => set_r idx (wrap fld (alu E n fld op i f)) f)) i d)
    data (seq 0 DFP_ELEMENTS).

(** STRESS_DFP_ADD, STRESS_DFP_MUL and STRESS_DFP_DIV instantiated at
    [fld], with do_bogo_ops = true.  Only the DIV loop polls
    [stress_continue_flag()]: entered with the flag down it runs no
    iteration. *)
Definition stress_dfp_leaf (E : env_t) (fld : dfp_field) (op : dfp_op)
    (idx : nat) (st : state) : double * state :=
  let data1 := reset_elements fld idx (dfp_data st) in
  let t1 := stress_time_now E (clock_reads st) in
  let n := loops_run st in
  let runs :=
    match op with
    | op_div => continue_flag st
    | _ => true
    end in
  let data2 := if runs then compute_elements E n fld op idx data1 else data1 in
  let flag := continue_flag st && negb (sigalrm E n) in
  let t2 := stress_time_now E (S (clock_reads st)) in
  (PrimFloat.sub t2 t1,
   mk_state (stats st) data2 flag ((bogo st + 1) mod UINT64_MOD)
     (S (S (clock_reads st))) (S n) (trace st)).

(** [func->duration += dt; func->ops += (DFP_ELEMENTS * LOOPS_PER_CALL);] *)
Definition ops_per_call : double :=
  double_of_uint64 (Z.of_nat DFP_ELEMENTS * LOOPS_PER_CALL).

Definition accumulate (dt : double) (s : stats_t) : stats_t :=
  mk_stats (PrimFloat.add (duration s) dt) (PrimFloat.add (ops s) ops_per_call).

(** The comparison loop of [stress_dfp_call_method], from element [i]
    on, with [k] elements to go. *)
Fixpoint verify_elements (ty : Z) (dfp_description method_name : string)
    (k i : nat) (st : state) : exit_status * state :=
  match k with
  | O => (EXIT_SUCCESS, st)
  | S k' =>
      if ty =? STRESS_DFP_TYPE_DECIMAL32 then
        let e := dfp_data st !!! i in
        let r0 := get_r 0 (data_d32 e) in
        let r1 := get_r 1 (data_d32 e) in
        let ret := memcmp (le_bytes (sizeof_field d32) r0)
                     (le_bytes (sizeof_field d32) r1) (sizeof_field d32) in
        let st1 := log (EvMemcmp i) st in
        if negb (ret =? 0) then
          (EXIT_FAILURE, log (EvPrFail dfp_description method_name i r0 r1) st1)
        else verify_elements ty dfp_description method_name k' (S i) st1
      else
        (* default: Should never happen! *)
        (EXIT_SUCCESS, st)
  end.

Definition dispatch_t := stress_dfp_func_t -> nat -> state -> option (double * state).

(** [stress_dfp_call_method], open in the way an entry's function
    pointer is called.  [None] stands for undefined behaviour: an index
    outside the registry, or a call chain that never returns. *)
Definition stress_dfp_call_method_with (call : dispatch_t)
    (method : nat) (verify : bool) (st : state) : option (exit_status * state) :=
  func ← stress_dfp_funcs !! method;
  '(dt, st1) ← call (dfp_func func) 0%nat (log (EvCall method 0) st);
  let st2 := set_stats (alter (accumulate dt) method (stats st1)) st1 in
  if (0 <? method)%nat && ((method <? STRESS_NUM_DFP_FUNCS)%nat && verify) then
    let ty := dfp_type func in
    let method_name := name func in
    let dfp_description := stress_dfp_type ty in
    '(dt, st3) ← call (dfp_func func) 1%nat (log (EvCall method 1) st2);
    if PrimFloat.ltb dt 0%float then Some (EXIT_FAILURE, st3)
    else
      let st4 := set_stats (alter (accumulate dt) method (stats st3)) st3 in
      if negb (continue_flag st4) then Some (EXIT_SUCCESS, st4)
      else Some (verify_elements ty dfp_description method_name DFP_ELEMENTS 0 st4)
  else Some (EXIT_SUCCESS, st2).

(** The loop of [stress_dfp_all] over the indices [idxs]. *)
Fixpoint all_loop (call_method : nat -> state -> option (exit_status * state))
    (idxs : list nat) (st : state) : option (double * state) :=
  match idxs with
  | [] => Some (0%float, st)
  | i :: rest =>
      '(rc, st') ← call_method i st;
      if is_failure rc then Some ((-1)%float, st') else all_loop call_method rest st'
  end.

(** Calling the function of an entry that [stress_dfp_all] iterates
    over.  Were it [stress_dfp_all] again, the C call chain would not
    return. *)
Definition call_inner (E : env_t) : dispatch_t :=
  fun f idx st =>
    match f with
    | stress_dfp_leaf_fn fld op => Some (stress_dfp_leaf E fld op idx st)
    | stress_dfp_all_fn => None
    end.

Definition stress_dfp_all (E : env_t) (idx : nat) (st : state)
    : option (double * state) :=
  let verify := opt_flags_verify E in
  all_loop (fun i => stress_dfp_call_method_with (call_inner E) i verify)
    (seq 1 (STRESS_NUM_DFP_FUNCS - 1)) st.

(** The methods [idxs] called one after another, each from the state
    that the call before it left, the first from [st]: the calls
    return the statuses [rcs] and the last of them leaves [st']. *)
Fixpoint calls_in_turn (call_method : nat -> state -> option (exit_status * state))
    (idxs : list nat) (st : state) (rcs : list exit_status) (st' : state) : Prop :=
  match idxs, rcs with
  | [], [] => st' = st
  | i :: idxs', rc :: rcs' =>
      exists s, call_method i st = Some (rc, s) /\ calls_in_turn call_method idxs' s rcs' st'
  | _, _ => False
  end.

Definition call_func (E : env_t) : dispatch_t :=
  fun f idx st =>
    match f with
    | stress_dfp_leaf_fn fld op => Some (stress_dfp_leaf E fld op idx st)
    | stress_dfp_all_fn => stress_dfp_all E idx st
    end.

Definition stress_dfp_call_method (E : env_t) :=
  stress_dfp_call_method_with (call_func E).

(** Modelled from the spec: the stop-condition predicate
    [stress_continue(args)] of the core, which is not part of the three
    files: the run goes on while the continue flag is up and the op
    budget, when there is one, is not used up. *)
Definition stress_continue (E : env_t) (st : state) : bool :=
  continue_flag st && ((max_ops E =? 0) || (bogo st <? max_ops E)).

(** The [do ... while (stress_continue(args))] loop of [stress_dfp];
    [None] when [fuel] iterations did not reach its end. *)
Fixpoint main_loop (fuel : nat) (E : env_t) (method : nat) (verify : bool)
    (st : state) : option (exit_status * state) :=
  match fuel with
  | O => None
  | S fuel' =>
      '(rc, st') ← stress_dfp_call_method E method verify st;
      if is_failure rc then Some (EXIT_FAILURE, st')
      else if stress_continue E st' then main_loop fuel' E method verify st'
      else Some (EXIT_SUCCESS, st')
  end.

(** The start-up loop: only the _Decimal32 members are written, the
    rest of the fresh anonymous mapping stays zero. *)
Definition init_element (E : env_t) (i : nat) : dfp_data_t :=
  let '(ri, a, ar, m, mr) := d32_seed E i in
  mk_data
    (mk_fields (wrap d32 ri) [wrap d32 ri; wrap d32 ri] (wrap d32 a) (wrap d32 ar)
       (wrap d32 m) (wrap d32 mr))
    zero_fields zero_fields.

Definition init_data (E : env_t) : list dfp_data_t :=
  map (init_element E) (seq 0 DFP_ELEMENTS).

(** [snprintf] with "%-20s": the text padded with blanks on the right. *)
Definition pad_right (w : nat) (s : string) : string :=
  (s ++ string_of_list_ascii (repeat " "%char (w - String.length s)))%string.

Definition metric_msg (description : string) : string :=
  ("Mdfp-ops per sec, " ++ pad_right 20 description)%string.

(** The body of the report loop for index [i]. *)
Definition report_entry (i : nat) (s : stats_t) (f : stress_dfp_funcs_t) : list event :=
  if PrimFloat.ltb 0%float (duration s) && PrimFloat.ltb 0%float (ops s) then
    let rate := PrimFloat.div (ops s) (duration s) in
    [EvMetric (i - 1) (metric_msg (description f))
       (PrimFloat.div rate 1000000%float) STRESS_METRIC_HARMONIC_MEAN]
  else [].

(** [for (i = 1; i < STRESS_NUM_DFP_FUNCS; i++)] *)
Definition report_metrics (s : list stats_t) : list event :=
  flat_map
    (fun i =>
       match s !! i, stress_dfp_funcs !! i with
       | Some si, Some f => report_entry i si f
       | _, _ => []
       end)
    (seq 1 (STRESS_NUM_DFP_FUNCS - 1)).

Definition initial_state (E : env_t) (tr : list event) : state :=
  mk_state initial_stats (init_data E) true 0 0 0 tr.

(** The duration that the verification pass of a concrete method
    measures when the method is called in [st]: the production pass
    reads the clock twice before it. *)
Definition second_pass_dt (E : env_t) (st : state) : double :=
  PrimFloat.sub (stress_time_now E (S (S (S (clock_reads st)))))
    (stress_time_now E (S (S (clock_reads st)))).

(** From [st] to [st'] at least one arithmetic loop was run, and the
    continue flag is still up in [st'] only if it was up in [st] and no
    stop request landed in the loops run in between. *)
Definition progressed (E : env_t) (st st' : state) : Prop :=
  (loops_run st < loops_run st')%nat /\
  (continue_flag st' = true ->
   continue_flag st = true /\
   forall n, (loops_run st <= n < loops_run st')%nat -> sigalrm E n = false).

(** The methods whose production pass (slot 0) a trace records, in order. *)
Definition production_calls (evs : list event) : list nat :=
  omap (fun e => match e with EvCall m O => Some m | _ => None end) evs.

(** Element [e] holds the same bytes in both _Decimal32 result slots. *)
Definition same_bytes (e : dfp_data_t) : Prop :=
  le_bytes (sizeof_field d32) (get_r 0 (data_d32 e)) =
  le_bytes (sizeof_field d32) (get_r 1 (data_d32 e)).

Definition is_comparison (e : event) : bool :=
  match e with
  | EvMemcmp _ | EvPrFail _ _ _ _ _ => true
  | _ => false
  end.

Definition is_metric (e : event) : bool :=
  match e with EvMetric _ _ _ _ => true | _ => false end.

Definition not_all_call (e : event) : Prop := forall idx, e <> EvCall 0 idx.

(** The condition under which [stress_dfp_call_method] verifies. *)
Definition gate (m : nat) (verify : bool) : bool :=
  (0 <? m)%nat && ((m <? STRESS_NUM_DFP_FUNCS)%nat && verify).

Definition stress_dfp (E : env_t) (fuel : nat) : option (exit_status * list event) :=
  let fp_method := default 0%nat (setting_fp_method E) in
  let verify := opt_flags_verify E in
  if negb (mmap_ok E) then Some (EXIT_NO_RESOURCE, [EvMmap false; EvPrInfSkip])
  else
    let tr := [EvMmap true; EvProcState STRESS_STATE_SYNC_WAIT;
               EvProcState STRESS_STATE_RUN] in
    '(rc, st) ← main_loop fuel E fp_method verify (initial_state E tr);
    Some (rc,
          trace st ++ report_metrics (stats st)
            ++ [EvProcState STRESS_STATE_DEINIT; EvMunmap]).

(** [stress_dfp_method]: the name of entry [i] for the option parser,
    NULL from the end of the registry on. *)
Definition stress_dfp_method (i : nat) : option string :=
  if (i <? STRESS_NUM_DFP_FUNCS)%nat then name <$> stress_dfp_funcs !! i else None.

(** [dfp_data[i].field] for the [field] a macro was instantiated at. *)
Definition field_of (fld : dfp_field) (d : dfp_data_t) : dfp_fields_t :=
  match fld with
  | d32 => data_d32 d
  | d64 => data_d64 d
  | d128 => data_d128 d
  end.

(** The members of a sub-structure that the arithmetic loops only read. *)
Definition operands (f : dfp_fields_t) : Z * Z * Z * Z * Z :=
  (r_init f, add f, add_rev f, mul f, mul_rev f).

(** The shape of the mapped data: [DFP_ELEMENTS] elements, each with
    the two result slots [r[0]] and [r[1]] in every sub-structure. *)
Definition well_formed (data : list dfp_data_t) : Prop :=
  length data = DFP_ELEMENTS /\
  forall i fld, length (r (field_of fld (data !!! i))) = 2%nat.

(** Whether the timed loop of a macro runs its body at least once when
    entered in [st]: only the DIV loop looks at the continue flag. *)
Definition loop_runs (op : dfp_op) (st : state) : bool :=
  match op with
  | op_div => continue_flag st
  | _ => true
  end.

#[global] Instance dfp_field_eq_dec : EqDecision dfp_field.
Proof. solve_decision. Defined.

(** What one run of a macro generated function does to element [i]:
    the reset of [r[idx]], then the arithmetic of loop [n] if its body
    [runs]. *)
Definition leaf_element (E : env_t) (n : nat) (fld : dfp_field) (op : dfp_op)
    (idx : nat) (runs : bool) (i : nat) (e : dfp_data_t) : dfp_data_t :=
  let e1 := upd_field fld (fun f => set_r idx (r_init f) f) e in
  if runs then upd_field fld (fun f => set_r idx (wrap fld (alu E n fld op i f)) f) e1
  else e1.

(** Hardware that computes the same result from the same operands,
    whenever and into whichever slot it is asked to. *)
Definition deterministic (E : env_t) : Prop :=
  forall n n' fld op i f f',
    operands f = operands f' -> alu E n fld op i f = alu E n' fld op i f'.

(** A clock on which no later reading lies below an earlier one. *)
Definition monotonic (E : env_t) : Prop :=
  forall n,
    PrimFloat.ltb (PrimFloat.sub (stress_time_now E (S n)) (stress_time_now E n)) 0%float
    = false.

Definition is_pr_fail (e : event) : bool :=
  match e with EvPrFail _ _ _ _ _ => true | _ => false end.

(** The events of the main loop: calls through the registry,
    comparisons and failure reports. *)
Definition is_loop_event (e : event) : bool :=
  match e with
  | EvCall _ _ | EvMemcmp _ | EvPrFail _ _ _ _ _ => true
  | _ => false
  end.

End Dfp.

(** ** stress-ipsec-mb.c *)
Module IpsecMb.

(** Feature bits of intel-ipsec-mb.h, which the stressor only
    combines and compares; they are taken from the environment. *)
Record imb_feature_bits := mk_bits {
  IMB_FEATURE_SSE4_2 : Z;
  IMB_FEATURE_CMOV : Z;
  IMB_FEATURE_AESNI : Z;
  IMB_FEATURE_AVX : Z;
  IMB_FEATURE_AVX2 : Z;
  IMB_FEATURE_AVX512_SKX : Z;
}.

Inductive init_func_t :=
| init_mb_mgr_avx
| init_mb_mgr_avx2
| init_mb_mgr_avx512
| init_mb_mgr_sse.

Record ipsec_stats_t := mk_stats {
  ops : double;
  duration : double;
}.

(** The constant columns of [stress_ipsec_features_t]. *)
Record stress_ipsec_features_t := mk_feature {
  features : Z;
  init_func : init_func_t;
  name : string;
}.

(** The mutable columns of [stress_ipsec_features_t]. *)
Record feature_state := mk_fstate {
  supported : bool;
  stats : ipsec_stats_t;
}.

#[global] Instance feature_state_inhabited : Inhabited feature_state :=
  populate (mk_fstate false (mk_stats 0%float 0%float)).

Definition mb_features (B : imb_feature_bits) : list stress_ipsec_features_t := [
  mk_feature
    (Z.lor (Z.lor (IMB_FEATURE_AVX B) (IMB_FEATURE_CMOV B)) (IMB_FEATURE_AESNI B))
    init_mb_mgr_avx "avx";
  mk_feature
    (Z.lor (Z.lor (Z.lor (IMB_FEATURE_AVX2 B) (IMB_FEATURE_AVX B)) (IMB_FEATURE_CMOV B))
       (IMB_FEATURE_AESNI B))
    init_mb_mgr_avx2 "avx2";
  mk_feature
    (Z.lor (Z.lor (Z.lor (Z.lor (IMB_FEATURE_AVX512_SKX B) (IMB_FEATURE_AVX2 B))
                     (IMB_FEATURE_AVX B)) (IMB_FEATURE_CMOV B)) (IMB_FEATURE_AESNI B))
    init_mb_mgr_avx512 "avx512";
  mk_feature
    (Z.lor (IMB_FEATURE_SSE4_2 B) (IMB_FEATURE_CMOV B))
    init_mb_mgr_sse "noaesni";
  mk_feature
    (Z.lor (Z.lor (IMB_FEATURE_SSE4_2 B) (IMB_FEATURE_CMOV B)) (IMB_FEATURE_AESNI B))
    init_mb_mgr_sse "sse"
].

Definition NUM_MB_FEATURES : nat := 5.

(** The crypto and integrity functions of the method table. *)
Inductive ipsec_leaf :=
| cmac | ctr | des | hmac_md5 | hmac_sha1 | hmac_sha512 | sha.

Inductive ipsec_func_t :=
| stress_ipsec_all_fn
| stress_ipsec_leaf_fn (m : ipsec_leaf).

Record stress_ipsec_funcs_t := mk_func {
  func : ipsec_func_t;
  func_name : string;
}.

Definition stress_ipsec_funcs : list stress_ipsec_funcs_t := [
  mk_func stress_ipsec_all_fn "all";
  mk_func (stress_ipsec_leaf_fn cmac) "cmac";
  mk_func (stress_ipsec_leaf_fn ctr) "ctr";
  mk_func (stress_ipsec_leaf_fn des) "des";
  mk_func (stress_ipsec_leaf_fn hmac_md5) "hmac-md5";
  mk_func (stress_ipsec_leaf_fn hmac_sha1) "hmac-sha1";
  mk_func (stress_ipsec_leaf_fn hmac_sha512) "hmac-sha512";
  mk_func (stress_ipsec_leaf_fn sha) "sha"
].

Definition NUM_IPSEC_FUNCS : nat := length stress_ipsec_funcs.

Inductive event :=
| EvAllocMgr (ok : bool)               (* alloc_mb_mgr(0) *)
| EvPrInfSkip
| EvInit (feature : nat)               (* mb_features[feature].init_func(mb_mgr) *)
| EvFunc (func_index feature : nat)    (* stress_ipsec_funcs[func_index].func(...),
                                          called for mb_features[feature] *)
| EvAllocAligned (m : ipsec_leaf) (ok : bool)  (* stress_alloc_aligned(...) *)
| EvJobs (m : ipsec_leaf) (mgr : option init_func_t) (jobs done : Z)
| EvFree (m : ipsec_leaf)
| EvProcState (s : proc_state)
| EvMetric (idx : nat) (msg : string) (value : double)
    (kind : option metric_kind)        (* stress_metrics_set(args, idx, msg, value):
                                          this call passes no kind *)
| EvFreeMgr.

Record env_t := mk_env {
  bits : imb_feature_bits;
  (* value returned by the n-th call of stress_time_now() *)
  stress_time_now : nat -> double;
  (* whether the n-th call of stress_alloc_aligned returns memory *)
  alloc_aligned_ok : nat -> bool;
  (* how many jobs the library hands back with STS_COMPLETED in the
     n-th run of a method function *)
  jobs_completed : nat -> ipsec_leaf -> option init_func_t -> Z -> Z;
  (* whether the stop request lands during the n-th run of a method
     function *)
  sigalrm : nat -> bool;
  (* args->max_ops, 0 for no budget *)
  max_ops : Z;
  (* imb_get_version() >= IMB_VERSION(0, 51, 0) *)
  imb_version_ok : bool;
  (* whether alloc_mb_mgr(0) returns a manager *)
  alloc_mb_mgr_ok : bool;
  (* p_mgr->features *)
  cpu_features : Z;
  (* settings *)
  setting_jobs : option Z;
  setting_method : option nat;
  setting_feature : option nat;
  (* args->instance, the number of this worker *)
  instance : Z;
}.

Record state := mk_state {
  fstate : list feature_state;      (* mb_features[].supported/.stats *)
  counter : Z;                      (* bogo counter of args *)
  continue_flag : bool;
  mb_mgr : option init_func_t;      (* architecture the manager was set up for *)
  clock_reads : nat;
  allocs : nat;                     (* calls of stress_alloc_aligned so far *)
  runs : nat;                       (* method function runs that got memory *)
  trace : list event;
}.

Definition set_fstate (f : list feature_state) (st : state) : state :=
  mk_state f (counter st) (continue_flag st) (mb_mgr st) (clock_reads st)
    (allocs st) (runs st) (trace st).

Definition log (e : event) (st : state) : state :=
  mk_state (fstate st) (counter st) (continue_flag st) (mb_mgr st) (clock_reads st)
    (allocs st) (runs st) (trace st ++ [e]).

Definition set_mgr (m : init_func_t) (st : state) : state :=
  mk_state (fstate st) (counter st) (continue_flag st) (Some m) (clock_reads st)
    (allocs st) (runs st) (trace st).

(** Modelled from the spec: the stop-condition predicate
    [keep_stressing(args)] of the core, which is not part of the three
    files: the run goes on while the continue flag is up and the op
    budget, when there is one, is not used up. *)
Definition keep_stressing (E : env_t) (st : state) : bool :=
  continue_flag st && ((max_ops E =? 0) || (counter st <? max_ops E)).

(** [t = stress_time_now()] *)
Definition read_clock (E : env_t) (st : state) : double * state :=
  (stress_time_now E (clock_reads st),
   mk_state (fstate st) (counter st) (continue_flag st) (mb_mgr st)
     (S (clock_reads st)) (allocs st) (runs st) (trace st)).

(** The seven method functions share one shape: allocate the per-call
    output buffer and return at once if that fails; otherwise submit
    [jobs] jobs, flush, count each job that comes back completed
    ([inc_counter]), and free the buffer. *)
Definition stress_ipsec_leaf (E : env_t) (m : ipsec_leaf) (jobs : Z) (st : state)
    : state :=
  let ok := alloc_aligned_ok E (allocs st) in
  let st1 :=
    mk_state (fstate st) (counter st) (continue_flag st) (mb_mgr st)
      (clock_reads st) (S (allocs st)) (runs st)
      (trace st ++ [EvAllocAligned m ok]) in
  if negb ok then st1
  else
    let n := runs st1 in
    let done := Z.max 0 (Z.min (Z.max 0 jobs) (jobs_completed E n m (mb_mgr st1) jobs)) in
    mk_state (fstate st1) ((counter st1 + done) mod UINT64_MOD)
      (continue_flag st1 && negb (sigalrm E n)) (mb_mgr st1) (clock_reads st1)
      (allocs st1) (S n)
      (trace st1 ++ [EvJobs m (mb_mgr st1) jobs done; EvFree m]).

Definition run_t := ipsec_func_t -> Z -> state -> option state.

Definition add_stats (dt : double) (dops : Z) (f : feature_state) : feature_state :=
  mk_fstate (supported f)
    (mk_stats (PrimFloat.add (ops (stats f)) (double_of_uint64 dops))
       (PrimFloat.add (duration (stats f)) dt)).

(** The body of the loop of [stress_ipsec_call_func] for feature [i]. *)
Definition call_func_step (E : env_t) (run : run_t) (fn : ipsec_func_t)
    (jobs : Z) (func_index : nat) (i : nat) (st : state) : option state :=
  if supported (fstate st !!! i) then
    let c := counter st in
    let '(t, st1) := read_clock E st in
    ft ← mb_features (bits E) !! i;
    let st2 := set_mgr (init_func ft) (log (EvInit i) st1) in
    st3 ← run fn jobs (log (EvFunc func_index i) st2);
    let '(t', st4) := read_clock E st3 in
    let dt := PrimFloat.sub t' t in
    let dops := (counter st4 - c) mod UINT64_MOD in
    Some (set_fstate (alter (add_stats dt dops) i (fstate st4)) st4)
  else Some st.

Fixpoint call_func_loop (step : nat -> state -> option state) (idxs : list nat)
    (st : state) : option state :=
  match idxs with
  | [] => Some st
  | i :: rest => st' ← step i st; call_func_loop step rest st'
  end.

(** [stress_ipsec_call_func], open in the way the method's function
    pointer is called.  [None] stands for undefined behaviour. *)
Definition stress_ipsec_call_func_with (E : env_t) (run : run_t)
    (jobs : Z) (func_index : nat) (st : state) : option state :=
  entry ← stress_ipsec_funcs !! func_index;
  call_func_loop (call_func_step E run (func entry) jobs func_index)
    (seq 0 NUM_MB_FEATURES) st.

(** The loop of [stress_ipsec_all]:
    [for (i = 1; keep_stressing(args) && (i < N); i++)]. *)
Fixpoint all_loop (E : env_t) (call : nat -> state -> option state)
    (idxs : list nat) (st : state) : option state :=
  match idxs with
  | [] => Some st
  | i :: rest =>
      if keep_stressing E st then st' ← call i st; all_loop E call rest st'
      else Some st
  end.

Definition run_inner (E : env_t) : run_t :=
  fun fn jobs st =>
    match fn with
    | stress_ipsec_leaf_fn m => Some (stress_ipsec_leaf E m jobs st)
    | stress_ipsec_all_fn => None
    end.

Definition stress_ipsec_all (E : env_t) (jobs : Z) (st : state) : option state :=
  all_loop E (stress_ipsec_call_func_with E (run_inner E) jobs)
    (seq 1 (NUM_IPSEC_FUNCS - 1)) st.

(** The methods [idxs] run one after another, each from the state that
    the one before it left, the first from [st] and the last leaving
    [st'], and each entered with [keep_stressing] true. *)
Fixpoint calls_in_turn (E : env_t) (call : nat -> state -> option state)
    (idxs : list nat) (st st' : state) : Prop :=
  match idxs with
  | [] => st' = st
  | i :: idxs' =>
      keep_stressing E st = true /\
      exists s, call i st = Some s /\ calls_in_turn E call idxs' s st'
  end.

Definition run_func (E : env_t) : run_t :=
  fun fn jobs st =>
    match fn with
    | stress_ipsec_leaf_fn m => Some (stress_ipsec_leaf E m jobs st)
    | stress_ipsec_all_fn => stress_ipsec_all E jobs st
    end.

Definition stress_ipsec_call_func (E : env_t) :=
  stress_ipsec_call_func_with E (run_func E).

(** One pass of the [do ... while] body of [stress_ipsec_mb]. *)
Definition main_step (E : env_t) (jobs : Z) (method : nat) (i : nat) (st : state)
    : option state :=
  if supported (fstate st !!! i) then
    ft ← mb_features (bits E) !! i;
    stress_ipsec_call_func E jobs method (set_mgr (init_func ft) (log (EvInit i) st))
  else Some st.

Definition main_pass (E : env_t) (jobs : Z) (method : nat) (st : state) : option state :=
  call_func_loop (main_step E jobs method) (seq 0 NUM_MB_FEATURES) st.

Fixpoint main_loop (fuel : nat) (E : env_t) (jobs : Z) (method : nat) (st : state)
    : option state :=
  match fuel with
  | O => None
  | S fuel' =>
      st' ← main_pass E jobs method st;
      if keep_stressing E st' then main_loop fuel' E jobs method st' else Some st'
  end.

(** The start-up loop: mark what the CPU supports, clear the stats. *)
Definition probe_features (E : env_t) : list feature_state :=
  map (fun ft =>
         mk_fstate (Z.land (features ft) (cpu_features E) =? features ft)
           (mk_stats 0%float 0%float))
    (mb_features (bits E)).

(** The report loop: [j] numbers the metrics emitted so far. *)
Fixpoint report (fts : list stress_ipsec_features_t) (fs : list feature_state)
    (j : nat) : list event :=
  match fts, fs with
  | ft :: fts', f :: fs' =>
      if PrimFloat.ltb 0%float (duration (stats f)) then
        EvMetric j (name ft ++ " bogo ops per sec")
          (PrimFloat.div (ops (stats f)) (duration (stats f))) None
        :: report fts' fs' (S j)
      else report fts' fs' j
  | _, _ => []
  end.

Definition initial_state (fs : list feature_state) (tr : list event) : state :=
  mk_state fs 0 true None 0 0 0 tr.

(** The calls through the method table that a trace records, each
    with the feature it was made for, in order. *)
Definition method_calls (evs : list event) : list (nat * nat) :=
  omap (fun e => match e with EvFunc m f => Some (m, f) | _ => None end) evs.

(** The indices of the features marked as supported. *)
Definition supported_features (st : state) : list nat :=
  List.filter (fun i => supported (fstate st !!! i)) (seq 0 NUM_MB_FEATURES).

(** [if (args->instance == 0) pr_inf_skip(...);]: only the first worker
    prints the skip message. *)
Definition pr_inf_skip (E : env_t) : list event :=
  if instance E =? 0 then [EvPrInfSkip] else [].

(** [stress_ipsec_mb].  The informational lines of a run that is not
    skipped (the feature list of [stress_ipsec_mb_features], "using just
    feature" and the rates printed with [pr_dbg]) are not events of the
    trace. *)
Definition stress_ipsec_mb (E : env_t) (fuel : nat) : option (exit_status * list event) :=
  let ipsec_mb_jobs := default 128 (setting_jobs E) in
  let ipsec_mb_method := default 0%nat (setting_method E) in
  if negb (imb_version_ok E) then Some (EXIT_NOT_IMPLEMENTED, pr_inf_skip E)
  else if negb (alloc_mb_mgr_ok E) then
    Some (EXIT_NO_RESOURCE, [EvAllocMgr false] ++ pr_inf_skip E)
  else
    let tr := [EvAllocMgr true] in
    let fs := probe_features E in
    if negb (existsb supported fs) then
      Some (EXIT_NOT_IMPLEMENTED, tr ++ pr_inf_skip E ++ [EvFreeMgr])
    else
      let pinned :=
        match setting_feature E with
        | Some k =>
            if supported (fs !!! k) then
              Some (imap (fun i f => mk_fstate (Nat.eqb i k) (stats f)) fs)
            else None
        | None => Some fs
        end in
      match pinned with
      | None => Some (EXIT_NOT_IMPLEMENTED, tr ++ pr_inf_skip E ++ [EvFreeMgr])
      | Some fs' =>
          st ← main_loop fuel E ipsec_mb_jobs ipsec_mb_method
                 (initial_state fs' (tr ++ [EvProcState STRESS_STATE_RUN]));
          Some (EXIT_SUCCESS,
                trace st ++ report (mb_features (bits E)) (fstate st) 0
                  ++ [EvProcState STRESS_STATE_DEINIT; EvFreeMgr])
      end.

(** [stress_set_ipsec_mb_feature] *)
Definition stress_set_ipsec_mb_feature (B : imb_feature_bits) (opt : string)
    : setter_outcome :=
  let names := map name (mb_features B) in
  match first_match opt names 0 with
  | Some i => mk_outcome (Some ("ipsec-mb-feature"%string, Z.of_nat i)) "" returns_set_setting
  | None =>
      mk_outcome None
        ("invalid ipsec-mb-feature '" ++ opt ++ "', allowed options are:"
           ++ list_names names ++ newline)
        (returns (-1))
  end.

(** [stress_set_ipsec_mb_method] *)
Definition stress_set_ipsec_mb_method (opt : string) : setter_outcome :=
  let names := map func_name stress_ipsec_funcs in
  match first_match opt names 0 with
  | Some i => mk_outcome (Some ("ipsec-mb-method"%string, Z.of_nat i)) "" returns_set_setting
  | None =>
      mk_outcome None
        ("invalid ipsec-mb-method '" ++ opt ++ "', allowed options are:"
           ++ list_names names ++ newline)
        (returns (-1))
  end.

(** The pinning loop of [stress_ipsec_mb]:
    [mb_features[i].supported = (i == ipsec_mb_feature)]. *)
Definition pin_feature (k : nat) (fs : list feature_state) : list feature_state :=
  imap (fun i f => mk_fstate (Nat.eqb i k) (stats f)) fs.

Definition SHA_DIGEST_SIZE : Z := 64.
Definition HMAC_MD5_DIGEST_SIZE : Z := 16.
Definition HMAC_SHA1_DIGEST_SIZE : Z := 20.
Definition sizeof_padding : Z := 16.     (* uint8_t padding[16] of stress_ipsec_sha *)

(** [size_t] of the x86-64 build. *)
Definition SIZE_MOD : Z := 2 ^ 64.

(** [const size_t sz = nmemb * size;] of [stress_alloc_aligned]. *)
Definition alloc_bytes (nmemb size : Z) : Z :=
  ((nmemb mod SIZE_MOD) * (size mod SIZE_MOD)) mod SIZE_MOD.

(** How a method function lays out its per-call output buffer: the
    element size it passes to [stress_alloc_aligned((size_t)jobs, size, 16)],
    the step of its output pointer from one job to the next, and, in
    each job descriptor, the offset of the output pointer from it and
    the number of bytes announced there. *)
Record job_layout := mk_layout {
  alloc_size : Z;
  stride : Z;
  out_offset : Z;
  out_len : Z;
}.

(** [digest512] is SHA512_DIGEST_SIZE_IN_BYTES of intel-ipsec-mb.h. *)
Definition layout (digest512 : Z) (m : ipsec_leaf) (data_len : Z) : job_layout :=
  match m with
  | sha =>
      (* auth += alloc_len; auth_tag_output = auth + sizeof(padding);
         auth_tag_output_len_in_bytes = SHA_DIGEST_SIZE *)
      let alloc_len := SHA_DIGEST_SIZE + sizeof_padding * 2 in
      mk_layout alloc_len alloc_len sizeof_padding SHA_DIGEST_SIZE
  | des =>
      (* dst += data_len; job->dst = dst; msg_len_to_cipher_in_bytes = data_len *)
      mk_layout data_len data_len 0 data_len
  | cmac =>
      (* dst += 16; auth_tag_output = dst; auth_tag_output_len_in_bytes = 16 *)
      mk_layout data_len 16 0 16
  | ctr =>
      mk_layout data_len data_len 0 data_len
  | hmac_md5 =>
      mk_layout HMAC_MD5_DIGEST_SIZE HMAC_MD5_DIGEST_SIZE 0 HMAC_MD5_DIGEST_SIZE
  | hmac_sha1 =>
      mk_layout HMAC_SHA1_DIGEST_SIZE HMAC_SHA1_DIGEST_SIZE 0 HMAC_SHA1_DIGEST_SIZE
  | hmac_sha512 =>
      mk_layout digest512 digest512 0 digest512
  end.

(** The bytes [first, last) of the buffer that the descriptor of job
    [j] names as its output. *)
Definition job_output (digest512 : Z) (m : ipsec_leaf) (data_len j : Z) : Z * Z :=
  let l := layout digest512 m data_len in
  let first := j * stride l + out_offset l in
  (first, first + out_len l).

(** [(int)x] *)
Definition int_of (x : Z) : Z := (x + 2 ^ 31) mod 2 ^ 32 - 2 ^ 31.

(** [job->status], which the stressor only compares with STS_COMPLETED. *)
Inductive job_status :=
| STS_COMPLETED
| STS_NOT_COMPLETED.

Inductive report_t :=
| PrErrNotCompleted (name : string)                  (* "%s: %s: job not completed" *)
| PrErrOnlyProcessed (name : string) (jobs_done jobs : Z).
                                                     (* "only processed %d of %d jobs" *)

(** What the job loops of a method function keep count of. *)
Record tally := mk_tally {
  jobs_done : Z;            (* int jobs_done *)
  bogo_counter : Z;         (* the counter behind inc_counter(args) *)
  reports : list report_t;
}.

(** [stress_job_check_status] *)
Definition stress_job_check_status (name : string) (status : job_status) (t : tally)
    : tally :=
  match status with
  | STS_COMPLETED =>
      mk_tally (int_of (jobs_done t + 1)) ((bogo_counter t + 1) mod UINT64_MOD) (reports t)
  | STS_NOT_COMPLETED =>
      mk_tally (jobs_done t) (bogo_counter t) (reports t ++ [PrErrNotCompleted name])
  end.

(** [stress_jobs_done] *)
Definition stress_jobs_done (name : string) (jobs jobs_done : Z) : list report_t :=
  if negb (jobs_done =? jobs) then [PrErrOnlyProcessed name jobs_done jobs] else [].

(** The submit loop, the flush loop and the final check that the
    seven method functions share.  The library's part is what it hands
    back: [submitted j] is the job returned by the [j]-th
    IMB_SUBMIT_JOB, if any, and [flushed] are the jobs returned by
    IMB_FLUSH_JOB before it returns NULL. *)
Definition run_jobs (name : string) (jobs : Z)
    (submitted : nat -> option job_status) (flushed : list job_status)
    (counter : Z) : tally :=
  let check t status := stress_job_check_status name status t in
  let t0 := mk_tally 0 counter [] in
  let t1 :=
    foldl (fun t j => match submitted j with Some s => check t s | None => t end)
      t0 (seq 0 (Z.to_nat jobs)) in
  let t2 := foldl check t1 flushed in
  mk_tally (jobs_done t2) (bogo_counter t2)
    (reports t2 ++ stress_jobs_done name jobs (jobs_done t2)).

(** The jobs the library handed back in a call, in order. *)
Definition handed_back (jobs : Z) (submitted : nat -> option job_status)
    (flushed : list job_status) : list job_status :=
  omap submitted (seq 0 (Z.to_nat jobs)) ++ flushed.

Definition completed (l : list job_status) : Z :=
  Z.of_nat (length (List.filter (fun s => match s with STS_COMPLETED => true | _ => false end) l)).

(** The events of the main loop. *)
Definition is_work (e : event) : bool :=
  match e with
  | EvInit _ | EvFunc _ _ | EvAllocAligned _ _ | EvJobs _ _ _ _ | EvFree _ => true
  | _ => false
  end.

Definition is_metric (e : event) : bool :=
  match e with EvMetric _ _ _ _ => true | _ => false end.

(** From [st] to [st'] no method run was undone, the continue flag is
    still up in [st'] only if it was up in [st] and no stop request
    landed in the method runs made in between, the marks of the features
    are as they were, and, if [strict], at least one method run was
    made. *)
Definition advanced (E : env_t) (strict : Prop) (st st' : state) : Prop :=
  (runs st <= runs st')%nat /\
  (continue_flag st' = true ->
   continue_flag st = true /\
   forall n, (runs st <= n < runs st')%nat -> sigalrm E n = false) /\
  (forall j, supported (fstate st' !!! j) = supported (fstate st !!! j)) /\
  (strict -> (runs st < runs st')%nat).

(** Some feature is marked as supported in [st]. *)
Definition some_supported (st : state) : Prop :=
  exists i, (i < NUM_MB_FEATURES)%nat /\ supported (fstate st !!! i) = true.

(** The condition under which a call through the method table, entered
    in [s], makes at least one method run when memory is at hand: a
    method function always does, [stress_ipsec_all] only if it finds
    the stop condition false and a feature supported. *)
Definition runs_some (E : env_t) (fn : ipsec_func_t) (s : state) : Prop :=
  match fn with
  | stress_ipsec_all_fn => keep_stressing E s = true /\ some_supported s
  | stress_ipsec_leaf_fn _ => True
  end.

(** From [st] to [st'] the marks of the features are as they were, and
    a feature that is not marked as supported has its stats untouched. *)
Definition keeps_unsupported (st st' : state) : Prop :=
  (forall j, supported (fstate st' !!! j) = supported (fstate st !!! j)) /\
  (forall j, supported (fstate st !!! j) = false -> fstate st' !!! j = fstate st !!! j).

(** The metric slot that an event sets, if it sets one. *)
Definition metric_slot (e : event) : option nat :=
  match e with EvMetric j _ _ _ => Some j | _ => None end.

(** The discipline of the per-call buffers along a trace, started with
    a buffer held or not ([h]): an allocation only with none held, jobs
    and the release only with one held.  [None] when the trace breaks
    it, otherwise whether a buffer is held at the end. *)
Fixpoint held (h : bool) (evs : list event) : option bool :=
  match evs with
  | [] => Some h
  | EvAllocAligned _ ok :: rest => if h then None else held ok rest
  | EvJobs _ _ _ _ :: rest => if h then held true rest else None
  | EvFree _ :: rest => if h then held false rest else None
  | _ :: rest => held h rest
  end.

(** [st'] continues the trace of [st] with events of the main loop
    that keep the buffer discipline and leave no buffer held. *)
Definition works_on (st st' : state) : Prop :=
  exists evs,
    trace st' = trace st ++ evs /\
    Forall (fun e => is_work e = true) evs /\
    held false evs = Some false.

End IpsecMb.

(** ** stress-prime.c *)
Module Prime.

Definition STRESS_PRIME_METHOD_FACTORIAL : Z := 0.
Definition STRESS_PRIME_METHOD_INC : Z := 1.
Definition STRESS_PRIME_METHOD_PWR2 : Z := 2.
Definition STRESS_PRIME_METHOD_PWR10 : Z := 3.

Definition INT_MAX : Z := 2 ^ 31 - 1.

(** Arithmetic on [int], two's complement. *)
Definition wrap_int (x : Z) : Z := (x + 2 ^ 31) mod 2 ^ 32 - 2 ^ 31.

Inductive event :=
| EvMpzInits
| EvProcState (s : proc_state)
| EvSighandler (ok : bool)            (* stress_sighandler(..., SIGALRM, ...) *)
| EvMpzClears
| EvPrInf (ops digits : Z)
| EvMetric (idx : nat) (msg : string) (value : double) (kind : metric_kind).

Record env_t := mk_env {
  (* value returned by the n-th call of stress_time_now() *)
  stress_time_now : nat -> double;
  (* GMP: the prime that mpz_nextprime stores for a given start *)
  mpz_nextprime : Z -> Z;
  (* GMP: mpz_sizeinbase(v, 10) *)
  mpz_sizeinbase10 : Z -> Z;
  (* number of SIGALRM deliveries that hit iteration n of the loop
     before its p-th statement completes (p = 6: the loop condition) *)
  alarms : nat -> nat -> nat;
  (* args->max_ops, 0 for no budget *)
  max_ops : Z;
  (* whether stress_sighandler installs the handler *)
  sighandler_ok : bool;
  setting_prime_method : option Z;
}.

Record state := mk_state {
  count : Z;               (* static int count of the handler *)
  continue_flag : bool;
  jumped : bool;
  bogo : Z;
  duration : double;
  digits : Z;
  t : double;
  start : Z;
  value : Z;
  factorial : Z;
  clock_reads : nat;
  trace : list event;
}.

Definition log (e : event) (st : state) : state :=
  mk_state (count st) (continue_flag st) (jumped st) (bogo st) (duration st)
    (digits st) (t st) (start st) (value st) (factorial st) (clock_reads st)
    (trace st ++ [e]).

Definition set_jumped (b : bool) (st : state) : state :=
  mk_state (count st) (continue_flag st) b (bogo st) (duration st)
    (digits st) (t st) (start st) (value st) (factorial st) (clock_reads st)
    (trace st).

(** How a run of the signal handler ends. *)
Inductive handler_exit :=
| handler_returns
| handler_siglongjmp (val : Z).

(** [stress_prime_alarm_handler] *)
Definition stress_prime_alarm_handler (st : state) : state * handler_exit :=
  let c := wrap_int (count st + 1) in
  let st' :=
    mk_state c false (jumped st) (bogo st) (duration st)
      (digits st) (t st) (start st) (value st) (factorial st) (clock_reads st)
      (trace st) in
  if 1 <? c then (st', handler_siglongjmp 1) else (st', handler_returns).

(** [k] deliveries of SIGALRM in a row: [inl] when every handler run
    returned, [inr] as soon as one left through siglongjmp. *)
Fixpoint deliver (k : nat) (st : state) : state + state :=
  match k with
  | O => inl st
  | S k' =>
      match stress_prime_alarm_handler st with
      | (st', handler_returns) => deliver k' st'
      | (st', handler_siglongjmp _) => inr st'
      end
  end.

(** The statements of the loop body, in order. *)
Definition stmt_time (E : env_t) (st : state) : state :=
  mk_state (count st) (continue_flag st) (jumped st) (bogo st) (duration st)
    (digits st) (stress_time_now E (clock_reads st)) (start st) (value st)
    (factorial st) (S (clock_reads st)) (trace st).

Definition stmt_nextprime (E : env_t) (st : state) : state :=
  mk_state (count st) (continue_flag st) (jumped st) (bogo st) (duration st)
    (digits st) (t st) (start st) (mpz_nextprime E (start st))
    (factorial st) (clock_reads st) (trace st).

Definition stmt_duration (E : env_t) (st : state) : state :=
  mk_state (count st) (continue_flag st) (jumped st) (bogo st)
    (PrimFloat.add (duration st)
       (PrimFloat.sub (stress_time_now E (clock_reads st)) (t st)))
    (digits st) (t st) (start st) (value st)
    (factorial st) (S (clock_reads st)) (trace st).

Definition stmt_advance (prime_method : Z) (st : state) : state :=
  let '(start', factorial') :=
    if prime_method =? STRESS_PRIME_METHOD_INC then (value st + 2, factorial st)
    else if prime_method =? STRESS_PRIME_METHOD_PWR2 then (start st * 2, factorial st)
    else if prime_method =? STRESS_PRIME_METHOD_PWR10 then (start st * 10, factorial st)
    else (* default and STRESS_PRIME_METHOD_FACTORIAL *)
      (start st * factorial st, factorial st + 1) in
  mk_state (count st) (continue_flag st) (jumped st) (bogo st) (duration st)
    (digits st) (t st) start' (value st) factorial' (clock_reads st) (trace st).

Definition stmt_bogo_inc (st : state) : state :=
  mk_state (count st) (continue_flag st) (jumped st) ((bogo st + 1) mod UINT64_MOD)
    (duration st) (digits st) (t st) (start st) (value st) (factorial st)
    (clock_reads st) (trace st).

Definition stmt_digits (E : env_t) (st : state) : state :=
  mk_state (count st) (continue_flag st) (jumped st) (bogo st) (duration st)
    (mpz_sizeinbase10 E (value st)) (t st) (start st) (value st) (factorial st)
    (clock_reads st) (trace st).

Definition loop_body (E : env_t) (prime_method : Z) : list (state -> state) :=
  [stmt_time E; stmt_nextprime E; stmt_duration E; stmt_advance prime_method;
   stmt_bogo_inc; stmt_digits E].

(** Iteration [n] from its [p]-th statement on, signals included. *)
Fixpoint run_body (E : env_t) (n p : nat) (stmts : list (state -> state))
    (st : state) : state + state :=
  match stmts with
  | [] => deliver (alarms E n p) st
  | s :: rest =>
      match deliver (alarms E n p) st with
      | inl st' => run_body E n (S p) rest (s st')
      | inr st' => inr st'
      end
  end.

(** Modelled from the spec: the stop-condition predicate
    [stress_continue(args)] of the core, which is not part of the three
    files. *)
Definition stress_continue (E : env_t) (st : state) : bool :=
  continue_flag st && ((max_ops E =? 0) || (bogo st <? max_ops E)).

(** The [do ... while] loop from iteration [n] on: [inl] when the loop
    condition ended it, [inr] when siglongjmp left it. *)
Fixpoint prime_loop (fuel : nat) (E : env_t) (prime_method : Z) (n : nat)
    (st : state) : option (state + state) :=
  match fuel with
  | O => None
  | S fuel' =>
      match run_body E n 0 (loop_body E prime_method) st with
      | inr st' => Some (inr st')
      | inl st' =>
          if stress_continue E st' then prime_loop fuel' E prime_method (S n) st'
          else Some (inl st')
      end
  end.

(** [rate = (duration > 0.0) ? (double)ops / duration : 0.0;] *)
Definition rate_of (ops : Z) (duration : double) : double :=
  if PrimFloat.ltb 0%float duration
  then PrimFloat.div (double_of_uint64 ops) duration
  else 0%float.

(** From the label [finish] to the end of [stress_prime]. *)
Definition finish (st : state) : exit_status * state :=
  let st1 := if negb (jumped st) then log EvMpzClears st else st in
  let ops := bogo st1 in
  let st2 := log (EvPrInf ops (digits st1)) st1 in
  let rate := rate_of ops (duration st2) in
  let st3 := log (EvMetric 0 "primes per second" rate STRESS_HARMONIC_MEAN) st2 in
  (EXIT_SUCCESS, log (EvProcState STRESS_STATE_DEINIT) st3).

(** The number of SIGALRM deliveries that hit iteration [n] at the
    positions [p .. p+len-1]. *)
Fixpoint alarms_from (E : env_t) (n p len : nat) : nat :=
  match len with
  | O => O
  | S len' => (alarms E n p + alarms_from E n (S p) len')%nat
  end.

(** The deliveries that hit iteration [n] as a whole: before each of
    the six statements and before the loop condition. *)
Definition alarms_in (E : env_t) (n : nat) : nat := alarms_from E n 0 7.

(** What a handler run that returns changes in a state. *)
Definition signalled (c : Z) (st : state) : state :=
  mk_state c false (jumped st) (bogo st) (duration st)
    (digits st) (t st) (start st) (value st) (factorial st) (clock_reads st)
    (trace st).

(** The statements [stmts] run in order, undisturbed. *)
Definition run_stmts (stmts : list (state -> state)) (st : state) : state :=
  foldl (fun s f => f s) st stmts.


(** A statement of the body that neither reads nor writes what the
    handler writes, and leaves the trace and [jumped] alone. *)
Definition commutes (s : state -> state) : Prop :=
  (forall c st, s (signalled c st) = signalled c (s st)) /\
  (forall st, count (s st) = count st /\ trace (s st) = trace st /\
              jumped (s st) = jumped st).

(** The state when [sigsetjmp] is first reached. *)
Definition initial_state : state :=
  mk_state 0 true false 0 0%float 1 0%float 1 0 2 0
    [EvMpzInits; EvProcState STRESS_STATE_RUN].

(** The state in which the loop is entered. *)
Definition armed (E : env_t) : state :=
  log (EvSighandler (sighandler_ok E)) initial_state.

Definition stress_prime (E : env_t) (fuel : nat) : option (exit_status * state) :=
  let prime_method := default STRESS_PRIME_METHOD_INC (setting_prime_method E) in
  let st0 := armed E in
  if negb (sighandler_ok E) then Some (EXIT_NO_RESOURCE, st0)
  else
    r ← prime_loop fuel E prime_method 0 st0;
    match r with
    | inl st => Some (finish st)
    | inr st => Some (finish (set_jumped true st))
    end.

Definition stress_prime_methods : list (string * Z) := [
  ("factorial"%string, STRESS_PRIME_METHOD_FACTORIAL);
  ("inc"%string, STRESS_PRIME_METHOD_INC);
  ("pwr2"%string, STRESS_PRIME_METHOD_PWR2);
  ("pwr10"%string, STRESS_PRIME_METHOD_PWR10)
].

(** [stress_set_prime_method] *)
Definition stress_set_prime_method (name : string) : setter_outcome :=
  let names := map fst stress_prime_methods in
  match first_match name names 0 with
  | Some i =>
      mk_outcome
        ((fun m => ("prime-method"%string, m.2)) <$> stress_prime_methods !! i)
        "" (returns 0)
  | None =>
      mk_outcome None ("prime-method must be one of:" ++ list_names names ++ newline)
        (returns (-1))
  end.

(** The start value of iteration [n], counted from 0, under the
    methods whose start values do not depend on the primes found. *)
Definition start_of (prime_method : Z) (n : nat) : Z :=
  if prime_method =? STRESS_PRIME_METHOD_PWR2 then 2 ^ Z.of_nat n
  else if prime_method =? STRESS_PRIME_METHOD_PWR10 then 10 ^ Z.of_nat n
  else Z.of_nat (fact (S n)).

(** The loop invariant of a run that no signal hits: after [n]
    iterations [n] primes are counted, the flag is up, and the next
    start value is the one of the method. *)
Definition after_iterations (pm : Z) (n : nat) (st : state) : Prop :=
  count st = 0 /\ continue_flag st = true /\ jumped st = false /\
  bogo st = Z.of_nat n /\
  (pm <> STRESS_PRIME_METHOD_INC ->
   start st = start_of pm n /\
   (pm <> STRESS_PRIME_METHOD_PWR2 -> pm <> STRESS_PRIME_METHOD_PWR10 ->
    factorial st = Z.of_nat n + 2)).

End Prime.

(** ** Concrete runs *)
Module Scenario.

(** A clock that advances by one second per reading. *)
Fixpoint seconds (n : nat) : double :=
  match n with
  | O => 0%float
  | S k => PrimFloat.add (seconds k) 1%float
  end.

(** Hardware that miscomputes element 3 in the second arithmetic loop
    it runs, and nowhere else. *)
Definition faulty_alu (n : nat) (fld : Dfp.dfp_field) (op : Dfp.dfp_op) (i : nat)
    (f : Dfp.dfp_fields_t) : Z :=
  if Nat.eqb n 1 && Nat.eqb i 3 then 1 else 0.

Definition dfp_seed (i : nat) : Z * Z * Z * Z * Z := (Z.of_nat i, 1, 2, 3, 4).

(** Verification on, the default method "all", a budget of one op. *)
Definition dfp_fault : Dfp.env_t :=
  Dfp.mk_env seconds faulty_alu (fun _ => false) true 1 true None dfp_seed.

(** The same, with the stop request landing during the second
    arithmetic loop. *)
Definition dfp_alarm : Dfp.env_t :=
  Dfp.mk_env seconds faulty_alu (fun n => Nat.eqb n 1) true 1 true None dfp_seed.

(** The data mapping fails. *)
Definition dfp_nomap : Dfp.env_t :=
  Dfp.mk_env seconds faulty_alu (fun _ => false) true 1 false None dfp_seed.

(** Verification off, the method "df32add" selected, a budget of one op. *)
Definition dfp_single : Dfp.env_t :=
  Dfp.mk_env seconds faulty_alu (fun _ => false) false 1 true (Some 1%nat) dfp_seed.

Definition dfp_start (E : Dfp.env_t) : Dfp.state := Dfp.initial_state E [].

(** The feature bits as intel-ipsec-mb.h defines them. *)
Definition header_bits : IpsecMb.imb_feature_bits :=
  IpsecMb.mk_bits 16 8 2 32 64 3968.

(** A CPU with SSE4.2, CMOV, AESNI, PCLMULQDQ, AVX and AVX2: the
    features "avx", "avx2", "noaesni" and "sse" are supported.  Method
    "sha", no feature pinned, every job completes, a budget of one op. *)
Definition avx2_cpu : Z := 126.

Definition ipsec_sha : IpsecMb.env_t :=
  IpsecMb.mk_env header_bits seconds (fun _ => true) (fun _ _ _ jobs => jobs)
    (fun _ => false) 1 true true avx2_cpu None (Some 7%nat) None 0.

(** The same CPU with the default method "all" and no budget; the stop
    request lands in the last method run of the first pass. *)
Definition ipsec_all : IpsecMb.env_t :=
  IpsecMb.mk_env header_bits seconds (fun _ => true) (fun _ _ _ jobs => jobs)
    (fun n => Nat.eqb n 447) 0 true true avx2_cpu None None None 0.

(** The same CPU with the feature "sse" pinned and the method "sha";
    the first per-call buffer allocation fails, the later ones succeed. *)
Definition ipsec_nomem : IpsecMb.env_t :=
  IpsecMb.mk_env header_bits seconds (fun n => negb (Nat.eqb n 0))
    (fun _ _ _ jobs => jobs) (fun _ => false) 1 true true avx2_cpu None (Some 7%nat)
    (Some 4%nat) 0.

(** The manager cannot be allocated; the first worker. *)
Definition ipsec_nomgr : IpsecMb.env_t :=
  IpsecMb.mk_env header_bits seconds (fun _ => true) (fun _ _ _ jobs => jobs)
    (fun _ => false) 1 true false avx2_cpu None (Some 7%nat) None 0.

(** The same for the second worker. *)
Definition ipsec_nomgr_1 : IpsecMb.env_t :=
  IpsecMb.mk_env header_bits seconds (fun _ => true) (fun _ _ _ jobs => jobs)
    (fun _ => false) 1 true false avx2_cpu None (Some 7%nat) None 1.

(** A CPU with none of the features that the library needs, seen by
    the second worker. *)
Definition ipsec_bare_1 : IpsecMb.env_t :=
  IpsecMb.mk_env header_bits seconds (fun _ => true) (fun _ _ _ jobs => jobs)
    (fun _ => false) 1 true true 0 None (Some 7%nat) None 1.

Definition ipsec_start (E : IpsecMb.env_t) : IpsecMb.state :=
  IpsecMb.initial_state (IpsecMb.probe_features E) [].

(** The jobs a trace records as completed in calls made for
    [feature]; [cur] is the feature of the latest call through the
    method table. *)
Fixpoint jobs_for (feature : nat) (cur : option nat) (evs : list IpsecMb.event) : Z :=
  match evs with
  | [] => 0
  | IpsecMb.EvFunc _ f :: rest => jobs_for feature (Some f) rest
  | IpsecMb.EvJobs _ _ _ done :: rest =>
      (if decide (cur = Some feature) then done else 0) + jobs_for feature cur rest
  | _ :: rest => jobs_for feature cur rest
  end.

(** The metrics among the events of a run of stress-ipsec-mb. *)
Definition ipsec_metrics (evs : list IpsecMb.event) : list IpsecMb.event :=
  List.filter (fun e => match e with IpsecMb.EvMetric _ _ _ _ => true | _ => false end) evs.

(** Two SIGALRM deliveries hit the first mpz_nextprime call. *)
Definition prime_escape : Prime.env_t :=
  Prime.mk_env seconds (fun s => s + 1) (fun _ => 1)
    (fun n p => if Nat.eqb n 0 && Nat.eqb p 1 then 2%nat else 0%nat) 0 true None.

(** One SIGALRM delivery hits the first mpz_nextprime call. *)
Definition prime_single : Prime.env_t :=
  Prime.mk_env seconds (fun s => s + 1) (fun _ => 1)
    (fun n p => if Nat.eqb n 0 && Nat.eqb p 1 then 1%nat else 0%nat) 0 true None.

(** A clock that advances by one second per reading until it stops
    at 64 seconds. *)
Definition capped_seconds (n : nat) : double := seconds (Nat.min n 64).

(** Hardware that computes its result from the operands alone. *)
Definition adder_alu (n : nat) (fld : Dfp.dfp_field) (op : Dfp.dfp_op) (i : nat)
    (f : Dfp.dfp_fields_t) : Z :=
  match op with
  | Dfp.op_add => Dfp.r_init f + Dfp.add f + Dfp.add_rev f
  | _ => Dfp.r_init f * Dfp.mul f * Dfp.mul_rev f
  end.

(** Verification on, the default method "all", a budget of one op,
    deterministic hardware and a monotonic clock. *)
Definition dfp_steady : Dfp.env_t :=
  Dfp.mk_env capped_seconds adder_alu (fun _ => false) true 1 true None dfp_seed.

(** The start of a run with the stop request already in. *)
Definition dfp_stopped : Dfp.state :=
  Dfp.mk_state Dfp.initial_stats (Dfp.init_data dfp_steady) false 0 0 0 [].

(** A clock whose fourth reading lies below the third. *)
Definition dfp_backwards : Dfp.env_t :=
  Dfp.mk_env (fun n => if Nat.eqb n 3 then 0%float else seconds n) faulty_alu
    (fun _ => false) true 1 true (Some 1%nat) dfp_seed.

(** A library that hands back the second of two jobs on submission,
    completed, and the first on the flush, not completed. *)
Definition one_of_two (j : nat) : option IpsecMb.job_status :=
  if Nat.eqb j 1 then Some IpsecMb.STS_COMPLETED else None.

(** Verification off, the method "df64mul" selected, a budget of
    three ops and no stop request. *)
Definition dfp_budget : Dfp.env_t :=
  Dfp.mk_env seconds adder_alu (fun _ => false) false 3 true (Some 5%nat) dfp_seed.

(** The CPU of [ipsec_sha] with the feature "sse" pinned. *)
Definition ipsec_pinned : IpsecMb.env_t :=
  IpsecMb.mk_env header_bits seconds (fun _ => true) (fun _ _ _ jobs => jobs)
    (fun _ => false) 1 true true avx2_cpu None (Some 7%nat) (Some 4%nat) 0.

(** No signal, the method "pwr2" and a budget of three primes. *)
Definition prime_budget : Prime.env_t :=
  Prime.mk_env seconds (fun s => s + 1) (fun _ => 1) (fun _ _ => 0%nat) 3 true
    (Some Prime.STRESS_PRIME_METHOD_PWR2).

End Scenario.

(** * Facts about stress-dfp.c *)
Section DfpFacts.
Import Dfp.
Variable E : env_t.

Lemma memcmp_le_bytes w a b :
  memcmp (le_bytes w a) (le_bytes w b) w = 0 <-> le_bytes w a = le_bytes w b.
Proof.
  revert a b. induction w as [|w IH]; intros a b; simpl; [tauto|].
  destruct (Z.eqb_spec (Z.land a 255) (Z.land b 255)) as [Heq|Hne].
  - rewrite IH, Heq. split; [intros ->; reflexivity | intros [= ->]; reflexivity].
  - split; [lia | intros [= H _]; contradiction].
Qed.

(** Two values have the same [w] bytes exactly when they agree on their
    low [8 * w] bits: any flipped bit of a stored element shows in the
    byte comparison. *)
Lemma le_bytes_eq_iff w a b :
  le_bytes w a = le_bytes w b <->
  a mod 2 ^ (8 * Z.of_nat w) = b mod 2 ^ (8 * Z.of_nat w).
Proof.
  revert a b. induction w as [|w IH]; intros a b.
  - cbn. rewrite !Z.mod_1_r. tauto.
  - cbn [le_bytes]. replace (8 * Z.of_nat (S w)) with (8 + 8 * Z.of_nat w) by lia.
    rewrite Z.pow_add_r by lia. change (2 ^ 8) with 256.
    rewrite !(Z.rem_mul_r _ 256) by lia.
    change 255 with (Z.ones 8). rewrite !Z.land_ones, !Z.shiftr_div_pow2 by lia.
    change (2 ^ 8) with 256.
    pose proof (Z.mod_pos_bound a 256 ltac:(lia)).
    pose proof (Z.mod_pos_bound b 256 ltac:(lia)).
    split.
    + intros [= E1 E2]. apply IH in E2. rewrite E1, E2. reflexivity.
    + intros Hsum.
      assert (a mod 256 = b mod 256 /\
              (a / 256) mod 2 ^ (8 * Z.of_nat w) =
              (b / 256) mod 2 ^ (8 * Z.of_nat w)) as [E1 E2] by lia.
      rewrite E1. f_equal. apply IH. exact E2.
Qed.

Lemma registry_leaf m func :
  stress_dfp_funcs !! m = Some func -> m <> 0%nat ->
  exists fld op, dfp_func func = stress_dfp_leaf_fn fld op.
Proof.
  intros H Hm.
  do 10 (destruct m as [|m]; [first [congruence | injection H as <-; simpl; eauto] |]).
  discriminate.
Qed.

Lemma registry_bound m func :
  stress_dfp_funcs !! m = Some func -> (m < STRESS_NUM_DFP_FUNCS)%nat.
Proof. intros H. apply lookup_lt_Some in H. exact H. Qed.

Lemma registry_all func :
  stress_dfp_funcs !! 0%nat = Some func -> dfp_func func = stress_dfp_all_fn.
Proof. intros [= <-]. reflexivity. Qed.

(** What one run of a macro generated function leaves behind. *)
Lemma leaf_facts fld op idx st dt st' :
  stress_dfp_leaf E fld op idx st = (dt, st') ->
  dt = PrimFloat.sub (stress_time_now E (S (clock_reads st)))
         (stress_time_now E (clock_reads st)) /\
  stats st' = stats st /\ trace st' = trace st /\
  clock_reads st' = S (S (clock_reads st)) /\
  loops_run st' = S (loops_run st) /\
  continue_flag st' = continue_flag st && negb (sigalrm E (loops_run st)).
Proof. unfold stress_dfp_leaf. intros [= <- <-]. repeat split; reflexivity. Qed.

#[local] Opaque stress_dfp_leaf.
#[local] Arguments verify_elements : simpl never.

(** [stress_dfp_call_method] on an entry that points to a macro
    generated function, with the calls through the pointer resolved. *)
Lemma call_method_leaf (call : dispatch_t) m func fld op verify st :
  (forall idx s, call (stress_dfp_leaf_fn fld op) idx s
                 = Some (stress_dfp_leaf E fld op idx s)) ->
  stress_dfp_funcs !! m = Some func ->
  dfp_func func = stress_dfp_leaf_fn fld op ->
  stress_dfp_call_method_with call m verify st =
  let p0 := stress_dfp_leaf E fld op 0 (log (EvCall m 0) st) in
  let st2 := set_stats (alter (accumulate p0.1) m (stats p0.2)) p0.2 in
  if gate m verify then
    let p1 := stress_dfp_leaf E fld op 1 (log (EvCall m 1) st2) in
    if PrimFloat.ltb p1.1 0%float then Some (EXIT_FAILURE, p1.2)
    else
      let st4 := set_stats (alter (accumulate p1.1) m (stats p1.2)) p1.2 in
      if negb (continue_flag st4) then Some (EXIT_SUCCESS, st4)
      else Some (verify_elements (dfp_type func) (stress_dfp_type (dfp_type func))
                   (name func) DFP_ELEMENTS 0 st4)
  else Some (EXIT_SUCCESS, st2).
Proof.
  intros Hcall Hm Hf. unfold stress_dfp_call_method_with, gate.
  rewrite Hm. simpl. rewrite Hf, !Hcall. simpl.
  destruct (stress_dfp_leaf E fld op 0 _) as [dt0 st1]. simpl.
  destruct ((0 <? m)%nat && ((m <? STRESS_NUM_DFP_FUNCS)%nat && verify)); [|reflexivity].
  rewrite Hcall. simpl.
  destruct (stress_dfp_leaf E fld op 1 _) as [dt1 st3]. reflexivity.
Qed.

Lemma verify_elements_S ty d nm k i st :
  verify_elements ty d nm (S k) i st =
  if ty =? STRESS_DFP_TYPE_DECIMAL32 then
    let e := dfp_data st !!! i in
    let r0 := get_r 0 (data_d32 e) in
    let r1 := get_r 1 (data_d32 e) in
    let st1 := log (EvMemcmp i) st in
    if negb (memcmp (le_bytes (sizeof_field d32) r0) (le_bytes (sizeof_field d32) r1)
               (sizeof_field d32) =? 0)
    then (EXIT_FAILURE, log (EvPrFail d nm i r0 r1) st1)
    else verify_elements ty d nm k (S i) st1
  else (EXIT_SUCCESS, st).
Proof. reflexivity. Qed.

(** The comparison loop leaves the run untouched apart from its trace. *)
Lemma verify_elements_frame ty d nm k i st :
  let r := verify_elements ty d nm k i st in
  stats r.2 = stats st /\ dfp_data r.2 = dfp_data st /\
  continue_flag r.2 = continue_flag st.
Proof.
  revert i st. induction k as [|k IH]; intros i st; [cbn; auto|].
  cbv zeta. rewrite verify_elements_S.
  destruct (ty =? STRESS_DFP_TYPE_DECIMAL32); [|auto]. cbv zeta.
  match goal with |- context [negb ?x] => destruct (negb x) end; [cbn; auto|].
  specialize (IH (S i) (log (EvMemcmp i) st)). cbn in IH |- *. exact IH.
Qed.

(** A type without a case in the switch ends the loop at once. *)
Lemma verify_elements_exempt ty d nm k i st :
  ty <> STRESS_DFP_TYPE_DECIMAL32 ->
  verify_elements ty d nm k i st = (EXIT_SUCCESS, st).
Proof.
  intros Hty. destruct k as [|k]; [reflexivity|]. rewrite verify_elements_S.
  destruct (Z.eqb_spec ty STRESS_DFP_TYPE_DECIMAL32); [contradiction | reflexivity].
Qed.

(** The comparison loop for _Decimal32: it stops at the first element
    whose two slots differ in some byte. *)
Lemma verify_elements_d32 d nm k i st :
  let r := verify_elements STRESS_DFP_TYPE_DECIMAL32 d nm k i st in
  (r.1 = EXIT_SUCCESS /\
   (forall j, (i <= j < i + k)%nat -> same_bytes (dfp_data st !!! j)) /\
   trace r.2 = trace st ++ map EvMemcmp (seq i k))
  \/
  (r.1 = EXIT_FAILURE /\
   exists j, (i <= j < i + k)%nat /\
     (forall j', (i <= j' < j)%nat -> same_bytes (dfp_data st !!! j')) /\
     ~ same_bytes (dfp_data st !!! j) /\
     trace r.2 = trace st ++ map EvMemcmp (seq i (S (j - i)))
       ++ [EvPrFail d nm j (get_r 0 (data_d32 (dfp_data st !!! j)))
             (get_r 1 (data_d32 (dfp_data st !!! j)))]).
Proof.
  revert i st. induction k as [|k IH]; intros i st; cbv zeta.
  - left. cbn. rewrite app_nil_r. repeat split. intros j Hj. lia.
  - rewrite verify_elements_S.
    change (STRESS_DFP_TYPE_DECIMAL32 =? STRESS_DFP_TYPE_DECIMAL32) with true.
    cbv iota zeta. set (e := dfp_data st !!! i).
    destruct (Z.eqb_spec
                (memcmp (le_bytes (sizeof_field d32) (get_r 0 (data_d32 e)))
                   (le_bytes (sizeof_field d32) (get_r 1 (data_d32 e)))
                   (sizeof_field d32)) 0) as [Hz|Hnz]; cbn [negb].
    + apply memcmp_le_bytes in Hz.
      destruct (IH (S i) (log (EvMemcmp i) st)) as [(Hrc & Hall & Htr)|(Hrc & j & Hj & Hpre & Hne & Htr)].
      * left. split; [exact Hrc|]. split.
        -- intros j Hj. destruct (decide (j = i)) as [->|Hji]; [exact Hz|].
           apply Hall. lia.
        -- rewrite Htr. cbn. rewrite <- app_assoc. reflexivity.
      * right. split; [exact Hrc|]. exists j. split; [lia|]. split.
        -- intros j' Hj'. destruct (decide (j' = i)) as [->|Hji]; [exact Hz|].
           apply Hpre. lia.
        -- split; [exact Hne|]. rewrite Htr. cbn [log trace dfp_data].
           replace (S (j - i)) with (S (S (j - S i))) by lia.
           cbn [seq map]. rewrite <- !app_assoc. reflexivity.
    + right. split; [reflexivity|]. exists i. split; [lia|]. split; [intros j' Hj'; lia|].
      split.
      * intros Hs. apply Hnz. apply memcmp_le_bytes. exact Hs.
      * cbn. rewrite Nat.sub_diag. cbn. rewrite <- app_assoc. reflexivity.
Qed.

(** The four ways a call of a concrete method can end. *)
Lemma leaf_method_cases (call : dispatch_t) m func fld op verify st :
  (forall idx s, call (stress_dfp_leaf_fn fld op) idx s
                 = Some (stress_dfp_leaf E fld op idx s)) ->
  stress_dfp_funcs !! m = Some func ->
  dfp_func func = stress_dfp_leaf_fn fld op ->
  let dt0 := PrimFloat.sub (stress_time_now E (S (clock_reads st)))
               (stress_time_now E (clock_reads st)) in
  let dt1 := second_pass_dt E st in
  let s1 := alter (accumulate dt0) m (stats st) in
  let s2 := alter (accumulate dt1) m s1 in
  let ty := dfp_type func in
  exists rc st',
    stress_dfp_call_method_with call m verify st = Some (rc, st') /\
    ((gate m verify = false /\ rc = EXIT_SUCCESS /\ stats st' = s1 /\
      trace st' = trace st ++ [EvCall m 0]) \/
     (gate m verify = true /\ PrimFloat.ltb dt1 0%float = true /\
      rc = EXIT_FAILURE /\ stats st' = s1 /\
      trace st' = trace st ++ [EvCall m 0; EvCall m 1]) \/
     (gate m verify = true /\ PrimFloat.ltb dt1 0%float = false /\
      continue_flag st' = false /\
      rc = EXIT_SUCCESS /\ stats st' = s2 /\
      trace st' = trace st ++ [EvCall m 0; EvCall m 1]) \/
     (gate m verify = true /\ PrimFloat.ltb dt1 0%float = false /\
      continue_flag st' = true /\ stats st' = s2 /\
      exists st4,
        trace st4 = trace st ++ [EvCall m 0; EvCall m 1] /\
        dfp_data st4 = dfp_data st' /\
        (rc, st') = verify_elements ty (stress_dfp_type ty) (name func)
                      DFP_ELEMENTS 0 st4)).
Proof.
  intros Hcall Hm Hf. cbv zeta.
  rewrite (call_method_leaf call m func fld op verify st Hcall Hm Hf). cbv zeta.
  destruct (stress_dfp_leaf E fld op 0 (log (EvCall m 0) st)) as [dt0 st1] eqn:H0.
  apply leaf_facts in H0 as (Hdt0 & Hs1 & Ht1 & Hc1 & Hl1 & Hf1).
  cbn [fst snd log stats trace clock_reads loops_run continue_flag] in *.
  destruct (gate m verify).
  2:{ eexists _, _. split; [reflexivity|]. left.
      cbn. rewrite Hs1, Ht1, Hdt0. auto. }
  destruct (stress_dfp_leaf E fld op 1 _) as [dt1 st3] eqn:H1.
  apply leaf_facts in H1 as (Hdt1 & Hs3 & Ht3 & Hc3 & Hl3 & Hf3).
  cbn [fst snd log set_stats stats trace clock_reads loops_run continue_flag] in *.
  assert (Hdt : dt1 = second_pass_dt E st).
  { unfold second_pass_dt. rewrite Hdt1, Hc1. reflexivity. }
  rewrite <- Hdt.
  destruct (PrimFloat.ltb dt1 0%float) eqn:Hneg.
  { eexists _, _. split; [reflexivity|]. right. left.
    rewrite Hs3, Ht3, Hs1, Ht1, Hdt0, <- app_assoc. auto 10. }
  destruct (continue_flag st3) eqn:Hflag; cbn [negb].
  - destruct (verify_elements _ _ _ _ _ _) as [rc st'] eqn:Hv.
    pose proof (verify_elements_frame (dfp_type func) (stress_dfp_type (dfp_type func))
                  (name func) DFP_ELEMENTS 0
                  (set_stats (alter (accumulate dt1) m (stats st3)) st3)) as Hfr.
    cbv zeta in Hfr. rewrite Hv in Hfr. cbn in Hfr. destruct Hfr as (Hst & Hdata & Hfl).
    eexists _, _. split; [reflexivity|]. right. right. right.
    split; [reflexivity|]. split; [reflexivity|]. split; [congruence|].
    split; [rewrite Hst, Hs3, Hs1, Hdt0; reflexivity|].
    eexists. split; [|split; [|symmetry; exact Hv]].
    + cbn. rewrite Ht3, Ht1, <- app_assoc. reflexivity.
    + cbn. congruence.
  - eexists _, _. split; [reflexivity|]. right. right. left.
    cbn. rewrite Hs3, Ht3, Hs1, Ht1, Hdt0, <- app_assoc. auto 10.
Qed.

(** The comparison loop only appends comparisons and failure reports. *)
Lemma verify_elements_trace ty d nm k i st :
  exists evs, trace (verify_elements ty d nm k i st).2 = trace st ++ evs /\
              Forall (fun e => is_comparison e = true) evs.
Proof.
  revert i st. induction k as [|k IH]; intros i st.
  - exists []. cbn. rewrite app_nil_r. auto.
  - rewrite verify_elements_S.
    destruct (ty =? STRESS_DFP_TYPE_DECIMAL32).
    2:{ exists []. cbn. rewrite app_nil_r. auto. }
    cbv zeta. match goal with |- context [negb ?x] => destruct (negb x) end.
    + eexists [_; _]. cbn. rewrite <- app_assoc. split; [reflexivity|].
      repeat constructor.
    + destruct (IH (S i) (log (EvMemcmp i) st)) as (evs & Htr & Hall).
      exists (EvMemcmp i :: evs). rewrite Htr. cbn. rewrite <- app_assoc.
      split; [reflexivity|]. constructor; [reflexivity | exact Hall].
Qed.

Lemma production_calls_app evs1 evs2 :
  production_calls (evs1 ++ evs2) = production_calls evs1 ++ production_calls evs2.
Proof. unfold production_calls. apply omap_app. Qed.

Lemma production_calls_quiet evs m :
  Forall (fun e => e = EvCall m 1 \/ is_comparison e = true) evs ->
  production_calls evs = [].
Proof.
  induction 1 as [|e evs He _ IH]; [reflexivity|].
  unfold production_calls in *. cbn. rewrite IH.
  destruct He as [->|He]; [reflexivity|]. destruct e; try discriminate; reflexivity.
Qed.

(** A call of [stress_dfp_call_method] made by [stress_dfp_all]. *)
Lemma inner_call_spec i verify st :
  (1 <= i < STRESS_NUM_DFP_FUNCS)%nat ->
  exists rc st' evs,
    stress_dfp_call_method_with (call_inner E) i verify st = Some (rc, st') /\
    trace st' = trace st ++ EvCall i 0 :: evs /\
    Forall (fun e => e = EvCall i 1 \/ is_comparison e = true) evs /\
    stats st' !! 0%nat = stats st !! 0%nat /\
    (verify = false -> rc = EXIT_SUCCESS).
Proof.
  intros Hi.
  destruct (lookup_lt_is_Some_2 stress_dfp_funcs i) as [func Hm]; [apply Hi|].
  destruct (registry_leaf i func Hm) as (fld & op & Hf); [lia|].
  destruct (leaf_method_cases (call_inner E) i func fld op verify st) as (rc & st' & Hcm & Hcases);
    [reflexivity | exact Hm | exact Hf |].
  exists rc, st'. rewrite Hcm.
  assert (Hg : verify = false -> gate i verify = false).
  { intros ->. unfold gate. rewrite !andb_false_r. reflexivity. }
  destruct Hcases as [(Hgate & Hrc & Hs & Htr)|[(Hgate & _ & Hrc & Hs & Htr)|
    [(Hgate & _ & _ & Hrc & Hs & Htr)|(Hgate & _ & _ & Hs & st4 & Htr & _ & Hv)]]].
  - exists []. rewrite Hs, list_lookup_alter_ne by lia. auto 10.
  - exists [EvCall i 1]. rewrite Hs, list_lookup_alter_ne by lia.
    repeat split; auto. intros Hvf. rewrite (Hg Hvf) in Hgate. discriminate.
  - exists [EvCall i 1]. rewrite Hs, !list_lookup_alter_ne by lia.
    repeat split; auto.
  - destruct (verify_elements_trace (dfp_type func) (stress_dfp_type (dfp_type func))
                (name func) DFP_ELEMENTS 0 st4) as (evs & Htr' & Hall).
    rewrite <- Hv in Htr'. cbn in Htr'.
    exists (EvCall i 1 :: evs). rewrite Hs, !list_lookup_alter_ne by lia.
    split; [reflexivity|]. split; [rewrite Htr', Htr, <- app_assoc; reflexivity|].
    split; [constructor; [auto|]; eapply Forall_impl; [exact Hall|]; cbn; auto|].
    split; [reflexivity|]. intros Hvf. rewrite (Hg Hvf) in Hgate. discriminate.
Qed.

(** The loop of [stress_dfp_all] over the indices [a .. a+len-1]. *)
Lemma all_loop_spec verify len a st :
  (1 <= a)%nat -> (a + len <= STRESS_NUM_DFP_FUNCS)%nat ->
  exists dt st' evs,
    all_loop (fun i => stress_dfp_call_method_with (call_inner E) i verify)
      (seq a len) st = Some (dt, st') /\
    trace st' = trace st ++ evs /\
    Forall not_all_call evs /\
    Forall (fun e => is_metric e = false) evs /\
    stats st' !! 0%nat = stats st !! 0%nat /\
    (verify = false -> dt = 0%float) /\
    ((dt = 0%float /\ production_calls evs = seq a len) \/
     (dt = (-1)%float /\
      exists k stk, (k < len)%nat /\ production_calls evs = seq a (S k) /\
        stress_dfp_call_method_with (call_inner E) (a + k) verify stk
        = Some (EXIT_FAILURE, st'))).
Proof.
  revert a st. induction len as [|len IH]; intros a st Ha Hlen.
  - exists 0%float, st, []. cbn. rewrite app_nil_r. auto 10.
  - destruct (inner_call_spec a verify st) as (rc & st1 & evs1 & Hcm & Htr1 & Hall1 & Hs1 & Hv1);
      [lia|].
    cbn [seq all_loop]. rewrite Hcm. cbn [mbind option_bind].
    assert (Hn1 : Forall not_all_call (EvCall a 0 :: evs1)).
    { constructor; [intros idx [= ?]; lia|].
      eapply Forall_impl; [exact Hall1|]. intros e [->|He] idx; [intros [= ?]; lia|].
      intros ->. discriminate. }
    assert (Hq1 : Forall (fun e => is_metric e = false) (EvCall a 0 :: evs1)).
    { constructor; [reflexivity|].
      eapply Forall_impl; [exact Hall1|]. intros e [->|He]; [reflexivity|].
      destruct e; try discriminate; reflexivity. }
    assert (Hp1 : production_calls (EvCall a 0 :: evs1) = [a]).
    { change (EvCall a 0 :: evs1) with ([EvCall a 0] ++ evs1).
      rewrite production_calls_app, (production_calls_quiet evs1 a Hall1). reflexivity. }
    destruct (is_failure rc) eqn:Hrc.
    + exists (-1)%float, st1, (EvCall a 0 :: evs1).
      split; [reflexivity|]. split; [exact Htr1|]. split; [exact Hn1|].
      split; [exact Hq1|]. split; [exact Hs1|]. split.
      { intros Hv. rewrite (Hv1 Hv) in Hrc. discriminate. }
      right. split; [reflexivity|]. exists 0%nat, st.
      split; [lia|]. split; [exact Hp1|]. rewrite Nat.add_0_r, Hcm.
      destruct rc; try discriminate. reflexivity.
    + destruct (IH (S a) st1) as (dt & st' & evs & Hloop & Htr & Hall & Hq & Hs & Hv & Hcases);
        [lia | lia |].
      exists dt, st', ((EvCall a 0 :: evs1) ++ evs).
      split; [exact Hloop|]. split; [rewrite Htr, Htr1, <- app_assoc; reflexivity|].
      split; [apply Forall_app; auto|]. split; [apply Forall_app; auto|].
      split; [congruence|]. split; [exact Hv|].
      rewrite production_calls_app, Hp1.
      destruct Hcases as [(Hdt & Hp)|(Hdt & k & stk & Hk & Hp & Hfail)].
      * left. split; [exact Hdt|]. rewrite Hp. reflexivity.
      * right. split; [exact Hdt|]. exists (S k), stk. split; [lia|].
        split; [rewrite Hp; reflexivity|].
        replace (a + S k)%nat with (S a + k)%nat by lia. exact Hfail.
Qed.

(** The same loop seen call by call: the first [length rcs] calls do
    not fail; then either the indices are used up, or the next call,
    made from the state these calls left, fails and ends the loop. *)
Lemma all_loop_calls verify len a st :
  (1 <= a)%nat -> (a + len <= STRESS_NUM_DFP_FUNCS)%nat ->
  let call := fun i => stress_dfp_call_method_with (call_inner E) i verify in
  exists dt st' evs rcs sk,
    all_loop call (seq a len) st = Some (dt, st') /\
    trace st' = trace st ++ evs /\
    Forall not_all_call evs /\
    (verify = false -> dt = 0%float) /\
    calls_in_turn call (seq a (length rcs)) st rcs sk /\
    Forall (fun rc => rc <> EXIT_FAILURE) rcs /\
    ((dt = 0%float /\ length rcs = len /\ st' = sk /\
      production_calls evs = seq a len) \/
     (dt = (-1)%float /\ (length rcs < len)%nat /\
      call (a + length rcs)%nat sk = Some (EXIT_FAILURE, st') /\
      production_calls evs = seq a (S (length rcs)))).
Proof.
  cbv zeta. revert a st. induction len as [|len IH]; intros a st Ha Hlen.
  - exists 0%float, st, [], [], st. cbn. rewrite app_nil_r.
    repeat (split; [first [reflexivity | constructor] |]). left. auto.
  - destruct (inner_call_spec a verify st) as (rc & st1 & evs1 & Hcm & Htr1 & Hall1 & _ & Hv1);
      [lia|].
    cbn [seq all_loop]. rewrite Hcm. cbn [mbind option_bind].
    assert (Hn1 : Forall not_all_call (EvCall a 0 :: evs1)).
    { constructor; [intros idx [= ?]; lia|].
      eapply Forall_impl; [exact Hall1|]. intros e [->|He] idx; [intros [= ?]; lia|].
      intros ->. discriminate. }
    assert (Hp1 : production_calls (EvCall a 0 :: evs1) = [a]).
    { change (EvCall a 0 :: evs1) with ([EvCall a 0] ++ evs1).
      rewrite production_calls_app, (production_calls_quiet evs1 a Hall1). reflexivity. }
    destruct (is_failure rc) eqn:Hrc.
    + exists (-1)%float, st1, (EvCall a 0 :: evs1), [], st.
      split; [reflexivity|]. split; [exact Htr1|]. split; [exact Hn1|].
      split; [intros Hv; rewrite (Hv1 Hv) in Hrc; discriminate|].
      split; [reflexivity|]. split; [constructor|].
      right. split; [reflexivity|]. split; [cbn; lia|].
      cbn [length]. rewrite Nat.add_0_r, Hcm. split; [|exact Hp1].
      destruct rc; try discriminate. reflexivity.
    + destruct (IH (S a) st1) as (dt & st' & evs & rcs & sk & Hloop & Htr & Hall & Hv & Hch & Hok & Hcases);
        [lia | lia |].
      exists dt, st', ((EvCall a 0 :: evs1) ++ evs), (rc :: rcs), sk.
      split; [exact Hloop|]. split; [rewrite Htr, Htr1, <- app_assoc; reflexivity|].
      split; [apply Forall_app; auto|]. split; [exact Hv|].
      split; [cbn [length seq calls_in_turn]; exists st1; auto|].
      split; [constructor; [intros ->; discriminate | exact Hok]|].
      rewrite production_calls_app, Hp1. cbn [length].
      destruct Hcases as [(Hdt & Hk & Hst & Hp)|(Hdt & Hk & Hfail & Hp)].
      * left. rewrite Hp, Hk. auto.
      * right. split; [exact Hdt|]. split; [lia|].
        replace (a + S (length rcs))%nat with (S a + length rcs)%nat by lia.
        split; [exact Hfail|]. rewrite Hp. reflexivity.
Qed.

(** [stress_dfp_all] always returns, with 0.0 or with the sentinel. *)
Lemma stress_dfp_all_spec idx st :
  exists dt st' evs,
    stress_dfp_all E idx st = Some (dt, st') /\
    trace st' = trace st ++ evs /\
    Forall not_all_call evs /\
    Forall (fun e => is_metric e = false) evs /\
    stats st' !! 0%nat = stats st !! 0%nat /\
    (opt_flags_verify E = false -> dt = 0%float) /\
    ((dt = 0%float /\ production_calls evs = seq 1 (STRESS_NUM_DFP_FUNCS - 1)) \/
     (dt = (-1)%float /\
      exists k stk, (k < STRESS_NUM_DFP_FUNCS - 1)%nat /\
        production_calls evs = seq 1 (S k) /\
        stress_dfp_call_method_with (call_inner E) (1 + k) (opt_flags_verify E) stk
        = Some (EXIT_FAILURE, st'))).
Proof.
  unfold stress_dfp_all.
  apply (all_loop_spec (opt_flags_verify E) (STRESS_NUM_DFP_FUNCS - 1) 1 st); cbn; lia.
Qed.

(** A call of the "all" entry: whatever [stress_dfp_all] returned is
    added to the entry's stats, and the call reports success. *)
Lemma call_method_all verify st :
  exists dt st1,
    stress_dfp_all E 0 (log (EvCall 0 0) st) = Some (dt, st1) /\
    stress_dfp_call_method E 0 verify st
    = Some (EXIT_SUCCESS, set_stats (alter (accumulate dt) 0%nat (stats st1)) st1).
Proof.
  destruct (stress_dfp_all_spec 0%nat (log (EvCall 0 0) st)) as (dt & st1 & evs & Hall & _).
  exists dt, st1. split; [exact Hall|].
  unfold stress_dfp_call_method, stress_dfp_call_method_with.
  cbn [lookup list_lookup stress_dfp_funcs mbind option_bind dfp_func call_func].
  rewrite Hall. reflexivity.
Qed.

End DfpFacts.

Section DfpClaims.
Import Dfp.
Variable E : env_t.

Lemma gate_true m verify :
  gate m verify = true <-> (verify = true /\ m <> 0%nat /\ (m < STRESS_NUM_DFP_FUNCS)%nat).
Proof.
  unfold gate. rewrite !andb_true_iff, !Nat.ltb_lt. split.
  - intros (? & ? & ?). repeat split; auto; lia.
  - intros (? & ? & ?). repeat split; auto; lia.
Qed.

(** C3.  For every method index of the registry, the second,
    verification pass into result slot 1 is made exactly when
    verification is enabled and the method is not the "all" entry
    (index 0).  When the continue flag is down once that pass is over
    (and the pass measured no negative time), no element is compared,
    no failure is reported and the call returns EXIT_SUCCESS. *)
Theorem verification_pass_gate st m verify func :
  stress_dfp_funcs !! m = Some func ->
  exists rc st' evs,
    stress_dfp_call_method E m verify st = Some (rc, st') /\
    trace st' = trace st ++ evs /\
    (In (EvCall m 1) evs <-> verify = true /\ m <> 0%nat) /\
    (In (EvCall m 1) evs ->
     continue_flag st' = false ->
     PrimFloat.ltb (second_pass_dt E st) 0%float = false ->
     rc = EXIT_SUCCESS /\ Forall (fun e => is_comparison e = false) evs).
Proof.
  intros Hm. destruct (decide (m = 0%nat)) as [->|Hm0].
  - destruct (call_method_all E verify st) as (dt & st1 & Hall & Hcm).
    destruct (stress_dfp_all_spec E 0%nat (log (EvCall 0 0) st))
      as (dt' & st1' & evs & Hall' & Htr & Hnot & _).
    rewrite Hall in Hall'. injection Hall' as <- <-.
    assert (Hin : ~ In (EvCall 0 1) (EvCall 0 0 :: evs)).
    { intros [Heq|Hin]; [discriminate|].
      rewrite Forall_forall in Hnot. apply list_elem_of_In, Hnot in Hin.
      exact (Hin 1%nat eq_refl). }
    eexists _, _, (EvCall 0 0 :: evs). split; [exact Hcm|].
    split; [cbn; rewrite Htr; cbn; rewrite <- app_assoc; reflexivity|].
    split; [split; [intros H; contradiction | intros [_ H]; congruence]|].
    intros H. contradiction.
  - destruct (registry_leaf m func Hm Hm0) as (fld & op & Hf).
    destruct (leaf_method_cases E (call_func E) m func fld op verify st)
      as (rc & st' & Hcm & Hcases); [reflexivity | exact Hm | exact Hf |].
    exists rc, st'. unfold stress_dfp_call_method. rewrite Hcm.
    destruct Hcases as [(Hgate & Hrc & Hs & Htr)|[(Hgate & Hneg & Hrc & Hs & Htr)|
      [(Hgate & Hneg & Hflag & Hrc & Hs & Htr)|(Hgate & Hneg & Hflag & Hs & st4 & Htr & _ & Hve)]]].
    + exists [EvCall m 0]. split; [reflexivity|]. split; [exact Htr|]. split.
      * split.
        -- intros [H|[]]. discriminate.
        -- intros [Hv _]. assert (gate m verify = true) as Hg.
           { apply gate_true. split; [exact Hv|]. split; [exact Hm0|].
             eapply registry_bound; eauto. }
           congruence.
      * intros [H|[]]. discriminate.
    + apply gate_true in Hgate as (Hv & _ & _).
      exists [EvCall m 0; EvCall m 1]. split; [reflexivity|]. split; [exact Htr|]. split.
      * split; [auto | intros _; right; left; reflexivity].
      * intros _ _ Hpos. congruence.
    + apply gate_true in Hgate as (Hv & _ & _).
      exists [EvCall m 0; EvCall m 1]. split; [reflexivity|]. split; [exact Htr|]. split.
      * split; [auto | intros _; right; left; reflexivity].
      * intros _ _ _. split; [exact Hrc|]. repeat constructor.
    + apply gate_true in Hgate as (Hv & _ & _).
      destruct (verify_elements_trace (dfp_type func) (stress_dfp_type (dfp_type func))
                  (name func) DFP_ELEMENTS 0 st4) as (evs & Htr' & Hall).
      rewrite <- Hve in Htr'. cbn in Htr'.
      exists ([EvCall m 0; EvCall m 1] ++ evs). split; [reflexivity|].
      split; [rewrite Htr', Htr, <- app_assoc; reflexivity|]. split.
      * split; [auto | intros _; right; left; reflexivity].
      * intros _ Hdown. congruence.
Qed.

(** C4.  A method whose type has no case in the comparison switch
    (every type but _Decimal32: _Decimal64, _Decimal128 and the "all"
    entry) returns EXIT_SUCCESS from a verified call whatever the two
    result slots hold, and neither compares an element nor reports a
    failure, as long as its verification pass measured no negative
    time. *)
Theorem exempt_types_report_success st m verify func :
  stress_dfp_funcs !! m = Some func ->
  dfp_type func <> STRESS_DFP_TYPE_DECIMAL32 ->
  (m <> 0%nat -> PrimFloat.ltb (second_pass_dt E st) 0%float = false) ->
  exists st' evs,
    stress_dfp_call_method E m verify st = Some (EXIT_SUCCESS, st') /\
    trace st' = trace st ++ evs /\
    (m <> 0%nat -> Forall (fun e => is_comparison e = false) evs).
Proof.
  intros Hm Hty Hclock. destruct (decide (m = 0%nat)) as [->|Hm0].
  - destruct (call_method_all E verify st) as (dt & st1 & Hall & Hcm).
    destruct (stress_dfp_all_spec E 0%nat (log (EvCall 0 0) st))
      as (dt' & st1' & evs & Hall' & Htr & _).
    rewrite Hall in Hall'. injection Hall' as <- <-.
    eexists _, (EvCall 0 0 :: evs). split; [exact Hcm|].
    split; [cbn; rewrite Htr; cbn; rewrite <- app_assoc; reflexivity|].
    intros H. congruence.
  - specialize (Hclock Hm0).
    destruct (registry_leaf m func Hm Hm0) as (fld & op & Hf).
    destruct (leaf_method_cases E (call_func E) m func fld op verify st)
      as (rc & st' & Hcm & Hcases); [reflexivity | exact Hm | exact Hf |].
    unfold stress_dfp_call_method. rewrite Hcm.
    destruct Hcases as [(Hgate & Hrc & Hs & Htr)|[(Hgate & Hneg & Hrc & Hs & Htr)|
      [(Hgate & Hneg & Hflag & Hrc & Hs & Htr)|(Hgate & Hneg & Hflag & Hs & st4 & Htr & _ & Hve)]]].
    + subst rc. eexists _, _. split; [reflexivity|]. split; [exact Htr|].
      intros _. repeat constructor.
    + congruence.
    + subst rc. eexists _, _. split; [reflexivity|]. split; [exact Htr|].
      intros _. repeat constructor.
    + rewrite verify_elements_exempt in Hve by exact Hty. injection Hve as -> ->.
      eexists _, _. split; [reflexivity|]. split; [exact Htr|].
      intros _. repeat constructor.
Qed.

(** C5.  For a _Decimal32 method called with verification on, whose
    verification pass measured no negative time and ended with the
    continue flag still up: the two result slots of the eight elements
    are compared byte for byte in index order; the call returns
    EXIT_SUCCESS exactly when all eight pairs hold the same bytes, and
    otherwise stops at the first differing element, reports a failure
    with that element's index and the two values found, and returns
    EXIT_FAILURE. *)
Theorem decimal32_verification st m func :
  stress_dfp_funcs !! m = Some func ->
  dfp_type func = STRESS_DFP_TYPE_DECIMAL32 ->
  PrimFloat.ltb (second_pass_dt E st) 0%float = false ->
  exists rc st',
    stress_dfp_call_method E m true st = Some (rc, st') /\
    (continue_flag st' = true ->
     let data := dfp_data st' in
     let passes := trace st ++ [EvCall m 0; EvCall m 1] in
     (rc = EXIT_SUCCESS <->
      forall i, (i < DFP_ELEMENTS)%nat -> same_bytes (data !!! i)) /\
     (rc = EXIT_SUCCESS ->
      trace st' = passes ++ map EvMemcmp (seq 0 DFP_ELEMENTS)) /\
     (rc <> EXIT_SUCCESS ->
      rc = EXIT_FAILURE /\
      exists i, (i < DFP_ELEMENTS)%nat /\
        (forall j, (j < i)%nat -> same_bytes (data !!! j)) /\
        ~ same_bytes (data !!! i) /\
        trace st' = passes ++ map EvMemcmp (seq 0 (S i))
          ++ [EvPrFail "_Decimal32" (name func) i
                (get_r 0 (data_d32 (data !!! i))) (get_r 1 (data_d32 (data !!! i)))])).
Proof.
  intros Hm Hty Hclock.
  assert (Hm0 : m <> 0%nat).
  { intros ->. injection Hm as <-. discriminate. }
  destruct (registry_leaf m func Hm Hm0) as (fld & op & Hf).
  destruct (leaf_method_cases E (call_func E) m func fld op true st)
    as (rc & st' & Hcm & Hcases); [reflexivity | exact Hm | exact Hf |].
  exists rc, st'. split; [exact Hcm|]. intros Hup.
  assert (Hg : gate m true = true).
  { apply gate_true. repeat split; auto. eapply registry_bound; eauto. }
  destruct Hcases as [(Hgate & _)|[(_ & Hneg & _)|
    [(_ & _ & Hflag & _)|(_ & _ & _ & Hs & st4 & Htr & Hdata & Hve)]]]; try congruence.
  rewrite Hty in Hve.
  pose proof (verify_elements_d32 "_Decimal32" (name func) DFP_ELEMENTS 0 st4) as Hspec.
  cbv zeta in Hspec. change (stress_dfp_type STRESS_DFP_TYPE_DECIMAL32) with "_Decimal32"%string in Hve.
  rewrite <- Hve in Hspec. cbn [fst snd] in Hspec. rewrite Hdata, Htr in Hspec.
  cbv zeta.
  destruct Hspec as [(Hrc & Hall & Htr')|(Hrc & j & Hj & Hpre & Hne & Htr')].
  - split; [split; [intros _ i Hi; apply Hall; lia | intros _; exact Hrc]|].
    split; [intros _; exact Htr' | intros H; contradiction].
  - split.
    { split; [intros H; congruence|]. intros Hall. exfalso. apply Hne, Hall. lia. }
    split; [intros H; congruence|]. intros _. split; [exact Hrc|].
    exists j. split; [lia|]. split; [intros j' Hj'; apply Hpre; lia|].
    split; [exact Hne|]. rewrite Htr', Nat.sub_0_r, <- app_assoc. reflexivity.
Qed.

(** No call of a method emits a metric. *)
Lemma call_method_quiet m func verify st :
  stress_dfp_funcs !! m = Some func ->
  exists rc st' evs,
    stress_dfp_call_method E m verify st = Some (rc, st') /\
    trace st' = trace st ++ evs /\
    Forall (fun e => is_metric e = false) evs.
Proof.
  intros Hm. destruct (decide (m = 0%nat)) as [->|Hm0].
  - destruct (call_method_all E verify st) as (dt & st1 & Hall & Hcm).
    destruct (stress_dfp_all_spec E 0%nat (log (EvCall 0 0) st))
      as (dt' & st1' & evs & Hall' & Htr & _ & Hq & _).
    rewrite Hall in Hall'. injection Hall' as <- <-.
    eexists _, _, (EvCall 0 0 :: evs). split; [exact Hcm|].
    split; [cbn; rewrite Htr; cbn; rewrite <- app_assoc; reflexivity|].
    constructor; [reflexivity | exact Hq].
  - destruct (registry_leaf m func Hm Hm0) as (fld & op & Hf).
    destruct (leaf_method_cases E (call_func E) m func fld op verify st)
      as (rc & st' & Hcm & Hcases); [reflexivity | exact Hm | exact Hf |].
    exists rc, st'. unfold stress_dfp_call_method. rewrite Hcm.
    destruct Hcases as [(_ & _ & _ & Htr)|[(_ & _ & _ & _ & Htr)|
      [(_ & _ & _ & _ & _ & Htr)|(_ & _ & _ & _ & st4 & Htr & _ & Hve)]]].
    1-3: eexists; split; [reflexivity|]; split; [exact Htr|]; repeat constructor.
    destruct (verify_elements_trace (dfp_type func) (stress_dfp_type (dfp_type func))
                (name func) DFP_ELEMENTS 0 st4) as (evs & Htr' & Hall).
    rewrite <- Hve in Htr'. cbn in Htr'.
    exists ([EvCall m 0; EvCall m 1] ++ evs). split; [reflexivity|].
    split; [rewrite Htr', Htr, <- app_assoc; reflexivity|].
    apply Forall_app. split; [repeat constructor|].
    eapply Forall_impl; [exact Hall|]. intros e He. destruct e; try discriminate; reflexivity.
Qed.

Lemma main_loop_quiet fuel m func verify st rc st' :
  stress_dfp_funcs !! m = Some func ->
  main_loop fuel E m verify st = Some (rc, st') ->
  exists evs, trace st' = trace st ++ evs /\ Forall (fun e => is_metric e = false) evs.
Proof.
  intros Hm. revert st. induction fuel as [|fuel IH]; intros st; [discriminate|].
  cbn [main_loop].
  destruct (call_method_quiet m func verify st Hm) as (rc1 & st1 & evs1 & Hcm & Htr1 & Hq1).
  rewrite Hcm. cbn [mbind option_bind].
  destruct (is_failure rc1).
  - intros [= <- <-]. eauto.
  - destruct (stress_continue E st1).
    + intros Hloop. destruct (IH st1 Hloop) as (evs & Htr & Hq).
      exists (evs1 ++ evs). rewrite Htr, Htr1, <- app_assoc.
      split; [reflexivity | apply Forall_app; auto].
    + intros [= <- <-]. eauto.
Qed.

(** The report loop: one metric for each index from 1 on whose
    duration and ops are both positive. *)
Lemma report_metrics_spec s e :
  In e (report_metrics s) <->
  exists i f si,
    (1 <= i < STRESS_NUM_DFP_FUNCS)%nat /\
    stress_dfp_funcs !! i = Some f /\ s !! i = Some si /\
    PrimFloat.ltb 0%float (duration si) = true /\
    PrimFloat.ltb 0%float (ops si) = true /\
    e = EvMetric (i - 1) (metric_msg (description f))
          (PrimFloat.div (PrimFloat.div (ops si) (duration si)) 1000000%float)
          STRESS_METRIC_HARMONIC_MEAN.
Proof.
  unfold report_metrics. rewrite in_flat_map. split.
  - intros (i & Hi & He). apply in_seq in Hi.
    destruct (s !! i) as [si|] eqn:Hsi; [|contradiction].
    destruct (stress_dfp_funcs !! i) as [f|] eqn:Hf; [|contradiction].
    unfold report_entry in He.
    destruct (PrimFloat.ltb 0%float (duration si)) eqn:Hd; [|contradiction].
    destruct (PrimFloat.ltb 0%float (ops si)) eqn:Ho; [|contradiction].
    destruct He as [<-|[]]. exists i, f, si.
    change STRESS_NUM_DFP_FUNCS with 10%nat in *. repeat split; auto; lia.
  - intros (i & f & si & Hi & Hf & Hsi & Hd & Ho & ->).
    exists i. split; [apply in_seq; change STRESS_NUM_DFP_FUNCS with 10%nat in *; lia|].
    rewrite Hsi, Hf. unfold report_entry. rewrite Hd, Ho. left. reflexivity.
Qed.

Lemma flat_map_ext_in {A B} (f g : A -> list B) l :
  (forall a, In a l -> f a = g a) -> flat_map f l = flat_map g l.
Proof.
  induction l as [|a l IH]; intros H; [reflexivity|].
  cbn. rewrite (H a), IH; [reflexivity | | left; reflexivity].
  intros b Hb. apply H. right. exact Hb.
Qed.

(** The stats of the "all" entry have no part in the report. *)
Lemma report_metrics_ignores_all (g : stats_t -> stats_t) s :
  report_metrics (alter g 0%nat s) = report_metrics s.
Proof.
  unfold report_metrics. apply flat_map_ext_in. intros i Hi. apply in_seq in Hi.
  rewrite list_lookup_alter_ne by lia. reflexivity.
Qed.

Lemma main_loop_bad_index fuel m verify st :
  stress_dfp_funcs !! m = None -> main_loop fuel E m verify st = None.
Proof.
  intros Hm. destruct fuel as [|fuel]; [reflexivity|].
  cbn [main_loop]. unfold stress_dfp_call_method, stress_dfp_call_method_with.
  rewrite Hm. reflexivity.
Qed.

(** C10.  Every call through [stress_dfp_call_method] adds the
    duration of its production pass to the duration, and the fixed op
    count of 8 * 65536 = 524288 to the ops, of the index it was called
    with and of no other index.  For index 0 the duration added is
    whatever [stress_dfp_all] returned, the -1.0 sentinel included.
    For a concrete method the verification pass is added in the same
    way on top of that exactly when verification is on and the pass did
    not measure a negative duration.  The report loop starts at index
    1: the stats of the "all" entry have no part in it, and every
    metric a run emits belongs to a concrete method. *)
Theorem all_entry_stats_never_reported :
  let add dt s :=
    mk_stats (PrimFloat.add (duration s) dt) (PrimFloat.add (ops s) 524288%float) in
  (forall st verify,
     exists dt st1 st',
       stress_dfp_all E 0 (log (EvCall 0 0) st) = Some (dt, st1) /\
       stress_dfp_call_method E 0 verify st = Some (EXIT_SUCCESS, st') /\
       stats st' = alter (add dt) 0%nat (stats st1) /\
       stats st' !! 0%nat = add dt <$> stats st !! 0%nat) /\
  (forall st m verify func,
     stress_dfp_funcs !! m = Some func -> m <> 0%nat ->
     exists rc st',
       stress_dfp_call_method E m verify st = Some (rc, st') /\
       let dt0 := PrimFloat.sub (stress_time_now E (S (clock_reads st)))
                    (stress_time_now E (clock_reads st)) in
       let dt1 := second_pass_dt E st in
       let s1 := alter (add dt0) m (stats st) in
       stats st' = if verify && negb (PrimFloat.ltb dt1 0%float)
                   then alter (add dt1) m s1 else s1) /\
  (forall (g : stats_t -> stats_t) s,
     report_metrics (alter g 0%nat s) = report_metrics s) /\
  (forall fuel rc tr idx msg v k,
     stress_dfp E fuel = Some (rc, tr) ->
     In (EvMetric idx msg v k) tr ->
     exists i f,
       (1 <= i < STRESS_NUM_DFP_FUNCS)%nat /\ idx = (i - 1)%nat /\
       stress_dfp_funcs !! i = Some f /\
       dfp_func f <> stress_dfp_all_fn /\
       msg = metric_msg (description f)).
Proof.
  cbv zeta.
  assert (Hacc : forall dt,
            accumulate dt
            = fun s => mk_stats (PrimFloat.add (duration s) dt)
                         (PrimFloat.add (ops s) 524288%float)) by reflexivity.
  split; [|split; [|split]].
  - intros st verify.
    destruct (call_method_all E verify st) as (dt & st1 & Hall & Hcm).
    destruct (stress_dfp_all_spec E 0%nat (log (EvCall 0 0) st))
      as (dt' & st1' & evs & Hall' & _ & _ & _ & Hs & _).
    rewrite Hall in Hall'. injection Hall' as <- <-.
    eexists dt, st1, _. split; [exact Hall|]. split; [exact Hcm|].
    rewrite <- Hacc. split; [reflexivity|]. cbn [set_stats stats].
    rewrite list_lookup_alter, Hs. reflexivity.
  - intros st m verify func Hm Hm0.
    destruct (registry_leaf m func Hm Hm0) as (fld & op & Hf).
    destruct (leaf_method_cases E (call_func E) m func fld op verify st)
      as (rc & st' & Hcm & Hcases); [reflexivity | exact Hm | exact Hf |].
    exists rc, st'. split; [exact Hcm|]. rewrite <- !Hacc.
    assert (Hg : gate m verify = verify).
    { destruct verify.
      - apply gate_true. repeat split; auto. eapply registry_bound; eauto.
      - unfold gate. rewrite !andb_false_r. reflexivity. }
    rewrite Hg in Hcases.
    destruct Hcases as [(-> & _ & Hs & _)|[(-> & -> & _ & Hs & _)|
      [(-> & -> & _ & _ & Hs & _)|(-> & -> & _ & Hs & _)]]]; exact Hs.
  - apply report_metrics_ignores_all.
  - intros fuel rc tr idx msg v k. unfold stress_dfp.
    destruct (mmap_ok E); cbn [negb].
    2:{ intros [= <- <-] [H|[H|[]]]; discriminate. }
    set (m := default 0%nat (setting_fp_method E)).
    destruct (stress_dfp_funcs !! m) as [func|] eqn:Hm.
    2:{ rewrite main_loop_bad_index by exact Hm. discriminate. }
    destruct (main_loop _ _ _ _ _) as [[rc' st]|] eqn:Hloop; [|discriminate].
    cbn [mbind option_bind]. intros [= <- <-].
    destruct (main_loop_quiet _ _ _ _ _ _ _ Hm Hloop) as (evs & Htr & Hq).
    rewrite Htr. cbn [initial_state trace]. rewrite !in_app_iff.
    intros [[Hin|Hin]|[Hin|Hin]].
    + destruct Hin as [H|[H|[H|[]]]]; discriminate.
    + rewrite Forall_forall in Hq. apply list_elem_of_In, Hq in Hin. discriminate.
    + apply report_metrics_spec in Hin as (i & f & si & Hi & Hf & _ & _ & _ & He).
      injection He as -> -> _ _. exists i, f. repeat split; auto; try lia.
      destruct (registry_leaf i f Hf) as (fld & op & Hleaf); [lia|]. congruence.
    + destruct Hin as [H|[H|[]]]; discriminate.
Qed.

End DfpClaims.

Section DfpTermination.
Import Dfp.
Variable E : env_t.

#[local] Opaque stress_dfp_leaf.

Lemma progressed_trans st1 st2 st3 :
  progressed E st1 st2 -> progressed E st2 st3 -> progressed E st1 st3.
Proof.
  intros (Hlt1 & H1) (Hlt2 & H2). split; [lia|].
  intros Hup. destruct (H2 Hup) as (Hup2 & Hq2). destruct (H1 Hup2) as (Hup1 & Hq1).
  split; [exact Hup1|]. intros n Hn.
  destruct (Nat.lt_ge_cases n (loops_run st2)); [apply Hq1 | apply Hq2]; lia.
Qed.

Lemma leaf_progressed fld op idx st :
  progressed E st (stress_dfp_leaf E fld op idx st).2.
Proof.
  destruct (stress_dfp_leaf E fld op idx st) as [dt st'] eqn:Hl.
  apply leaf_facts in Hl as (_ & _ & _ & _ & Hlr & Hfl). cbn [snd].
  split; [lia|]. rewrite Hfl, Hlr. intros [Hup Hq]%andb_true_iff.
  split; [exact Hup|]. intros n Hn. assert (n = loops_run st) as -> by lia.
  destruct (sigalrm E (loops_run st)); [discriminate | reflexivity].
Qed.

Lemma verify_elements_idle ty d nm k i st :
  let r := verify_elements ty d nm k i st in
  loops_run r.2 = loops_run st /\ continue_flag r.2 = continue_flag st.
Proof.
  revert i st. induction k as [|k IH]; intros i st; [cbn; auto|].
  cbv zeta. rewrite verify_elements_S.
  destruct (ty =? STRESS_DFP_TYPE_DECIMAL32); [|auto]. cbv zeta.
  match goal with |- context [negb ?x] => destruct (negb x) end; [cbn; auto|].
  specialize (IH (S i) (log (EvMemcmp i) st)). cbn in IH |- *. exact IH.
Qed.

(** A call of a concrete method runs one or two arithmetic loops. *)
Lemma leaf_method_progressed (call : dispatch_t) m func fld op verify st rc st' :
  (forall idx s, call (stress_dfp_leaf_fn fld op) idx s
                 = Some (stress_dfp_leaf E fld op idx s)) ->
  stress_dfp_funcs !! m = Some func ->
  dfp_func func = stress_dfp_leaf_fn fld op ->
  stress_dfp_call_method_with call m verify st = Some (rc, st') ->
  progressed E st st'.
Proof.
  intros Hcall Hm Hf. rewrite (call_method_leaf E call m func fld op verify st Hcall Hm Hf).
  cbv zeta.
  pose proof (leaf_progressed fld op 0 (log (EvCall m 0) st)) as H0.
  destruct (stress_dfp_leaf E fld op 0 (log (EvCall m 0) st)) as [dt0 st1]. cbn [fst snd] in *.
  set (st2 := set_stats (alter (accumulate dt0) m (stats st1)) st1).
  assert (H2 : progressed E st st2) by exact H0.
  destruct (gate m verify); [|intros [= <- <-]; exact H2].
  pose proof (leaf_progressed fld op 1 (log (EvCall m 1) st2)) as H1.
  destruct (stress_dfp_leaf E fld op 1 (log (EvCall m 1) st2)) as [dt1 st3]. cbn [fst snd] in *.
  assert (H3 : progressed E st st3) by (eapply progressed_trans; [exact H2 | exact H1]).
  destruct (PrimFloat.ltb dt1 0%float); [intros [= <- <-]; exact H3|].
  set (st4 := set_stats (alter (accumulate dt1) m (stats st3)) st3).
  destruct (negb (continue_flag st4)); [intros [= <- <-]; exact H3|].
  pose proof (verify_elements_idle (dfp_type func) (stress_dfp_type (dfp_type func))
                (name func) DFP_ELEMENTS 0 st4) as Hidle.
  cbv zeta in Hidle.
  destruct (verify_elements _ _ _ _ _ _) as [rc' st''].
  cbn [snd] in Hidle. destruct Hidle as (Hlr & Hfl). intros [= <- <-].
  destruct H3 as (Hlt & Hq). split; [rewrite Hlr; exact Hlt|].
  rewrite Hlr, Hfl. exact Hq.
Qed.

Lemma all_loop_progressed verify len a st dt st' :
  (1 <= a)%nat -> (a + S len <= STRESS_NUM_DFP_FUNCS)%nat ->
  all_loop (fun i => stress_dfp_call_method_with (call_inner E) i verify)
    (seq a (S len)) st = Some (dt, st') ->
  progressed E st st'.
Proof.
  revert a st. induction len as [|len IH]; intros a st Ha Hlen;
    cbn [seq all_loop];
    (destruct (lookup_lt_is_Some_2 stress_dfp_funcs a) as [func Hm];
       [change (length stress_dfp_funcs) with STRESS_NUM_DFP_FUNCS; lia|]);
    (destruct (registry_leaf a func Hm) as (fld & op & Hf); [lia|]);
    destruct (stress_dfp_call_method_with (call_inner E) a verify st) as [[rc st1]|] eqn:Hcm;
    try discriminate; cbn [mbind option_bind];
    pose proof (leaf_method_progressed (call_inner E) a func fld op verify st rc st1
                  (fun _ _ => eq_refl) Hm Hf Hcm) as H1.
  - destruct (is_failure rc); intros [= <- <-]; exact H1.
  - destruct (is_failure rc); [intros [= <- <-]; exact H1|].
    intros Hloop. eapply progressed_trans; [exact H1|].
    apply (IH (S a) st1); [lia | lia | exact Hloop].
Qed.

(** Every call of [stress_dfp_call_method] runs an arithmetic loop. *)
Lemma call_method_progressed m func verify st rc st' :
  stress_dfp_funcs !! m = Some func ->
  stress_dfp_call_method E m verify st = Some (rc, st') ->
  progressed E st st'.
Proof.
  intros Hm. destruct (decide (m = 0%nat)) as [->|Hm0].
  - unfold stress_dfp_call_method, stress_dfp_call_method_with.
    cbn [lookup list_lookup stress_dfp_funcs mbind option_bind dfp_func call_func].
    unfold stress_dfp_all.
    destruct (all_loop _ _ _) as [[dt st1]|] eqn:Hloop; [|discriminate].
    cbn [mbind option_bind]. intros [= <- <-].
    apply (all_loop_progressed (opt_flags_verify E) 8 1) in Hloop; [exact Hloop | lia | cbn; lia].
  - destruct (registry_leaf m func Hm Hm0) as (fld & op & Hf).
    apply (leaf_method_progressed (call_func E) m func fld op verify st rc st');
      [reflexivity | exact Hm | exact Hf].
Qed.

(** The main loop ends once the stop request has landed: if it lands
    in arithmetic loop [n0], at most [n0 + 1] more iterations run. *)
Lemma main_loop_returns fuel m func verify st n0 :
  stress_dfp_funcs !! m = Some func ->
  (loops_run st <= n0 < loops_run st + fuel)%nat -> sigalrm E n0 = true ->
  exists r, main_loop fuel E m verify st = Some r.
Proof.
  intros Hm. revert st. induction fuel as [|fuel IH]; intros st Hn0 Halarm; [lia|].
  cbn [main_loop].
  destruct (call_method_quiet E m func verify st Hm) as (rc & st1 & evs & Hcm & _).
  rewrite Hcm. cbn [mbind option_bind].
  destruct (is_failure rc); [eauto|].
  destruct (stress_continue E st1) eqn:Hcont; [|eauto].
  destruct (call_method_progressed m func verify st rc st1 Hm Hcm) as (Hlt & Hq).
  unfold stress_continue in Hcont. apply andb_true_iff in Hcont as [Hup _].
  destruct (Hq Hup) as (_ & Hquiet).
  apply IH; [|exact Halarm].
  destruct (Nat.lt_ge_cases n0 (loops_run st1)) as [Hin|Hout]; [|lia].
  rewrite Hquiet in Halarm by lia. discriminate.
Qed.

(** X16.  A run of stress-dfp returns once the stop request has
    landed: if it lands in the arithmetic loop [n0], the main loop is
    over after at most [n0 + 1] iterations and the run ends with its
    report and the release of the mapping. *)
Lemma stress_dfp_returns n0 func :
  stress_dfp_funcs !! default 0%nat (setting_fp_method E) = Some func ->
  sigalrm E n0 = true ->
  exists r, stress_dfp E (S n0) = Some r.
Proof.
  intros Hm Halarm. unfold stress_dfp. destruct (mmap_ok E); cbn [negb]; [|eauto].
  destruct (main_loop_returns (S n0) _ func (opt_flags_verify E)
              (initial_state E [EvMmap true; EvProcState STRESS_STATE_SYNC_WAIT;
                                EvProcState STRESS_STATE_RUN]) n0 Hm)
    as ([rc st] & Hloop); [cbn; lia | exact Halarm |].
  rewrite Hloop. cbn [mbind option_bind]. eauto.
Qed.

End DfpTermination.

(** * Facts about stress-ipsec-mb.c and stress-prime.c *)
Section IpsecFacts.
Import IpsecMb.
Variable E : env_t.

Lemma method_calls_app evs1 evs2 :
  method_calls (evs1 ++ evs2) = method_calls evs1 ++ method_calls evs2.
Proof. unfold method_calls. apply omap_app. Qed.

(** A method function touches neither the feature table nor the clock,
    and calls nothing through the method table. *)
Lemma ipsec_leaf_facts m jobs st :
  let st' := stress_ipsec_leaf E m jobs st in
  fstate st' = fstate st /\ clock_reads st' = clock_reads st /\
  mb_mgr st' = mb_mgr st /\ allocs st' = S (allocs st) /\
  exists evs, trace st' = trace st ++ evs /\ method_calls evs = [] /\
              Forall (fun e => forall j s v k, e <> EvMetric j s v k) evs.
Proof.
  unfold stress_ipsec_leaf. cbv zeta.
  destruct (alloc_aligned_ok E (allocs st)); cbn.
  - repeat split. eexists [_; _; _]. rewrite <- app_assoc. cbn.
    repeat split. repeat constructor; discriminate.
  - repeat split. eexists [_]. repeat split. repeat constructor; discriminate.
Qed.

Lemma add_stats_supported dt dops (fs : list feature_state) (i j : nat) :
  supported (alter (add_stats dt dops) i fs !!! j) = supported (fs !!! j).
Proof.
  rewrite !list_lookup_total_alt, list_lookup_alter.
  destruct (decide (i = j)) as [->|Hne]; [|reflexivity].
  destruct (fs !! j); reflexivity.
Qed.

(** One round of the loop of [stress_ipsec_call_func], for a method
    of the table that is not "all". *)
Lemma call_func_step_leaf (run : run_t) l jobs mi i st :
  (forall j s, run (stress_ipsec_leaf_fn l) j s = Some (stress_ipsec_leaf E l j s)) ->
  (i < NUM_MB_FEATURES)%nat ->
  exists st' evs,
    call_func_step E run (stress_ipsec_leaf_fn l) jobs mi i st = Some st' /\
    trace st' = trace st ++ evs /\
    method_calls evs = (if supported (fstate st !!! i) then [(mi, i)] else []) /\
    (forall j, supported (fstate st' !!! j) = supported (fstate st !!! j)).
Proof.
  intros Hrun Hi. unfold call_func_step.
  destruct (supported (fstate st !!! i)).
  2:{ exists st, []. rewrite app_nil_r. auto. }
  cbn [read_clock].
  destruct (lookup_lt_is_Some_2 (mb_features (bits E)) i) as [ft Hft]; [exact Hi|].
  rewrite Hft. cbn [mbind option_bind]. rewrite Hrun. cbn [mbind option_bind].
  match goal with |- context [stress_ipsec_leaf E l jobs ?s] =>
    destruct (ipsec_leaf_facts l jobs s) as (Hfs & Hclk & Hmgr & Hal & evs & Htr & Hmc & _);
    set (st3 := stress_ipsec_leaf E l jobs s) in *
  end.
  eexists _, ([EvInit i; EvFunc mi i] ++ evs). split; [reflexivity|].
  cbn [set_fstate trace fstate]. split.
  - rewrite Htr. cbn. rewrite <- !app_assoc. reflexivity.
  - split; [rewrite method_calls_app, Hmc; reflexivity|].
    intros j. rewrite add_stats_supported, Hfs. reflexivity.
Qed.

Lemma filter_supported_ext (st st' : state) l :
  (forall j, supported (fstate st' !!! j) = supported (fstate st !!! j)) ->
  List.filter (fun i => supported (fstate st' !!! i)) l =
  List.filter (fun i => supported (fstate st !!! i)) l.
Proof. intros H. apply filter_ext. exact H. Qed.

Lemma call_func_loop_leaf (run : run_t) l jobs mi len a st :
  (forall j s, run (stress_ipsec_leaf_fn l) j s = Some (stress_ipsec_leaf E l j s)) ->
  (a + len <= NUM_MB_FEATURES)%nat ->
  exists st' evs,
    call_func_loop (call_func_step E run (stress_ipsec_leaf_fn l) jobs mi) (seq a len) st
    = Some st' /\
    trace st' = trace st ++ evs /\
    method_calls evs
    = map (pair mi) (List.filter (fun i => supported (fstate st !!! i)) (seq a len)) /\
    (forall j, supported (fstate st' !!! j) = supported (fstate st !!! j)).
Proof.
  intros Hrun. revert a st. induction len as [|len IH]; intros a st Hlen.
  - exists st, []. cbn. rewrite app_nil_r. auto.
  - destruct (call_func_step_leaf run l jobs mi a st Hrun) as (st1 & evs1 & Hstep & Htr1 & Hmc1 & Hsup1);
      [lia|].
    destruct (IH (S a) st1) as (st' & evs & Hloop & Htr & Hmc & Hsup); [lia|].
    exists st', (evs1 ++ evs). cbn [seq call_func_loop]. rewrite Hstep. cbn [mbind option_bind].
    split; [exact Hloop|]. split; [rewrite Htr, Htr1, <- app_assoc; reflexivity|].
    split.
    + rewrite method_calls_app, Hmc1, Hmc, (filter_supported_ext st st1) by exact Hsup1.
      cbn [List.filter]. destruct (supported (fstate st !!! a)); reflexivity.
    + intros j. rewrite Hsup, Hsup1. reflexivity.
Qed.

(** [stress_ipsec_call_func] for a method other than "all": the
    method function is called once for each supported feature, in
    table order. *)
Lemma call_func_leaf_spec (run : run_t) jobs mi st :
  (forall l j s, run (stress_ipsec_leaf_fn l) j s = Some (stress_ipsec_leaf E l j s)) ->
  (1 <= mi < NUM_IPSEC_FUNCS)%nat ->
  exists st' evs,
    stress_ipsec_call_func_with E run jobs mi st = Some st' /\
    trace st' = trace st ++ evs /\
    method_calls evs = map (pair mi) (supported_features st) /\
    (forall j, supported (fstate st' !!! j) = supported (fstate st !!! j)).
Proof.
  intros Hrun Hmi. unfold stress_ipsec_call_func_with.
  destruct (lookup_lt_is_Some_2 stress_ipsec_funcs mi) as [entry Hentry]; [apply Hmi|].
  rewrite Hentry. cbn [mbind option_bind].
  assert (exists l, func entry = stress_ipsec_leaf_fn l) as [l Hl].
  { do 8 (destruct mi as [|mi]; [first [lia | injection Hentry as <-; cbn; eauto] |]).
    discriminate. }
  rewrite Hl. apply call_func_loop_leaf; [intros; apply Hrun | cbn; lia].
Qed.

Lemma supported_features_ext (st st' : state) :
  (forall j, supported (fstate st' !!! j) = supported (fstate st !!! j)) ->
  supported_features st' = supported_features st.
Proof. intros H. unfold supported_features. apply filter_ext. exact H. Qed.

(** The loop of [stress_ipsec_all] over the methods [a .. a+len-1]:
    [k] methods are run in turn, each entered with the stop condition
    false, and fewer than [len] only because the stop condition holds
    in the state that the last of them left. *)
Lemma ipsec_all_loop_calls jobs len a st :
  (1 <= a)%nat -> (a + len <= NUM_IPSEC_FUNCS)%nat ->
  let call := stress_ipsec_call_func_with E (run_inner E) jobs in
  exists st' k evs,
    all_loop E call (seq a len) st = Some st' /\
    (k <= len)%nat /\
    calls_in_turn E call (seq a k) st st' /\
    ((k < len)%nat -> keep_stressing E st' = false) /\
    trace st' = trace st ++ evs /\
    method_calls evs
    = flat_map (fun m => map (pair m) (supported_features st)) (seq a k).
Proof.
  cbv zeta. revert a st. induction len as [|len IH]; intros a st Ha Hlen.
  - exists st, 0%nat, []. cbn. rewrite app_nil_r. repeat split; auto. lia.
  - cbn [seq all_loop]. destruct (keep_stressing E st) eqn:Hkeep.
    2:{ exists st, 0%nat, []. cbn. rewrite app_nil_r. repeat split; auto. lia. }
    destruct (call_func_leaf_spec (run_inner E) jobs a st) as (st1 & evs1 & Hcall & Htr1 & Hmc1 & Hsup1);
      [reflexivity | lia |].
    rewrite Hcall. cbn [mbind option_bind].
    destruct (IH (S a) st1) as (st' & k & evs & Hloop & Hk & Hch & Hstop & Htr & Hmc);
      [lia | lia |].
    exists st', (S k), (evs1 ++ evs).
    split; [exact Hloop|]. split; [lia|].
    split; [cbn [seq calls_in_turn]; split; [exact Hkeep|]; exists st1; auto|].
    split; [intros H; apply Hstop; lia|].
    split; [rewrite Htr, Htr1, <- app_assoc; reflexivity|].
    rewrite method_calls_app, Hmc1, Hmc, (supported_features_ext st st1) by exact Hsup1.
    reflexivity.
Qed.

(** The report loop of [stress_ipsec_mb]: a metric for each feature
    with a positive duration, its rate ops / duration, and nothing else. *)
Lemma ipsec_report_spec fts fs j0 msg v :
  (exists j, In (EvMetric j msg v None) (report fts fs j0)) <->
  exists i ft f,
    fts !! i = Some ft /\ fs !! i = Some f /\
    PrimFloat.ltb 0%float (duration (stats f)) = true /\
    msg = (name ft ++ " bogo ops per sec")%string /\
    v = PrimFloat.div (ops (stats f)) (duration (stats f)).
Proof.
  revert fs j0. induction fts as [|ft fts IH]; intros fs j0.
  - cbn. split; [intros (j & []) | intros (i & ft & f & H & _); discriminate].
  - destruct fs as [|f fs].
    { cbn. split; [intros (j & []) | intros (i & ft' & f & _ & H & _); discriminate]. }
    cbn [report].
    destruct (PrimFloat.ltb 0%float (duration (stats f))) eqn:Hd.
    + split.
      * intros (j & [He|Hin]).
        -- injection He as _ <- <-. exists 0%nat, ft, f. auto.
        -- destruct (proj1 (IH fs (S j0))) as (i & ft' & f' & H); [eauto|].
           exists (S i), ft', f'. exact H.
      * intros (i & ft' & f' & Hft & Hf & Hpos & -> & ->).
        destruct i as [|i].
        -- injection Hft as <-. injection Hf as <-. exists j0. left. reflexivity.
        -- destruct (proj2 (IH fs (S j0))) as (j & Hin); [exists i, ft', f'; auto|].
           exists j. right. exact Hin.
    + split.
      * intros Hin. destruct (proj1 (IH fs j0) Hin) as (i & ft' & f' & H).
        exists (S i), ft', f'. exact H.
      * intros (i & ft' & f' & Hft & Hf & Hpos & -> & ->).
        destruct i as [|i].
        -- injection Hf as <-. congruence.
        -- apply (IH fs j0). exists i, ft', f'. auto.
Qed.

Lemma ipsec_report_only_metrics fts fs j0 e :
  In e (report fts fs j0) -> exists j msg v, e = EvMetric j msg v None.
Proof.
  revert fs j0. induction fts as [|ft fts IH]; intros fs j0; [intros []|].
  destruct fs as [|f fs]; [intros []|]. cbn [report].
  destruct (PrimFloat.ltb 0%float (duration (stats f))).
  - intros [<-|Hin]; [eauto | eapply IH; eauto].
  - apply IH.
Qed.

End IpsecFacts.

Section PrimeFacts.
Import Prime.

(** From [finish] on: cleanup unless the loop was left by siglongjmp,
    then the summary line, one metric and the DEINIT state. *)
Lemma finish_spec st :
  finish st = (EXIT_SUCCESS, (finish st).2) /\
  trace (finish st).2 =
    trace st ++ (if jumped st then [] else [EvMpzClears])
      ++ [EvPrInf (bogo st) (digits st);
          EvMetric 0 "primes per second" (rate_of (bogo st) (duration st))
            STRESS_HARMONIC_MEAN;
          EvProcState STRESS_STATE_DEINIT] /\
  jumped (finish st).2 = jumped st /\ duration (finish st).2 = duration st /\
  count (finish st).2 = count st /\ continue_flag (finish st).2 = continue_flag st /\
  bogo (finish st).2 = bogo st /\ digits (finish st).2 = digits st.
Proof.
  unfold finish. destruct (jumped st) eqn:Hj; cbn; rewrite ?Hj, <- ?app_assoc; cbn; auto 10.
Qed.

Lemma wrap_int_small x : - 2 ^ 31 <= x < 2 ^ 31 -> wrap_int x = x.
Proof. intros H. unfold wrap_int. rewrite Z.mod_small; lia. Qed.

(** The first delivery: the handler returns. *)
Lemma handler_first st :
  count st = 0 ->
  stress_prime_alarm_handler st = (signalled 1 st, handler_returns).
Proof. intros H. unfold stress_prime_alarm_handler. rewrite H. reflexivity. Qed.

(** Any later delivery: the handler leaves through siglongjmp. *)
Lemma handler_again st :
  1 <= count st < INT_MAX ->
  stress_prime_alarm_handler st = (signalled (count st + 1) st, handler_siglongjmp 1).
Proof.
  intros H. unfold stress_prime_alarm_handler, INT_MAX in *.
  rewrite wrap_int_small by lia.
  destruct (Z.ltb_spec 1 (count st + 1)); [reflexivity | lia].
Qed.

Lemma deliver_spec k st :
  count st = 0 ->
  deliver k st =
  match k with
  | O => inl st
  | S O => inl (signalled 1 st)
  | S (S _) => inr (signalled 2 (signalled 1 st))
  end.
Proof.
  intros H. destruct k as [|[|k]]; [reflexivity| |].
  - cbn [deliver]. rewrite handler_first by exact H. reflexivity.
  - cbn [deliver]. rewrite handler_first by exact H.
    rewrite handler_again by (cbn; unfold INT_MAX; lia). reflexivity.
Qed.

Lemma deliver_tripped k st :
  count st = 1 ->
  deliver k st =
  match k with
  | O => inl st
  | S _ => inr (signalled 2 st)
  end.
Proof.
  intros H. destruct k as [|k]; [reflexivity|].
  cbn [deliver]. rewrite handler_again by (unfold INT_MAX; lia). rewrite H. reflexivity.
Qed.

Lemma loop_body_commutes E pm : Forall commutes (loop_body E pm).
Proof.
  repeat constructor; try (intros; reflexivity);
    intros; unfold stmt_advance;
    repeat match goal with |- context [if ?b then _ else _] => destruct b end;
    reflexivity.
Qed.

Lemma run_stmts_signalled stmts c st :
  Forall commutes stmts -> run_stmts stmts (signalled c st) = signalled c (run_stmts stmts st).
Proof.
  unfold run_stmts. intros H. revert st. induction H as [|s stmts [Hs _] _ IH]; intros st;
    [reflexivity|].
  cbn. rewrite Hs. apply IH.
Qed.

Lemma run_stmts_frame stmts st :
  Forall commutes stmts ->
  count (run_stmts stmts st) = count st /\ trace (run_stmts stmts st) = trace st /\
  jumped (run_stmts stmts st) = jumped st.
Proof.
  unfold run_stmts. intros H. revert st. induction H as [|s stmts [_ Hs] _ IH]; intros st;
    [auto|].
  cbn. destruct (IH (s st)) as (-> & -> & ->). apply Hs.
Qed.

Lemma run_stmts_cons s stmts st : run_stmts (s :: stmts) st = run_stmts stmts (s st).
Proof. reflexivity. Qed.

(** An iteration entered after the first delivery: any delivery now
    leaves it through siglongjmp. *)
Lemma run_body_tripped E n stmts p st :
  Forall commutes stmts -> count st = 1 ->
  match alarms_from E n p (S (length stmts)) with
  | O => run_body E n p stmts st = inl (run_stmts stmts st)
  | S _ =>
      exists done,
        done `prefix_of` stmts /\
        run_body E n p stmts st = inr (signalled 2 (run_stmts done st))
  end.
Proof.
  intros Hc. revert p st. induction Hc as [|s stmts Hs Hc IH]; intros p st Hone.
  - cbn [length alarms_from run_body]. rewrite Nat.add_0_r, deliver_tripped by exact Hone.
    destruct (alarms E n p); [reflexivity|]. exists []. split; reflexivity.
  - change (alarms_from E n p (S (length (s :: stmts))))
      with (alarms E n p + alarms_from E n (S p) (S (length stmts)))%nat.
    cbn [run_body]. rewrite deliver_tripped by exact Hone.
    destruct (alarms E n p) as [|k]; cbn [Nat.add].
    + specialize (IH (S p) (s st)). rewrite run_stmts_cons.
      destruct (alarms_from E n (S p) (S (length stmts))).
      * apply IH. rewrite (proj1 (proj2 Hs st)). exact Hone.
      * destruct IH as (done & Hpre & Hrun); [rewrite (proj1 (proj2 Hs st)); exact Hone|].
        exists (s :: done). split; [apply prefix_cons; exact Hpre | exact Hrun].
    + exists []. split; [apply prefix_nil | reflexivity].
Qed.

(** One iteration hit by no delivery, by one, or by more: it runs to
    its end in the first two cases, and is left by siglongjmp in the
    last, with a prefix of its statements done. *)
Lemma run_body_spec E n stmts p st :
  Forall commutes stmts -> count st = 0 ->
  match alarms_from E n p (S (length stmts)) with
  | O => run_body E n p stmts st = inl (run_stmts stmts st)
  | S O => run_body E n p stmts st = inl (signalled 1 (run_stmts stmts st))
  | S (S _) =>
      exists done,
        done `prefix_of` stmts /\
        run_body E n p stmts st = inr (signalled 2 (signalled 1 (run_stmts done st)))
  end.
Proof.
  intros Hc. revert p st. induction Hc as [|s stmts Hs Hc IH]; intros p st Hcount.
  - cbn [length alarms_from run_body]. rewrite Nat.add_0_r, deliver_spec by exact Hcount.
    destruct (alarms E n p) as [|[|k]]; [reflexivity | reflexivity |].
    exists []. split; reflexivity.
  - change (alarms_from E n p (S (length (s :: stmts))))
      with (alarms E n p + alarms_from E n (S p) (S (length stmts)))%nat.
    cbn [run_body]. rewrite deliver_spec by exact Hcount.
    destruct (alarms E n p) as [|[|k]]; cbn [Nat.add].
    + specialize (IH (S p) (s st)). rewrite run_stmts_cons.
      assert (Hcs : count (s st) = 0) by (rewrite (proj1 (proj2 Hs st)); exact Hcount).
      destruct (alarms_from E n (S p) (S (length stmts))) as [|[|k]]; [auto | auto |].
      destruct (IH Hcs) as (done & Hpre & Hrun).
      exists (s :: done). split; [apply prefix_cons; exact Hpre | exact Hrun].
    + pose proof (run_body_tripped E n stmts (S p) (s (signalled 1 st)) Hc) as Htr.
      rewrite (proj1 Hs) in Htr |- *.
      destruct (alarms_from E n (S p) (S (length stmts))).
      * rewrite Htr by reflexivity. rewrite run_stmts_cons, run_stmts_signalled by exact Hc.
        reflexivity.
      * destruct Htr as (done & Hpre & Hrun); [reflexivity|].
        exists (s :: done). split; [apply prefix_cons; exact Hpre|].
        rewrite Hrun, run_stmts_cons, run_stmts_signalled; [reflexivity|].
        rewrite Forall_forall in Hc |- *. intros x Hx. apply Hc.
        destruct Hpre as [k' ->]. apply elem_of_app. left. exact Hx.
    + exists []. split; [apply prefix_nil | reflexivity].
Qed.




Lemma loop_body_bogo E pm st :
  bogo (run_stmts (loop_body E pm) st) = (bogo st + 1) mod UINT64_MOD.
Proof.
  unfold run_stmts, loop_body. cbn [foldl stmt_digits stmt_bogo_inc bogo].
  unfold stmt_advance.
  repeat match goal with |- context [if ?b then _ else _] => destruct b end; reflexivity.
Qed.

End PrimeFacts.

Section IpsecPass.
Import IpsecMb.
Variable E : env_t.

Lemma main_step_unfold jobs mi i st :
  main_step E jobs mi i st =
  if supported (fstate st !!! i) then
    ft ← mb_features (bits E) !! i;
    stress_ipsec_call_func E jobs mi (set_mgr (init_func ft) (log (EvInit i) st))
  else Some st.
Proof. reflexivity. Qed.

(** One pass of the main loop with a method other than "all": for
    each supported feature the method is called once for every
    supported feature. *)
Lemma main_pass_loop_calls jobs mi len a st :
  (1 <= mi < NUM_IPSEC_FUNCS)%nat -> (a + len <= NUM_MB_FEATURES)%nat ->
  exists st' evs,
    call_func_loop (main_step E jobs mi) (seq a len) st = Some st' /\
    trace st' = trace st ++ evs /\
    method_calls evs
    = flat_map (fun _ => map (pair mi) (supported_features st))
        (List.filter (fun i => supported (fstate st !!! i)) (seq a len)) /\
    (forall j, supported (fstate st' !!! j) = supported (fstate st !!! j)).
Proof.
  intros Hmi. revert a st. induction len as [|len IH]; intros a st Hlen.
  - exists st, []. cbn. rewrite app_nil_r. auto.
  - cbn [seq call_func_loop List.filter]. rewrite main_step_unfold.
    destruct (supported (fstate st !!! a)) eqn:Hsup.
    + destruct (lookup_lt_is_Some_2 (mb_features (bits E)) a) as [ft Hft]; [cbn; unfold NUM_MB_FEATURES in Hlen; lia|].
      rewrite Hft. cbn [mbind option_bind].
      destruct (call_func_leaf_spec E (run_func E) jobs mi
                  (set_mgr (init_func ft) (log (EvInit a) st)))
        as (st1 & evs1 & Hcall & Htr1 & Hmc1 & Hsup1); [reflexivity | exact Hmi |].
      unfold stress_ipsec_call_func. rewrite Hcall. cbn [mbind option_bind].
      destruct (IH (S a) st1) as (st' & evs & Hloop & Htr & Hmc & Hsup'); [lia|].
      exists st', ([EvInit a] ++ evs1 ++ evs). split; [exact Hloop|].
      split; [rewrite Htr, Htr1; cbn; rewrite <- !app_assoc; reflexivity|].
      split.
      * rewrite !method_calls_app, Hmc1, Hmc. cbn [flat_map method_calls omap app].
        rewrite (supported_features_ext st st1) by exact Hsup1.
        rewrite (filter_supported_ext st st1) by exact Hsup1. reflexivity.
      * intros j. rewrite Hsup', Hsup1. reflexivity.
    + cbn [mbind option_bind].
      destruct (IH (S a) st) as (st' & evs & Hloop & Htr & Hmc & Hsup'); [lia|].
      exists st', evs. auto.
Qed.

Lemma main_pass_calls jobs mi st :
  (1 <= mi < NUM_IPSEC_FUNCS)%nat ->
  exists st' evs,
    main_pass E jobs mi st = Some st' /\
    trace st' = trace st ++ evs /\
    method_calls evs
    = flat_map (fun _ => map (pair mi) (supported_features st)) (supported_features st).
Proof.
  intros Hmi.
  destruct (main_pass_loop_calls jobs mi NUM_MB_FEATURES 0 st Hmi) as (st' & evs & H1 & H2 & H3 & _);
    [lia|].
  exists st', evs. auto.
Qed.

End IpsecPass.

Section PrimeTermination.
Import Prime.
Variable E : env_t.

(** The loop ends in the iteration that is hit by the first delivery. *)
Lemma prime_loop_returns pm fuel n st n0 :
  count st = 0 ->
  (n <= n0 < n + fuel)%nat -> (1 <= alarms_in E n0)%nat ->
  exists r, prime_loop fuel E pm n st = Some r.
Proof.
  revert n st. induction fuel as [|fuel IH]; intros n st Hcount Hn0 Halarm; [lia|].
  cbn [prime_loop].
  pose proof (run_body_spec E n (loop_body E pm) 0 st (loop_body_commutes E pm) Hcount) as Hb.
  change (alarms_from E n 0 (S (length (loop_body E pm)))) with (alarms_in E n) in Hb.
  destruct (alarms_in E n) as [|[|k]] eqn:Hn.
  - rewrite Hb. destruct (stress_continue E _); [|eauto].
    apply IH; [|destruct (decide (n0 = n)) as [->|]; lia | exact Halarm].
    destruct (run_stmts_frame (loop_body E pm) st (loop_body_commutes E pm)) as (-> & _).
    exact Hcount.
  - rewrite Hb. change (stress_continue E (signalled 1 _)) with false. eauto.
  - destruct Hb as (done & _ & ->). eauto.
Qed.

(** X17.  A run of stress-prime returns once a SIGALRM has been
    delivered: if the first delivery hits iteration [n0], the loop is
    over after at most [n0 + 1] iterations, left through its condition
    or through siglongjmp. *)
Lemma stress_prime_returns n0 :
  (1 <= alarms_in E n0)%nat -> exists r, stress_prime E (S n0) = Some r.
Proof.
  intros Halarm. unfold stress_prime. destruct (sighandler_ok E); cbn [negb]; [|eauto].
  destruct (prime_loop_returns (default STRESS_PRIME_METHOD_INC (setting_prime_method E))
              (S n0) 0 (armed E) n0) as (r & Hr); [reflexivity | lia | exact Halarm |].
  rewrite Hr. cbn [mbind option_bind]. destruct r; eauto.
Qed.

End PrimeTermination.

Section PrimeClaims.
Import Prime.


End PrimeClaims.

(** * Claims that span the stressors *)
(** C6.  A call of an "all" entry goes through the other entries of
    its table in table order, from index 1 on, each call made from the
    state that the call before it left, and never calls index 0.
    [stress_dfp_all] makes one call of [stress_dfp_call_method] for
    each index as long as none of them fails: when all of them are
    done it returns 0.0; the first call that returns EXIT_FAILURE ends
    the loop, no later entry is called, and -1.0 is returned with the
    state that this call left.  [stress_ipsec_all] makes one call of
    [stress_ipsec_call_func] (which runs the method once for each
    supported feature) for each index, every one of them entered with
    the stop condition false; it ends before the table is used up
    exactly because the stop condition holds in the state that the
    last call left. *)
Theorem all_entries_iterate_registry :
  (forall (E : Dfp.env_t) idx st,
     let call :=
       fun i => Dfp.stress_dfp_call_method_with (Dfp.call_inner E) i
                  (Dfp.opt_flags_verify E) in
     exists dt st' evs rcs sk,
       Dfp.stress_dfp_all E idx st = Some (dt, st') /\
       Dfp.trace st' = Dfp.trace st ++ evs /\
       Forall Dfp.not_all_call evs /\
       (Dfp.opt_flags_verify E = false -> dt = 0%float) /\
       Dfp.calls_in_turn call (seq 1 (length rcs)) st rcs sk /\
       Forall (fun rc => rc <> EXIT_FAILURE) rcs /\
       ((dt = 0%float /\ length rcs = (Dfp.STRESS_NUM_DFP_FUNCS - 1)%nat /\ st' = sk /\
         Dfp.production_calls evs = seq 1 (Dfp.STRESS_NUM_DFP_FUNCS - 1)) \/
        (dt = (-1)%float /\ (length rcs < Dfp.STRESS_NUM_DFP_FUNCS - 1)%nat /\
         call (1 + length rcs)%nat sk = Some (EXIT_FAILURE, st') /\
         Dfp.production_calls evs = seq 1 (S (length rcs))))) /\
  (forall (E : IpsecMb.env_t) jobs st,
     let call := IpsecMb.stress_ipsec_call_func_with E (IpsecMb.run_inner E) jobs in
     exists st' k evs,
       IpsecMb.stress_ipsec_all E jobs st = Some st' /\
       (k <= IpsecMb.NUM_IPSEC_FUNCS - 1)%nat /\
       IpsecMb.calls_in_turn E call (seq 1 k) st st' /\
       ((k < IpsecMb.NUM_IPSEC_FUNCS - 1)%nat -> IpsecMb.keep_stressing E st' = false) /\
       IpsecMb.trace st' = IpsecMb.trace st ++ evs /\
       IpsecMb.method_calls evs
       = flat_map (fun m => map (pair m) (IpsecMb.supported_features st)) (seq 1 k) /\
       (forall f, ~ In (0%nat, f) (IpsecMb.method_calls evs))).
Proof.
  split.
  - intros E idx st. unfold Dfp.stress_dfp_all.
    apply (all_loop_calls E (Dfp.opt_flags_verify E) (Dfp.STRESS_NUM_DFP_FUNCS - 1) 1 st);
      cbn; lia.
  - intros E jobs st. cbv zeta.
    destruct (ipsec_all_loop_calls E jobs (IpsecMb.NUM_IPSEC_FUNCS - 1) 1 st)
      as (st' & k & evs & Hloop & Hk & Hch & Hstop & Htr & Hmc); [lia | cbn; lia |].
    exists st', k, evs. repeat split; auto.
    intros f Hin. rewrite Hmc in Hin. apply in_flat_map in Hin as (m & Hm & Hin).
    apply in_seq in Hm. apply in_map_iff in Hin as (f' & [= Hm0 _] & _). lia.
Qed.

(** C8, as amended.  A failed mapping of the dfp data and a failed
    allocation of the ipsec manager end the run at once with
    EXIT_NO_RESOURCE and with nothing tried again; stress-dfp prints
    its skip message in every worker, stress-ipsec-mb in the worker
    with instance 0 only.  A failed per-call buffer allocation in an
    ipsec method function only ends that call, with no job run and no
    op counted; the run goes on, and every later call asks for its
    buffer anew. *)
Theorem allocation_failures :
  (forall (E : Dfp.env_t) fuel,
     Dfp.mmap_ok E = false ->
     Dfp.stress_dfp E fuel
     = Some (EXIT_NO_RESOURCE, [Dfp.EvMmap false; Dfp.EvPrInfSkip])) /\
  (forall (E : IpsecMb.env_t) fuel,
     IpsecMb.imb_version_ok E = true -> IpsecMb.alloc_mb_mgr_ok E = false ->
     IpsecMb.stress_ipsec_mb E fuel
     = Some (EXIT_NO_RESOURCE,
             IpsecMb.EvAllocMgr false
               :: (if IpsecMb.instance E =? 0 then [IpsecMb.EvPrInfSkip] else []))) /\
  (forall (E : IpsecMb.env_t) m jobs st,
     IpsecMb.alloc_aligned_ok E (IpsecMb.allocs st) = false ->
     IpsecMb.stress_ipsec_leaf E m jobs st
     = IpsecMb.mk_state (IpsecMb.fstate st) (IpsecMb.counter st)
         (IpsecMb.continue_flag st) (IpsecMb.mb_mgr st) (IpsecMb.clock_reads st)
         (S (IpsecMb.allocs st)) (IpsecMb.runs st)
         (IpsecMb.trace st ++ [IpsecMb.EvAllocAligned m false])) /\
  (forall (E : IpsecMb.env_t) m jobs st,
     exists evs,
       IpsecMb.trace (IpsecMb.stress_ipsec_leaf E m jobs st)
       = IpsecMb.trace st
         ++ IpsecMb.EvAllocAligned m (IpsecMb.alloc_aligned_ok E (IpsecMb.allocs st))
         :: evs).
Proof.
  split; [|split; [|split]].
  - intros E fuel H. unfold Dfp.stress_dfp. rewrite H. reflexivity.
  - intros E fuel Hv H. unfold IpsecMb.stress_ipsec_mb. rewrite Hv, H. reflexivity.
  - intros E m jobs st H. unfold IpsecMb.stress_ipsec_leaf. rewrite H. reflexivity.
  - intros E m jobs st. unfold IpsecMb.stress_ipsec_leaf.
    destruct (IpsecMb.alloc_aligned_ok E (IpsecMb.allocs st)); cbn.
    + eexists. rewrite <- app_assoc. reflexivity.
    + eexists. reflexivity.
Qed.

(** C9, as amended.  At shutdown a rate is only ever computed as
    ops / duration under the guard duration > 0.  stress-dfp emits a
    metric exactly for the entries from index 1 on whose duration and
    ops are both positive, with the rate divided by 1000000 and the
    harmonic-mean kind.  stress-ipsec-mb emits a metric exactly for the
    features whose duration is positive, with the rate itself and no
    aggregation kind.  stress-prime always emits its one metric, with
    the harmonic-mean kind: the rate when the duration is positive and
    0.0 otherwise. *)
Theorem shutdown_metrics :
  (forall s e,
     In e (Dfp.report_metrics s) <->
     exists i f si,
       (1 <= i < Dfp.STRESS_NUM_DFP_FUNCS)%nat /\
       Dfp.stress_dfp_funcs !! i = Some f /\ s !! i = Some si /\
       PrimFloat.ltb 0%float (Dfp.duration si) = true /\
       PrimFloat.ltb 0%float (Dfp.ops si) = true /\
       e = Dfp.EvMetric (i - 1) (Dfp.metric_msg (Dfp.description f))
             (PrimFloat.div (PrimFloat.div (Dfp.ops si) (Dfp.duration si)) 1000000%float)
             harmonic_mean) /\
  (forall fts fs e,
     In e (IpsecMb.report fts fs 0) -> exists j msg v, e = IpsecMb.EvMetric j msg v None) /\
  (forall fts fs msg v,
     (exists j, In (IpsecMb.EvMetric j msg v None) (IpsecMb.report fts fs 0)) <->
     exists i ft f,
       fts !! i = Some ft /\ fs !! i = Some f /\
       PrimFloat.ltb 0%float (IpsecMb.duration (IpsecMb.stats f)) = true /\
       msg = (IpsecMb.name ft ++ " bogo ops per sec")%string /\
       v = PrimFloat.div (IpsecMb.ops (IpsecMb.stats f)) (IpsecMb.duration (IpsecMb.stats f))) /\
  (forall st,
     Prime.trace (Prime.finish st).2 =
       Prime.trace st ++ (if Prime.jumped st then [] else [Prime.EvMpzClears])
         ++ [Prime.EvPrInf (Prime.bogo st) (Prime.digits st);
             Prime.EvMetric 0 "primes per second"
               (if PrimFloat.ltb 0%float (Prime.duration st)
                then PrimFloat.div (double_of_uint64 (Prime.bogo st)) (Prime.duration st)
                else 0%float)
               harmonic_mean;
             Prime.EvProcState STRESS_STATE_DEINIT]).
Proof.
  split; [|split; [|split]].
  - exact report_metrics_spec.
  - intros fts fs e. apply ipsec_report_only_metrics.
  - intros fts fs msg v. apply ipsec_report_spec.
  - intros st. apply finish_spec.
Qed.

(** * Further properties of the three files *)
Section DfpData.
Import Dfp.
Variable E : env_t.

(** One in-place update per index of a range. *)
Lemma foldl_alter_seq {A} (g : nat -> A -> A) (a n : nat) (l : list A) (j : nat) :
  foldl (fun d i => alter (g i) i d) l (seq a n) !! j =
  if decide (a <= j < a + n)%nat then g j <$> l !! j else l !! j.
Proof.
  revert a l. induction n as [|n IH]; intros a l.
  - cbn. destruct (decide _); [lia | reflexivity].
  - cbn [seq foldl]. rewrite IH.
    destruct (decide (S a <= j < S a + n)%nat) as [H1|H1].
    + rewrite list_lookup_alter_ne by lia.
      destruct (decide (a <= j < a + S n)%nat); [reflexivity | lia].
    + destruct (decide (j = a)) as [->|Hne].
      * rewrite list_lookup_alter_eq.
        destruct (decide (a <= a < a + S n)%nat); [reflexivity | lia].
      * rewrite list_lookup_alter_ne by lia.
        destruct (decide (a <= j < a + S n)%nat); [lia | reflexivity].
Qed.

Lemma foldl_alter_seq_length {A} (g : nat -> A -> A) (a n : nat) (l : list A) :
  length (foldl (fun d i => alter (g i) i d) l (seq a n)) = length l.
Proof.
  revert a l. induction n as [|n IH]; intros a l; [reflexivity|].
  cbn [seq foldl]. rewrite IH. apply length_alter.
Qed.

Lemma leaf_data fld op idx st i :
  dfp_data (stress_dfp_leaf E fld op idx st).2 !! i =
  if decide (i < DFP_ELEMENTS)%nat
  then leaf_element E (loops_run st) fld op idx (loop_runs op st) i <$> dfp_data st !! i
  else dfp_data st !! i.
Proof.
  unfold stress_dfp_leaf, leaf_element, loop_runs. cbn [snd dfp_data].
  assert (Hreset : reset_elements fld idx (dfp_data st) !! i =
                   if decide (i < DFP_ELEMENTS)%nat
                   then upd_field fld (fun f => set_r idx (r_init f) f) <$> dfp_data st !! i
                   else dfp_data st !! i).
  { unfold reset_elements.
    rewrite (foldl_alter_seq (fun _ => upd_field fld (fun f => set_r idx (r_init f) f))).
    destruct (decide (0 <= i < 0 + DFP_ELEMENTS)%nat), (decide (i < DFP_ELEMENTS)%nat);
      try lia; reflexivity. }
  assert (Hcomp : forall data,
            compute_elements E (loops_run st) fld op idx data !! i =
            if decide (i < DFP_ELEMENTS)%nat
            then upd_field fld
                   (fun f => set_r idx (wrap fld (alu E (loops_run st) fld op i f)) f)
                 <$> data !! i
            else data !! i).
  { intros data. unfold compute_elements.
    rewrite (foldl_alter_seq
               (fun i => upd_field fld
                  (fun f => set_r idx (wrap fld (alu E (loops_run st) fld op i f)) f))).
    destruct (decide (0 <= i < 0 + DFP_ELEMENTS)%nat), (decide (i < DFP_ELEMENTS)%nat);
      try lia; reflexivity. }
  destruct op; cbv iota; try destruct (continue_flag st);
    rewrite ?Hcomp, Hreset; destruct (decide (i < DFP_ELEMENTS)%nat);
    try reflexivity; destruct (dfp_data st !! i); reflexivity.
Qed.

Lemma leaf_data_length fld op idx st :
  length (dfp_data (stress_dfp_leaf E fld op idx st).2) = length (dfp_data st).
Proof.
  unfold stress_dfp_leaf. cbn [snd dfp_data].
  assert (Hr : length (reset_elements fld idx (dfp_data st)) = length (dfp_data st)).
  { unfold reset_elements.
    apply (foldl_alter_seq_length (fun _ => upd_field fld (fun f => set_r idx (r_init f) f))). }
  assert (Hc : forall data, length (compute_elements E (loops_run st) fld op idx data) = length data).
  { intros data. unfold compute_elements.
    apply (foldl_alter_seq_length
             (fun i => upd_field fld
                (fun f => set_r idx (wrap fld (alu E (loops_run st) fld op i f)) f))). }
  destruct op; cbv iota; try destruct (continue_flag st); rewrite ?Hc, Hr; reflexivity.
Qed.

(** The element found at index [i] after the run. *)
Lemma leaf_data_total fld op idx st i :
  dfp_data (stress_dfp_leaf E fld op idx st).2 !!! i =
  if decide (i < DFP_ELEMENTS /\ i < length (dfp_data st))%nat
  then leaf_element E (loops_run st) fld op idx (loop_runs op st) i (dfp_data st !!! i)
  else dfp_data st !!! i.
Proof.
  rewrite !list_lookup_total_alt, leaf_data.
  destruct (decide (i < DFP_ELEMENTS)%nat) as [H8|H8].
  - destruct (dfp_data st !! i) as [e|] eqn:He.
    + apply lookup_lt_Some in He as Hlt.
      destruct (decide _) as [_|Hn]; [reflexivity | lia].
    + apply lookup_ge_None in He.
      destruct (decide _) as [Hy|_]; [lia | reflexivity].
  - destruct (decide _) as [Hy|_]; [lia | reflexivity].
Qed.

Lemma field_of_upd_same fld g e : field_of fld (upd_field fld g e) = g (field_of fld e).
Proof. destruct fld; reflexivity. Qed.

Lemma field_of_upd_other fld fld' g e :
  fld' <> fld -> field_of fld' (upd_field fld g e) = field_of fld' e.
Proof. destruct fld, fld'; intros H; try reflexivity; contradiction. Qed.

Lemma leaf_element_other n fld op idx runs i e fld' :
  fld' <> fld -> field_of fld' (leaf_element E n fld op idx runs i e) = field_of fld' e.
Proof.
  intros H. unfold leaf_element. destruct runs; rewrite !field_of_upd_other by exact H;
    reflexivity.
Qed.

Lemma leaf_element_same n fld op idx runs i e :
  field_of fld (leaf_element E n fld op idx runs i e) =
  let f1 := set_r idx (r_init (field_of fld e)) (field_of fld e) in
  if runs then set_r idx (wrap fld (alu E n fld op i f1)) f1 else f1.
Proof.
  unfold leaf_element. destruct runs; rewrite !field_of_upd_same; reflexivity.
Qed.

Lemma leaf_element_operands n fld op idx runs i e fld' :
  operands (field_of fld' (leaf_element E n fld op idx runs i e)) = operands (field_of fld' e).
Proof.
  destruct (decide (fld' = fld)) as [->|Hne].
  - rewrite leaf_element_same. destruct runs; reflexivity.
  - rewrite leaf_element_other by exact Hne. reflexivity.
Qed.

Lemma leaf_element_slots n fld op idx runs i e fld' :
  length (r (field_of fld' (leaf_element E n fld op idx runs i e))) =
  length (r (field_of fld' e)).
Proof.
  destruct (decide (fld' = fld)) as [->|Hne].
  - rewrite leaf_element_same. destruct runs; cbn; rewrite ?length_insert; reflexivity.
  - rewrite leaf_element_other by exact Hne. reflexivity.
Qed.

Lemma leaf_element_other_slot n fld op idx runs i e j :
  j <> idx ->
  get_r j (field_of fld (leaf_element E n fld op idx runs i e)) = get_r j (field_of fld e).
Proof.
  intros Hj. rewrite leaf_element_same. unfold get_r.
  destruct runs; cbn; rewrite !list_lookup_total_insert_ne by congruence; reflexivity.
Qed.

Lemma leaf_element_slot n fld op idx runs i e :
  (idx < length (r (field_of fld e)))%nat ->
  get_r idx (field_of fld (leaf_element E n fld op idx runs i e)) =
  if runs
  then wrap fld (alu E n fld op i (set_r idx (r_init (field_of fld e)) (field_of fld e)))
  else r_init (field_of fld e).
Proof.
  intros Hidx. rewrite leaf_element_same. unfold get_r.
  destruct runs; cbn; rewrite list_lookup_total_insert_eq; try reflexivity;
    rewrite ?length_insert; exact Hidx.
Qed.


(** X1.  A run of a macro generated function for the sub-structure
    [fld] and the result slot [idx] writes nothing but [r[idx]] of that
    sub-structure: the number of elements, the operands and the number
    of slots of every sub-structure, and every other result slot of
    every element are as before. *)
Theorem leaf_writes_only_its_slot fld op idx st i fld' j :
  let data' := dfp_data (stress_dfp_leaf E fld op idx st).2 in
  length data' = length (dfp_data st) /\
  operands (field_of fld' (data' !!! i)) = operands (field_of fld' (dfp_data st !!! i)) /\
  length (r (field_of fld' (data' !!! i))) = length (r (field_of fld' (dfp_data st !!! i))) /\
  (fld' <> fld \/ j <> idx ->
   get_r j (field_of fld' (data' !!! i)) = get_r j (field_of fld' (dfp_data st !!! i))).
Proof.
  cbv zeta. split; [apply leaf_data_length|].
  rewrite leaf_data_total. destruct (decide _) as [_|_]; [|auto].
  split; [apply leaf_element_operands|]. split; [apply leaf_element_slots|].
  intros H. destruct (decide (fld' = fld)) as [->|Hne].
  - apply leaf_element_other_slot. destruct H; [contradiction | assumption].
  - rewrite leaf_element_other by exact Hne. reflexivity.
Qed.

(** X2.  Entered with the continue flag down, the DIV function runs
    no iteration of its timed loop: it leaves the initialization value
    in [r[idx]] of every element, where ADD and MUL, which do not poll
    the flag, still store what the hardware computed.  All three count
    their bogo op all the same. *)
Theorem stopped_div_only_resets fld op idx st i :
  continue_flag st = false ->
  (i < DFP_ELEMENTS)%nat -> (i < length (dfp_data st))%nat ->
  (idx < length (r (field_of fld (dfp_data st !!! i))))%nat ->
  let f := field_of fld (dfp_data st !!! i) in
  let res := stress_dfp_leaf E fld op idx st in
  get_r idx (field_of fld (dfp_data res.2 !!! i)) =
    match op with
    | op_div => r_init f
    | _ => wrap fld (alu E (loops_run st) fld op i (set_r idx (r_init f) f))
    end /\
  bogo res.2 = (bogo st + 1) mod UINT64_MOD /\
  continue_flag res.2 = false.
Proof.
  intros Hdown Hi Hlen Hidx. cbv zeta. split.
  - rewrite leaf_data_total. destruct (decide _) as [_|Hn]; [|lia].
    rewrite leaf_element_slot by exact Hidx.
    unfold loop_runs. rewrite Hdown. destruct op; reflexivity.
  - unfold stress_dfp_leaf. cbn [snd bogo continue_flag]. rewrite Hdown. auto.
Qed.

End DfpData.

Section DfpSound.
Import Dfp.
Variable E : env_t.
Hypothesis Hdet : deterministic E.
Hypothesis Hmono : monotonic E.

#[local] Opaque stress_dfp_leaf.
#[local] Arguments verify_elements : simpl never.

Lemma leaf_well_formed fld op idx st :
  well_formed (dfp_data st) ->
  well_formed (dfp_data (stress_dfp_leaf E fld op idx st).2).
Proof.
  intros (Hlen & Hslots). split.
  - rewrite leaf_data_length. exact Hlen.
  - intros i fld'. rewrite leaf_data_total.
    destruct (decide _) as [_|_]; [|apply Hslots].
    rewrite leaf_element_slots. apply Hslots.
Qed.

(** The production pass into slot 0 followed by the verification pass
    into slot 1, both with their timed loop run: the two slots of every
    element end up equal. *)
Lemma two_passes_agree fld op sA sB i :
  well_formed (dfp_data sA) ->
  dfp_data sB = dfp_data (stress_dfp_leaf E fld op 0 sA).2 ->
  loop_runs op sA = true -> loop_runs op sB = true ->
  (i < DFP_ELEMENTS)%nat ->
  let e := dfp_data (stress_dfp_leaf E fld op 1 sB).2 !!! i in
  get_r 0 (field_of fld e) = get_r 1 (field_of fld e).
Proof.
  intros (Hlen & Hslots) HB HrA HrB Hi. cbv zeta.
  assert (HlenB : length (dfp_data sB) = DFP_ELEMENTS).
  { rewrite HB, leaf_data_length. exact Hlen. }
  rewrite leaf_data_total. destruct (decide _) as [_|Hn]; [|lia].
  rewrite HrB, HB, leaf_data_total. destruct (decide _) as [_|Hn]; [|lia].
  rewrite HrA. pose proof (Hslots i fld) as Hs2. set (e := dfp_data sA !!! i) in *.
  set (e1 := leaf_element E (loops_run sA) fld op 0 true i e).
  rewrite leaf_element_other_slot by lia.
  rewrite leaf_element_slot by (unfold e1; rewrite leaf_element_slots, Hs2; lia).
  unfold e1 at 1. rewrite leaf_element_slot by (rewrite Hs2; lia).
  f_equal. apply Hdet.
  transitivity (operands (field_of fld e)); [reflexivity|].
  transitivity (operands (field_of fld e1)); [|reflexivity].
  unfold e1. rewrite leaf_element_operands. reflexivity.
Qed.

Lemma decimal32_is_d32 m func fld op :
  stress_dfp_funcs !! m = Some func ->
  dfp_func func = stress_dfp_leaf_fn fld op ->
  dfp_type func = STRESS_DFP_TYPE_DECIMAL32 -> fld = d32.
Proof.
  intros Hm Hf Hty.
  do 10 (destruct m as [|m];
         [injection Hm as <-; cbv in Hf, Hty; first [discriminate | congruence]|]).
  discriminate.
Qed.

(** A call of a concrete method on deterministic hardware and a
    monotonic clock succeeds and reports nothing. *)
Lemma sound_call (call : dispatch_t) m func fld op verify st :
  well_formed (dfp_data st) ->
  (forall idx s, call (stress_dfp_leaf_fn fld op) idx s
                 = Some (stress_dfp_leaf E fld op idx s)) ->
  stress_dfp_funcs !! m = Some func ->
  dfp_func func = stress_dfp_leaf_fn fld op ->
  exists st' evs,
    stress_dfp_call_method_with call m verify st = Some (EXIT_SUCCESS, st') /\
    well_formed (dfp_data st') /\
    trace st' = trace st ++ evs /\
    Forall (fun e => is_pr_fail e = false) evs.
Proof.
  intros Hwf Hcall Hm Hf.
  rewrite (call_method_leaf E call m func fld op verify st Hcall Hm Hf). cbv zeta.
  pose proof (leaf_well_formed fld op 0 (log (EvCall m 0) st) Hwf) as Hwf1.
  pose proof (fun sB => two_passes_agree fld op (log (EvCall m 0) st) sB) as Hagree.
  destruct (stress_dfp_leaf E fld op 0 (log (EvCall m 0) st)) as [dt0 st1] eqn:H0.
  apply leaf_facts in H0 as (_ & _ & Ht1 & Hc1 & _ & Hf1).
  cbn [fst snd log stats trace clock_reads loops_run continue_flag dfp_data] in *.
  destruct (gate m verify).
  2:{ eexists _, [_]. split; [reflexivity|]. split; [exact Hwf1|].
      split; [exact Ht1 | repeat constructor]. }
  set (st2 := set_stats (alter (accumulate dt0) m (stats st1)) st1) in *.
  pose proof (leaf_well_formed fld op 1 (log (EvCall m 1) st2) Hwf1) as Hwf3.
  specialize (Hagree (log (EvCall m 1) st2)).
  destruct (stress_dfp_leaf E fld op 1 (log (EvCall m 1) st2)) as [dt1 st3] eqn:H1.
  apply leaf_facts in H1 as (Hdt1 & _ & Ht3 & _ & _ & Hf3).
  cbn [fst snd log stats trace clock_reads loops_run continue_flag dfp_data] in *.
  assert (Ht : trace st3 = trace st ++ [EvCall m 0; EvCall m 1]).
  { rewrite Ht3. unfold st2. cbn [set_stats trace]. rewrite Ht1, <- app_assoc. reflexivity. }
  rewrite Hdt1, Hmono. rewrite <- Hdt1.
  change (continue_flag (set_stats (alter (accumulate dt1) m (stats st3)) st3))
    with (continue_flag st3).
  destruct (continue_flag st3) eqn:Hup; cbn [negb].
  2:{ eexists _, [_; _]. split; [reflexivity|]. split; [exact Hwf3|].
      split; [exact Ht | repeat constructor]. }
  symmetry in Hf3. apply andb_true_iff in Hf3 as [Hup1 _].
  change (continue_flag st1 = true) in Hup1. pose proof Hup1 as Hup1'.
  rewrite Hf1 in Hup1'. apply andb_true_iff in Hup1' as [Hup0 _].
  set (st4 := set_stats (alter (accumulate dt1) m (stats st3)) st3).
  destruct (Z.eqb_spec (dfp_type func) STRESS_DFP_TYPE_DECIMAL32) as [Hty|Hty].
  2:{ rewrite verify_elements_exempt by exact Hty.
      eexists _, [_; _]. split; [reflexivity|]. split; [exact Hwf3|].
      split; [exact Ht | repeat constructor]. }
  assert (fld = d32) as -> by (eapply decimal32_is_d32; eauto).
  rewrite Hty.
  pose proof (verify_elements_d32 (stress_dfp_type STRESS_DFP_TYPE_DECIMAL32) (name func)
                DFP_ELEMENTS 0 st4) as Hspec.
  cbv zeta in Hspec.
  destruct (verify_elements _ _ _ _ _ _) as [rc st'] eqn:Hv.
  pose proof (verify_elements_frame STRESS_DFP_TYPE_DECIMAL32
                (stress_dfp_type STRESS_DFP_TYPE_DECIMAL32) (name func) DFP_ELEMENTS 0 st4) as Hfr.
  cbv zeta in Hfr. rewrite Hv in Hfr. cbn [fst snd] in Hfr, Hspec.
  destruct Hfr as (_ & Hdata & _).
  destruct Hspec as [(-> & _ & Htr)|(_ & j & Hj & _ & Hne & _)].
  - eexists _, ([_; _] ++ map EvMemcmp (seq 0 DFP_ELEMENTS)).
    split; [reflexivity|]. split; [rewrite Hdata; exact Hwf3|].
    split; [rewrite Htr; unfold st4; cbn [set_stats trace]; rewrite Ht, <- !app_assoc; reflexivity|].
    repeat constructor.
  - exfalso. apply Hne. unfold same_bytes. f_equal.
    apply (Hagree j); [exact Hwf | reflexivity | | | lia].
    + destruct op; [reflexivity | reflexivity | exact Hup0].
    + destruct op; [reflexivity | reflexivity | exact Hup1].
Qed.

End DfpSound.

Section DfpRuns.
Import Dfp.
Variable E : env_t.

#[local] Opaque stress_dfp_leaf.
#[local] Arguments verify_elements : simpl never.

(** The loop of [stress_dfp_all], for calls that keep an invariant [Q]
    of the state and append events that satisfy [P]; when the calls all
    succeed ([strict]), the loop returns 0.0. *)
Lemma all_loop_extends (P : event -> Prop) (Q : state -> Prop) (strict : bool)
    (cm : nat -> state -> option (exit_status * state)) idxs st :
  (forall i s, In i idxs -> Q s ->
     exists rc s' evs,
       cm i s = Some (rc, s') /\ Q s' /\ trace s' = trace s ++ evs /\ Forall P evs /\
       (strict = true -> rc = EXIT_SUCCESS)) ->
  Q st ->
  exists dt st' evs,
    all_loop cm idxs st = Some (dt, st') /\ Q st' /\ trace st' = trace st ++ evs /\
    Forall P evs /\ (strict = true -> dt = 0%float).
Proof.
  revert st. induction idxs as [|i idxs IH]; intros st Hstep HQ.
  - exists 0%float, st, []. cbn. rewrite app_nil_r. auto.
  - destruct (Hstep i st) as (rc & s1 & evs1 & Hcm & HQ1 & Htr1 & HP1 & Hrc); [left; reflexivity | exact HQ |].
    cbn [all_loop]. rewrite Hcm. cbn [mbind option_bind].
    destruct (is_failure rc) eqn:Hfail.
    + exists (-1)%float, s1, evs1. repeat split; auto.
      intros Hs. rewrite (Hrc Hs) in Hfail. discriminate.
    + destruct (IH s1) as (dt & st' & evs & Hloop & HQ' & Htr & HP & Hdt);
        [intros j s Hj; apply Hstep; right; exact Hj | exact HQ1 |].
      exists dt, st', (evs1 ++ evs). split; [exact Hloop|]. split; [exact HQ'|].
      split; [rewrite Htr, Htr1, <- app_assoc; reflexivity|].
      split; [apply Forall_app; auto | exact Hdt].
Qed.

(** The same for the main loop. *)
Lemma main_loop_extends (P : event -> Prop) (Q : state -> Prop) (strict : bool)
    fuel m verify st rc st' :
  (forall s, Q s ->
     exists rc s' evs,
       stress_dfp_call_method E m verify s = Some (rc, s') /\ Q s' /\
       trace s' = trace s ++ evs /\ Forall P evs /\
       (strict = true -> rc = EXIT_SUCCESS)) ->
  Q st ->
  main_loop fuel E m verify st = Some (rc, st') ->
  Q st' /\
  exists evs, trace st' = trace st ++ evs /\ Forall P evs /\
              (strict = true -> rc = EXIT_SUCCESS).
Proof.
  intros Hstep. revert st. induction fuel as [|fuel IH]; intros st HQ; [discriminate|].
  cbn [main_loop].
  destruct (Hstep st HQ) as (rc1 & s1 & evs1 & Hcm & HQ1 & Htr1 & HP1 & Hrc).
  rewrite Hcm. cbn [mbind option_bind].
  destruct (is_failure rc1) eqn:Hfail.
  - intros [= <- <-]. split; [exact HQ1|]. exists evs1. repeat split; auto.
    intros Hs. rewrite (Hrc Hs) in Hfail. discriminate.
  - destruct (stress_continue E s1).
    + intros Hloop. destruct (IH s1 HQ1 Hloop) as (HQ' & evs & Htr & HP & Hok).
      split; [exact HQ'|].
      exists (evs1 ++ evs). rewrite Htr, Htr1, <- app_assoc.
      split; [reflexivity|]. split; [apply Forall_app; auto | exact Hok].
    + intros [= <- <-]. split; [exact HQ1|]. exists evs1. repeat split; auto.
Qed.

(** A call of the "all" entry, given what the calls it makes do. *)
Lemma call_all_extends (P : event -> Prop) (Q : state -> Prop) (strict : bool) verify st :
  P (EvCall 0 0) ->
  (forall s e, Q s -> Q (log e s)) ->
  (forall s g, Q s -> Q (set_stats g s)) ->
  (forall i s, (1 <= i < STRESS_NUM_DFP_FUNCS)%nat -> Q s ->
     exists rc s' evs,
       stress_dfp_call_method_with (call_inner E) i (opt_flags_verify E) s = Some (rc, s') /\
       Q s' /\ trace s' = trace s ++ evs /\ Forall P evs /\
       (strict = true -> rc = EXIT_SUCCESS)) ->
  Q st ->
  exists st' evs,
    stress_dfp_call_method E 0 verify st = Some (EXIT_SUCCESS, st') /\ Q st' /\
    trace st' = trace st ++ evs /\ Forall P evs.
Proof.
  intros HP0 Hlog Hset Hstep HQ.
  destruct (all_loop_extends P Q strict
              (fun i => stress_dfp_call_method_with (call_inner E) i (opt_flags_verify E))
              (seq 1 (STRESS_NUM_DFP_FUNCS - 1)) (log (EvCall 0 0) st))
    as (dt & st1 & evs & Hloop & HQ1 & Htr & HP & _).
  { intros i s Hi. apply Hstep. apply in_seq in Hi. cbn in Hi |- *. lia. }
  { apply Hlog. exact HQ. }
  unfold stress_dfp_call_method, stress_dfp_call_method_with.
  cbn [lookup list_lookup stress_dfp_funcs mbind option_bind dfp_func call_func].
  unfold stress_dfp_all. rewrite Hloop. cbn [mbind option_bind].
  eexists _, (EvCall 0 0 :: evs). split; [reflexivity|].
  split; [apply Hset; exact HQ1|].
  split; [cbn [set_stats trace]; rewrite Htr; cbn; rewrite <- app_assoc; reflexivity|].
  constructor; assumption.
Qed.

Lemma comparison_is_loop_event e : is_comparison e = true -> is_loop_event e = true.
Proof. destruct e; intros H; try discriminate; reflexivity. Qed.

(** Every call through the registry appends calls, comparisons and
    failure reports, and nothing else. *)
Lemma call_method_events m func verify st :
  stress_dfp_funcs !! m = Some func ->
  exists rc st' evs,
    stress_dfp_call_method E m verify st = Some (rc, st') /\ True /\
    trace st' = trace st ++ evs /\ Forall (fun e => is_loop_event e = true) evs /\
    (m = 0%nat -> rc = EXIT_SUCCESS).
Proof.
  intros Hm. destruct (decide (m = 0%nat)) as [->|Hm0].
  - destruct (call_all_extends (fun e => is_loop_event e = true) (fun _ => True) false verify st)
      as (st' & evs & Hcm & _ & Htr & HP); auto.
    { intros i s Hi _.
      destruct (inner_call_spec E i (opt_flags_verify E) s Hi) as (rc & s' & evs & Hcm & Htr & Hall & _).
      exists rc, s', (EvCall i 0 :: evs). split; [exact Hcm|]. split; [exact I|].
      split; [exact Htr|]. split; [|discriminate].
      constructor; [reflexivity|]. eapply Forall_impl; [exact Hall|].
      intros e [->|He]; [reflexivity | apply comparison_is_loop_event; exact He]. }
    exists EXIT_SUCCESS, st', evs. auto.
  - destruct (registry_leaf m func Hm Hm0) as (fld & op & Hf).
    destruct (leaf_method_cases E (call_func E) m func fld op verify st)
      as (rc & st' & Hcm & Hcases); [reflexivity | exact Hm | exact Hf |].
    exists rc, st'. unfold stress_dfp_call_method. rewrite Hcm.
    destruct Hcases as [(_ & _ & _ & Htr)|[(_ & _ & _ & _ & Htr)|
      [(_ & _ & _ & _ & _ & Htr)|(_ & _ & _ & _ & st4 & Htr & _ & Hve)]]].
    1-3: eexists; split; [reflexivity|]; split; [exact I|]; split; [exact Htr|];
         split; [repeat constructor | intros; contradiction].
    destruct (verify_elements_trace (dfp_type func) (stress_dfp_type (dfp_type func))
                (name func) DFP_ELEMENTS 0 st4) as (evs & Htr' & Hall).
    rewrite <- Hve in Htr'. cbn in Htr'.
    exists ([EvCall m 0; EvCall m 1] ++ evs). split; [reflexivity|]. split; [exact I|].
    split; [rewrite Htr', Htr, <- app_assoc; reflexivity|].
    split; [|intros; contradiction].
    apply Forall_app. split; [repeat constructor|].
    eapply Forall_impl; [exact Hall|]. intros e. apply comparison_is_loop_event.
Qed.

End DfpRuns.

Section DfpRunTheorems.
Import Dfp.

#[local] Opaque stress_dfp_leaf.

Lemma init_data_well_formed E : well_formed (init_data E).
Proof.
  split; [reflexivity|]. intros i fld.
  do 8 (destruct i as [|i];
        [cbn; unfold init_element; destruct (d32_seed E _) as [[[[? ?] ?] ?] ?];
         destruct fld; reflexivity|]).
  destruct fld; reflexivity.
Qed.

Lemma main_loop_status fuel E m verify st rc st' :
  main_loop fuel E m verify st = Some (rc, st') -> rc = EXIT_SUCCESS \/ rc = EXIT_FAILURE.
Proof.
  revert st. induction fuel as [|fuel IH]; intros st; [discriminate|].
  cbn [main_loop].
  destruct (stress_dfp_call_method E m verify st) as [[rc1 s1]|]; [|discriminate].
  cbn [mbind option_bind]. destruct (is_failure rc1); [intros [= <- <-]; auto|].
  destruct (stress_continue E s1); [apply IH | intros [= <- <-]; auto].
Qed.

Lemma report_metrics_are_metrics s : Forall (fun e => is_metric e = true) (report_metrics s).
Proof.
  apply Forall_forall. intros e He%list_elem_of_In.
  apply report_metrics_spec in He as (i & f & si & _ & _ & _ & _ & _ & ->). reflexivity.
Qed.

(** X3.  On hardware that computes the same result from the same
    operands, and with a clock that never runs backwards, a run of
    stress-dfp reports no verification failure and does not end with
    EXIT_FAILURE, whichever method is selected and whenever the stop
    request lands. *)
Theorem deterministic_run_reports_no_failure E fuel rc tr :
  deterministic E -> monotonic E ->
  stress_dfp E fuel = Some (rc, tr) ->
  rc <> EXIT_FAILURE /\ Forall (fun e => is_pr_fail e = false) tr.
Proof.
  intros Hdet Hmono. unfold stress_dfp.
  destruct (mmap_ok E); cbn [negb].
  2:{ intros [= <- <-]. split; [discriminate | repeat constructor]. }
  set (m := default 0%nat (setting_fp_method E)).
  destruct (stress_dfp_funcs !! m) as [func|] eqn:Hm.
  2:{ rewrite main_loop_bad_index by exact Hm. discriminate. }
  destruct (main_loop _ _ _ _ _) as [[rc' st]|] eqn:Hloop; [|discriminate].
  cbn [mbind option_bind]. intros [= <- <-].
  destruct (main_loop_extends E (fun e => is_pr_fail e = false)
              (fun s => well_formed (dfp_data s)) true fuel m (opt_flags_verify E)
              (initial_state E [EvMmap true; EvProcState STRESS_STATE_SYNC_WAIT;
                                EvProcState STRESS_STATE_RUN]) rc' st)
    as (_ & evs & Htr & HP & Hok); [| |exact Hloop|].
  - intros s Hwf. destruct (decide (m = 0%nat)) as [Hm0|Hm0].
    + rewrite Hm0.
      destruct (call_all_extends E (fun e => is_pr_fail e = false)
                  (fun s => well_formed (dfp_data s)) true (opt_flags_verify E) s)
        as (s' & evs & Hcm & Hwf' & Htr & HP); auto.
      { intros i s0 Hi Hwf0.
        destruct (lookup_lt_is_Some_2 stress_dfp_funcs i) as [fi Hfi]; [apply Hi|].
        destruct (registry_leaf i fi Hfi) as (fld & op & Hleaf); [lia|].
        destruct (sound_call E Hdet Hmono (call_inner E) i fi fld op (opt_flags_verify E) s0)
          as (s' & evs & Hcm & Hwf' & Htr & HP); auto.
        exists EXIT_SUCCESS, s', evs. auto. }
      exists EXIT_SUCCESS, s', evs. auto.
    + destruct (registry_leaf m func Hm Hm0) as (fld & op & Hleaf).
      destruct (sound_call E Hdet Hmono (call_func E) m func fld op (opt_flags_verify E) s)
        as (s' & evs & Hcm & Hwf' & Htr & HP); auto.
      exists EXIT_SUCCESS, s', evs. auto.
  - apply init_data_well_formed.
  - rewrite (Hok eq_refl). split; [discriminate|].
    rewrite Htr. cbn [initial_state trace]. rewrite !Forall_app.
    split; [split; [repeat constructor | exact HP]|].
    split; [|repeat constructor].
    eapply Forall_impl; [apply report_metrics_are_metrics|].
    intros e He. destruct e; try discriminate; reflexivity.
Qed.

(** X4.  With the method "all", which is the default, a run of
    stress-dfp never ends with EXIT_FAILURE: a call of the "all" entry
    reports success whatever the methods it ran returned. *)
Theorem default_method_never_fails E fuel rc tr :
  default 0%nat (setting_fp_method E) = 0%nat ->
  stress_dfp E fuel = Some (rc, tr) ->
  rc = EXIT_SUCCESS \/ rc = EXIT_NO_RESOURCE.
Proof.
  intros Hm0. unfold stress_dfp. rewrite Hm0.
  destruct (mmap_ok E); cbn [negb]; [|intros [= <- <-]; auto].
  destruct (main_loop _ _ _ _ _) as [[rc' st]|] eqn:Hloop; [|discriminate].
  cbn [mbind option_bind]. intros [= <- <-]. left.
  destruct (main_loop_extends E (fun e => is_loop_event e = true) (fun _ => True) true
              fuel 0%nat (opt_flags_verify E)
              (initial_state E [EvMmap true; EvProcState STRESS_STATE_SYNC_WAIT;
                                EvProcState STRESS_STATE_RUN]) rc' st)
    as (_ & evs & _ & _ & Hok); [|exact I|exact Hloop|exact (Hok eq_refl)].
  intros s _.
  destruct (call_method_events E 0 _ (opt_flags_verify E) s eq_refl)
    as (rc1 & s' & evs & Hcm & _ & Htr & HP & Hrc).
  exists rc1, s', evs. repeat split; auto.
Qed.

(** X5.  The events of a run of stress-dfp come in a fixed order.  A
    failed mapping is reported and ends the run with EXIT_NO_RESOURCE.
    Otherwise the mapping is followed by the announcement of the wait
    and run states, then by the calls, comparisons and failure reports
    of the main loop, then by the metrics, the DEINIT state and, last,
    the release of the mapping: the data is unmapped exactly once, also
    when the run ends with EXIT_FAILURE, and no metric is emitted
    before the main loop is over. *)
Theorem dfp_run_shape E fuel rc tr :
  stress_dfp E fuel = Some (rc, tr) ->
  (mmap_ok E = false /\ rc = EXIT_NO_RESOURCE /\ tr = [EvMmap false; EvPrInfSkip]) \/
  (mmap_ok E = true /\ (rc = EXIT_SUCCESS \/ rc = EXIT_FAILURE) /\
   exists work metrics,
     tr = [EvMmap true; EvProcState STRESS_STATE_SYNC_WAIT; EvProcState STRESS_STATE_RUN]
            ++ work ++ metrics ++ [EvProcState STRESS_STATE_DEINIT; EvMunmap] /\
     Forall (fun e => is_loop_event e = true) work /\
     Forall (fun e => is_metric e = true) metrics).
Proof.
  unfold stress_dfp. destruct (mmap_ok E); cbn [negb]; [|intros [= <- <-]; auto].
  set (m := default 0%nat (setting_fp_method E)).
  destruct (stress_dfp_funcs !! m) as [func|] eqn:Hm.
  2:{ rewrite main_loop_bad_index by exact Hm. discriminate. }
  destruct (main_loop _ _ _ _ _) as [[rc' st]|] eqn:Hloop; [|discriminate].
  cbn [mbind option_bind]. intros [= <- <-]. right. split; [reflexivity|].
  split; [eapply main_loop_status; exact Hloop|].
  destruct (main_loop_extends E (fun e => is_loop_event e = true) (fun _ => True) false
              fuel m (opt_flags_verify E)
              (initial_state E [EvMmap true; EvProcState STRESS_STATE_SYNC_WAIT;
                                EvProcState STRESS_STATE_RUN]) rc' st)
    as (_ & evs & Htr & HP & _); [|exact I|exact Hloop|].
  { intros s _.
    destruct (call_method_events E m func (opt_flags_verify E) s Hm)
      as (rc1 & s' & evs & Hcm & _ & Htr & HP & _).
    exists rc1, s', evs. repeat split; auto. discriminate. }
  exists evs, (report_metrics (stats st)). rewrite Htr. cbn [initial_state trace].
  split; [rewrite <- !app_assoc; reflexivity|].
  split; [exact HP | apply report_metrics_are_metrics].
Qed.

End DfpRunTheorems.

Section DfpOptions.
Import Dfp.

(** X6.  [stress_dfp_method] enumerates the registry for the option
    parser: it returns the name of entry [i] for every index of the
    registry and NULL from its end on, and no two indices share a name,
    so that a method name selects one entry. *)
Theorem method_names_select_one_entry :
  (forall i, stress_dfp_method i = name <$> stress_dfp_funcs !! i) /\
  (forall i, stress_dfp_method i = None <-> (STRESS_NUM_DFP_FUNCS <= i)%nat) /\
  (forall i j s, stress_dfp_method i = Some s -> stress_dfp_method j = Some s -> i = j).
Proof.
  assert (H1 : forall i, stress_dfp_method i = name <$> stress_dfp_funcs !! i).
  { intros i. unfold stress_dfp_method.
    destruct (Nat.ltb_spec i STRESS_NUM_DFP_FUNCS) as [Hlt|Hge]; [reflexivity|].
    rewrite (proj2 (lookup_ge_None stress_dfp_funcs i)); [reflexivity | exact Hge]. }
  split; [exact H1|]. split.
  - intros i. rewrite H1. split.
    + intros H. destruct (stress_dfp_funcs !! i) eqn:Hi; [discriminate|].
      apply lookup_ge_None in Hi. exact Hi.
    + intros H. rewrite (proj2 (lookup_ge_None stress_dfp_funcs i)); [reflexivity | exact H].
  - intros i j s. rewrite !H1.
    do 10 (destruct i as [|i];
           [do 10 (destruct j as [|j];
                   [intros Hi Hj; vm_compute in Hi, Hj; congruence|]);
            intros _ Hj; discriminate Hj|]).
    discriminate.
Qed.

End DfpOptions.

Section IpsecTrace.
Import IpsecMb.
Variable E : env_t.

Lemma held_app h evs1 evs2 :
  held h (evs1 ++ evs2) = h' ← held h evs1; held h' evs2.
Proof.
  revert h. induction evs1 as [|e evs1 IH]; intros h; [reflexivity|].
  destruct e; cbn [app held]; try apply IH; destruct h; try reflexivity; apply IH.
Qed.

Lemma works_on_refl st : works_on st st.
Proof. exists []. rewrite app_nil_r. repeat split. constructor. Qed.

Lemma works_on_trans st1 st2 st3 : works_on st1 st2 -> works_on st2 st3 -> works_on st1 st3.
Proof.
  intros (evs1 & Htr1 & Hw1 & Hh1) (evs2 & Htr2 & Hw2 & Hh2).
  exists (evs1 ++ evs2). split; [rewrite Htr2, Htr1, <- app_assoc; reflexivity|].
  split; [apply Forall_app; auto|]. rewrite held_app, Hh1. exact Hh2.
Qed.

(** A step that appends one event which neither allocates, runs jobs
    nor frees. *)
Lemma works_on_event st st' e :
  trace st' = trace st ++ [e] -> is_work e = true -> held false [e] = Some false ->
  works_on st st'.
Proof. intros Htr Hw Hh. exists [e]. repeat split; auto. Qed.

Lemma works_on_same st st' : trace st' = trace st -> works_on st st'.
Proof. intros Htr. exists []. rewrite app_nil_r. repeat split; auto. Qed.

(** A method function allocates its buffer, and if it got one runs its
    jobs and frees it. *)
Lemma leaf_works_on m jobs st : works_on st (stress_ipsec_leaf E m jobs st).
Proof.
  unfold stress_ipsec_leaf. cbv zeta.
  destruct (alloc_aligned_ok E (allocs st)); cbn [negb].
  - eexists [_; _; _]. cbn [trace]. rewrite <- app_assoc.
    split; [reflexivity|]. split; [repeat constructor | reflexivity].
  - eexists [_]. cbn [trace]. split; [reflexivity|]. split; [repeat constructor | reflexivity].
Qed.

Lemma call_func_step_works_on (run : run_t) fn jobs mi i st st' :
  (forall s s', run fn jobs s = Some s' -> works_on s s') ->
  call_func_step E run fn jobs mi i st = Some st' -> works_on st st'.
Proof.
  intros Hrun. unfold call_func_step.
  destruct (supported (fstate st !!! i)); [|intros [= <-]; apply works_on_refl].
  cbn [read_clock].
  destruct (mb_features (bits E) !! i) as [ft|]; [|discriminate].
  cbn [mbind option_bind].
  match goal with |- context [run fn jobs ?s] =>
    destruct (run fn jobs s) as [st3|] eqn:Hr; [|discriminate];
    assert (H0 : works_on st s)
  end.
  { eexists [_; _]. cbn [log set_mgr trace]. rewrite <- app_assoc.
    split; [reflexivity|]. split; [repeat constructor | reflexivity]. }
  cbn [mbind option_bind]. intros [= <-].
  eapply works_on_trans; [exact H0|]. eapply works_on_trans; [apply Hrun; exact Hr|].
  apply works_on_same. reflexivity.
Qed.

Lemma call_func_loop_works_on (step : nat -> state -> option state) idxs st st' :
  (forall i s s', step i s = Some s' -> works_on s s') ->
  call_func_loop step idxs st = Some st' -> works_on st st'.
Proof.
  intros Hstep. revert st. induction idxs as [|i idxs IH]; intros st.
  - intros [= <-]. apply works_on_refl.
  - cbn [call_func_loop]. destruct (step i st) as [s1|] eqn:Hs; [|discriminate].
    cbn [mbind option_bind]. intros Hloop.
    eapply works_on_trans; [eapply Hstep; exact Hs | apply IH; exact Hloop].
Qed.

Lemma call_func_with_works_on (run : run_t) jobs mi st st' :
  (forall fn s s', run fn jobs s = Some s' -> works_on s s') ->
  stress_ipsec_call_func_with E run jobs mi st = Some st' -> works_on st st'.
Proof.
  intros Hrun. unfold stress_ipsec_call_func_with.
  destruct (stress_ipsec_funcs !! mi) as [entry|]; [|discriminate].
  cbn [mbind option_bind]. apply call_func_loop_works_on.
  intros i s s'. apply call_func_step_works_on. apply Hrun.
Qed.

Lemma run_inner_works_on fn jobs s s' : run_inner E fn jobs s = Some s' -> works_on s s'.
Proof.
  destruct fn as [|m]; [discriminate|]. intros [= <-]. apply leaf_works_on.
Qed.

Lemma all_loop_works_on (call : nat -> state -> option state) idxs st st' :
  (forall i s s', call i s = Some s' -> works_on s s') ->
  all_loop E call idxs st = Some st' -> works_on st st'.
Proof.
  intros Hcall. revert st. induction idxs as [|i idxs IH]; intros st.
  - intros [= <-]. apply works_on_refl.
  - cbn [all_loop]. destruct (keep_stressing E st); [|intros [= <-]; apply works_on_refl].
    destruct (call i st) as [s1|] eqn:Hs; [|discriminate].
    cbn [mbind option_bind]. intros Hloop.
    eapply works_on_trans; [eapply Hcall; exact Hs | apply IH; exact Hloop].
Qed.

Lemma run_func_works_on fn jobs s s' : run_func E fn jobs s = Some s' -> works_on s s'.
Proof.
  destruct fn as [|m]; [|intros [= <-]; apply leaf_works_on].
  cbn [run_func]. unfold stress_ipsec_all. apply all_loop_works_on.
  intros i s0 s0'. apply call_func_with_works_on.
  intros fn s1 s1'. apply run_inner_works_on.
Qed.

Lemma main_pass_works_on jobs mi st st' :
  main_pass E jobs mi st = Some st' -> works_on st st'.
Proof.
  unfold main_pass. apply call_func_loop_works_on.
  intros i s s'. unfold main_step.
  destruct (supported (fstate s !!! i)); [|intros [= <-]; apply works_on_refl].
  destruct (mb_features (bits E) !! i) as [ft|]; [|discriminate].
  cbn [mbind option_bind]. intros Hcall.
  eapply works_on_trans.
  2:{ eapply call_func_with_works_on; [|exact Hcall].
      intros fn s1 s1'. apply run_func_works_on. }
  eexists [_]. cbn [log set_mgr trace]. split; [reflexivity|].
  split; [repeat constructor | reflexivity].
Qed.

Lemma main_loop_works_on fuel jobs mi st st' :
  main_loop fuel E jobs mi st = Some st' -> works_on st st'.
Proof.
  revert st. induction fuel as [|fuel IH]; intros st; [discriminate|].
  cbn [main_loop]. destruct (main_pass E jobs mi st) as [s1|] eqn:Hp; [|discriminate].
  cbn [mbind option_bind]. apply main_pass_works_on in Hp.
  destruct (keep_stressing E s1).
  - intros Hloop. eapply works_on_trans; [exact Hp | apply IH; exact Hloop].
  - intros [= <-]. exact Hp.
Qed.

Lemma report_are_metrics fts fs j0 :
  Forall (fun e => is_metric e = true) (report fts fs j0).
Proof.
  apply Forall_forall. intros e He%list_elem_of_In.
  apply ipsec_report_only_metrics in He as (j & msg & v & ->). reflexivity.
Qed.

(** X7.  The events of a run of stress-ipsec-mb come in a fixed
    order, and what the run acquires it releases.  A run that is
    skipped prints its skip message in the worker with instance 0 and
    nothing in the other workers.  A library that is too old ends the
    run before anything is allocated.  The manager, once allocated, is
    freed as the last event on every path: when no feature or not the
    requested one is supported, and after a full run.  In a full run
    the main loop only initialises the manager, calls methods, and
    allocates, uses and frees per-call buffers: never a second buffer
    while one is held, jobs only with a buffer held, every buffer freed
    before the loop is over; the metrics come after the loop and before
    the DEINIT state. *)
Theorem ipsec_run_shape fuel rc tr :
  stress_ipsec_mb E fuel = Some (rc, tr) ->
  let skip := if instance E =? 0 then [EvPrInfSkip] else [] in
  (imb_version_ok E = false /\ rc = EXIT_NOT_IMPLEMENTED /\ tr = skip) \/
  (imb_version_ok E = true /\ alloc_mb_mgr_ok E = false /\ rc = EXIT_NO_RESOURCE /\
   tr = [EvAllocMgr false] ++ skip) \/
  (imb_version_ok E = true /\ alloc_mb_mgr_ok E = true /\
   rc = EXIT_NOT_IMPLEMENTED /\ tr = [EvAllocMgr true] ++ skip ++ [EvFreeMgr]) \/
  (imb_version_ok E = true /\ alloc_mb_mgr_ok E = true /\ rc = EXIT_SUCCESS /\
   exists work metrics,
     tr = [EvAllocMgr true; EvProcState STRESS_STATE_RUN] ++ work ++ metrics
            ++ [EvProcState STRESS_STATE_DEINIT; EvFreeMgr] /\
     Forall (fun e => is_work e = true) work /\
     held false work = Some false /\
     Forall (fun e => is_metric e = true) metrics).
Proof.
  unfold stress_ipsec_mb, pr_inf_skip. cbv zeta.
  destruct (imb_version_ok E); cbn [negb]; [|intros [= <- <-]; auto].
  destruct (alloc_mb_mgr_ok E); cbn [negb]; [|intros [= <- <-]; auto 10].
  destruct (existsb supported (probe_features E)); cbn [negb];
    [|intros [= <- <-]; auto 10].
  match goal with |- context [match ?p with Some _ => _ | None => _ end = _] =>
    destruct p as [fs'|] end; [|intros [= <- <-]; auto 10].
  destruct (main_loop _ _ _ _ _) as [st|] eqn:Hloop; [|discriminate].
  cbn [mbind option_bind]. intros [= <- <-].
  apply main_loop_works_on in Hloop as (evs & Htr & Hw & Hh).
  right. right. right. split; [reflexivity|]. split; [reflexivity|].
  split; [reflexivity|].
  exists evs, (report (mb_features (bits E)) (fstate st) 0).
  rewrite Htr. cbn [initial_state trace]. rewrite <- !app_assoc.
  split; [reflexivity|]. split; [exact Hw|]. split; [exact Hh|].
  apply report_are_metrics.
Qed.

End IpsecTrace.

Section OptionSetters.

Lemma first_match_Some opt names k i :
  first_match opt names k = Some i ->
  exists j, i = (k + j)%nat /\ names !! j = Some opt.
Proof.
  revert k. induction names as [|nm names IH]; intros k; [discriminate|].
  cbn [first_match]. destruct (String.eqb_spec opt nm) as [->|Hne].
  - intros [= <-]. exists 0%nat. split; [lia | reflexivity].
  - intros H. destruct (IH _ H) as (j & -> & Hj). exists (S j). split; [lia | exact Hj].
Qed.

Lemma first_match_None opt names k :
  first_match opt names k = None <-> ~ In opt names.
Proof.
  revert k. induction names as [|nm names IH]; intros k; [cbn; tauto|].
  cbn [first_match In]. destruct (String.eqb_spec opt nm) as [->|Hne].
  - split; [discriminate | intros H; exfalso; apply H; left; reflexivity].
  - rewrite IH. split; [intros H [Heq|Hin]; [congruence | contradiction] | tauto].
Qed.

Lemma first_match_hit opt names k j :
  NoDup names -> names !! j = Some opt -> first_match opt names k = Some (k + j)%nat.
Proof.
  intros Hnd. revert k j. induction Hnd as [|nm names Hnotin Hnd IH]; intros k j; [discriminate|].
  cbn [first_match]. destruct j as [|j].
  - intros [= ->]. rewrite String.eqb_refl. f_equal. lia.
  - cbn. intros Hj. destruct (String.eqb_spec opt nm) as [->|Hne].
    + exfalso. apply Hnotin. eapply list_elem_of_lookup_2. exact Hj.
    + rewrite (IH (S k) j Hj). f_equal. lia.
Qed.

End OptionSetters.

Section IpsecOptions.
Import IpsecMb.

Lemma feature_names_nodup B : NoDup (map name (mb_features B)).
Proof.
  cbn. repeat (constructor; [rewrite ?list_elem_of_In; cbn; intuition discriminate|]).
  constructor.
Qed.

Lemma method_names_nodup : NoDup (map func_name stress_ipsec_funcs).
Proof.
  cbn. repeat (constructor; [rewrite ?list_elem_of_In; cbn; intuition discriminate|]).
  constructor.
Qed.

(** X8.  [stress_set_ipsec_mb_feature] accepts exactly the names of
    the feature table: for the name of entry [i] it stores the index
    [i] under "ipsec-mb-feature" and prints nothing; whatever it stores
    is an index inside the table, the one of the entry named by the
    option, so that the read [mb_features[ipsec_mb_feature]] of the
    stressor stays in bounds; any other argument stores nothing, lists
    the allowed names on stderr and returns -1. *)
Theorem feature_option_selects_entry B :
  (forall i ft,
     mb_features B !! i = Some ft ->
     stress_set_ipsec_mb_feature B (name ft)
     = mk_outcome (Some ("ipsec-mb-feature"%string, Z.of_nat i)) "" returns_set_setting) /\
  (forall opt key v,
     stored (stress_set_ipsec_mb_feature B opt) = Some (key, v) ->
     key = "ipsec-mb-feature"%string /\
     exists i ft,
       v = Z.of_nat i /\ (i < NUM_MB_FEATURES)%nat /\
       mb_features B !! i = Some ft /\ name ft = opt) /\
  (forall opt,
     (forall ft, In ft (mb_features B) -> name ft <> opt) ->
     stress_set_ipsec_mb_feature B opt
     = mk_outcome None
         ("invalid ipsec-mb-feature '" ++ opt
            ++ "', allowed options are: avx avx2 avx512 noaesni sse" ++ newline)
         (returns (-1))).
Proof.
  split; [|split].
  - intros i ft Hi. unfold stress_set_ipsec_mb_feature. cbv zeta.
    rewrite (first_match_hit (name ft) (map name (mb_features B)) 0 i).
    + reflexivity.
    + apply feature_names_nodup.
    + rewrite list_lookup_fmap, Hi. reflexivity.
  - intros opt key v. unfold stress_set_ipsec_mb_feature. cbv zeta.
    destruct (first_match opt _ 0) as [i|] eqn:Hfm; [|discriminate].
    cbn [stored]. intros [= <- <-]. split; [reflexivity|].
    apply first_match_Some in Hfm as (j & -> & Hj).
    rewrite list_lookup_fmap in Hj.
    destruct (mb_features B !! j) as [ft|] eqn:Hft; [|discriminate].
    injection Hj as Hname. exists j, ft. split; [reflexivity|].
    split; [apply lookup_lt_Some in Hft; exact Hft | auto].
  - intros opt Hnot. unfold stress_set_ipsec_mb_feature. cbv zeta.
    rewrite (proj2 (first_match_None opt (map name (mb_features B)) 0)); [reflexivity|].
    intros Hin. apply in_map_iff in Hin as (ft & Hname & Hin). exact (Hnot ft Hin Hname).
Qed.

(** X9.  [stress_set_ipsec_mb_method] accepts exactly the names of
    the method table: for the name of entry [i] it stores the index [i]
    under "ipsec-mb-method"; whatever it stores is an index inside the
    table; any other argument stores nothing, lists the allowed names
    on stderr and returns -1. *)
Theorem method_option_selects_entry :
  (forall i entry,
     stress_ipsec_funcs !! i = Some entry ->
     stress_set_ipsec_mb_method (func_name entry)
     = mk_outcome (Some ("ipsec-mb-method"%string, Z.of_nat i)) "" returns_set_setting) /\
  (forall opt key v,
     stored (stress_set_ipsec_mb_method opt) = Some (key, v) ->
     key = "ipsec-mb-method"%string /\
     exists i entry,
       v = Z.of_nat i /\ (i < NUM_IPSEC_FUNCS)%nat /\
       stress_ipsec_funcs !! i = Some entry /\ func_name entry = opt) /\
  (forall opt,
     (forall entry, In entry stress_ipsec_funcs -> func_name entry <> opt) ->
     stress_set_ipsec_mb_method opt
     = mk_outcome None
         ("invalid ipsec-mb-method '" ++ opt
            ++ "', allowed options are: all cmac ctr des hmac-md5 hmac-sha1 hmac-sha512 sha"
            ++ newline)
         (returns (-1))).
Proof.
  split; [|split].
  - intros i entry Hi. unfold stress_set_ipsec_mb_method. cbv zeta.
    rewrite (first_match_hit (func_name entry) (map func_name stress_ipsec_funcs) 0 i).
    + reflexivity.
    + apply method_names_nodup.
    + rewrite list_lookup_fmap, Hi. reflexivity.
  - intros opt key v. unfold stress_set_ipsec_mb_method. cbv zeta.
    destruct (first_match opt _ 0) as [i|] eqn:Hfm; [|discriminate].
    cbn [stored]. intros [= <- <-]. split; [reflexivity|].
    apply first_match_Some in Hfm as (j & -> & Hj).
    rewrite list_lookup_fmap in Hj.
    destruct (stress_ipsec_funcs !! j) as [entry|] eqn:Hentry; [|discriminate].
    injection Hj as Hname. exists j, entry. split; [reflexivity|].
    split; [apply lookup_lt_Some in Hentry; exact Hentry | auto].
  - intros opt Hnot. unfold stress_set_ipsec_mb_method. cbv zeta.
    rewrite (proj2 (first_match_None opt (map func_name stress_ipsec_funcs) 0)); [reflexivity|].
    intros Hin. apply in_map_iff in Hin as (entry & Hname & Hin). exact (Hnot entry Hin Hname).
Qed.

End IpsecOptions.

Section IpsecFeatures.
Import IpsecMb.
Variable E : env_t.

(** A CPU that offers every bit of [a | b] offers every bit of [a]
    and of [b], and conversely. *)
Lemma land_lor_covers a b c :
  Z.land (Z.lor a b) c = Z.lor a b <-> Z.land a c = a /\ Z.land b c = b.
Proof.
  split.
  - intros H. split; apply Z.bits_inj'; intros n Hn;
      apply (f_equal (fun z => Z.testbit z n)) in H;
      rewrite ?Z.land_spec, ?Z.lor_spec in *;
      destruct (Z.testbit a n), (Z.testbit b n), (Z.testbit c n); cbn in *; congruence.
  - intros [Ha Hb]. rewrite Z.land_lor_distr_l, Ha, Hb. reflexivity.
Qed.

(** X10.  The start-up loop marks the features consistently: where
    "avx512" is marked as supported so is "avx2", where "avx2" is so is
    "avx", and where "sse" is so is "noaesni", for every CPU feature
    word and whatever bits the library header assigns to the features. *)
Theorem supported_features_are_nested :
  let sup i := supported (probe_features E !!! i) in
  (sup 2%nat = true -> sup 1%nat = true) /\
  (sup 1%nat = true -> sup 0%nat = true) /\
  (sup 4%nat = true -> sup 3%nat = true).
Proof.
  cbv zeta. unfold probe_features. cbn [mb_features map lookup_total list_lookup_total
    supported features].
  rewrite !Z.eqb_eq, !land_lor_covers. intuition.
Qed.

Lemma supported_features_pinned k fs tr :
  length fs = NUM_MB_FEATURES -> (k < NUM_MB_FEATURES)%nat ->
  supported_features (initial_state (pin_feature k fs) tr) = [k].
Proof.
  intros Hlen Hk.
  do 5 (destruct fs as [|? fs]; [discriminate|]). destruct fs; [|discriminate].
  do 5 (destruct k as [|k]; [reflexivity|]). unfold NUM_MB_FEATURES in Hk. lia.
Qed.

(** X11.  With a feature pinned by ipsec-mb-feature the pinning loop
    leaves that feature as the only supported one, and every pass of
    the main loop with a method other than "all" then calls the method
    function exactly once, for the pinned feature, and leaves the
    pinning as it is. *)
Theorem pinned_feature_is_called_once :
  (forall k fs tr,
     length fs = NUM_MB_FEATURES -> (k < NUM_MB_FEATURES)%nat ->
     supported_features (initial_state (pin_feature k fs) tr) = [k]) /\
  (forall jobs mi k st,
     supported_features st = [k] -> (1 <= mi < NUM_IPSEC_FUNCS)%nat ->
     exists st' evs,
       main_pass E jobs mi st = Some st' /\
       trace st' = trace st ++ evs /\
       method_calls evs = [(mi, k)] /\
       supported_features st' = [k]).
Proof.
  split; [apply supported_features_pinned|].
  intros jobs mi k st Hk Hmi.
  destruct (main_pass_loop_calls E jobs mi NUM_MB_FEATURES 0 st Hmi)
    as (st' & evs & Hpass & Htr & Hcalls & Hsup); [lia|].
  exists st', evs. split; [exact Hpass|]. split; [exact Htr|]. split.
  - rewrite Hcalls. change (List.filter _ (seq 0 NUM_MB_FEATURES)) with (supported_features st).
    rewrite Hk. reflexivity.
  - rewrite (supported_features_ext st st') by exact Hsup. exact Hk.
Qed.

End IpsecFeatures.

Section IpsecJobs.
Import IpsecMb.

(** X12.  For every method function, every job count of an [int],
    zero and one included, and every data length from 16 bytes on: the
    size computed by [stress_alloc_aligned] does not wrap; the output
    that the descriptor of each job names is not empty and lies inside
    the allocated buffer; and the outputs of two different jobs do not
    overlap, that of the earlier job ending before that of the later
    one starts. *)
Theorem job_outputs_fit digest512 m data_len jobs :
  0 <= jobs < 2 ^ 31 -> 16 <= data_len < 2 ^ 32 -> 0 < digest512 < 2 ^ 32 ->
  let size := alloc_bytes jobs (alloc_size (layout digest512 m data_len)) in
  size = jobs * alloc_size (layout digest512 m data_len) /\
  (forall j, 0 <= j < jobs ->
     let out := job_output digest512 m data_len j in
     0 <= out.1 /\ out.1 < out.2 /\ out.2 <= size) /\
  (forall j j', 0 <= j < j' -> j' < jobs ->
     (job_output digest512 m data_len j).2 <= (job_output digest512 m data_len j').1).
Proof.
  intros Hjobs Hlen Hd. cbv zeta.
  assert (Hsize : alloc_bytes jobs (alloc_size (layout digest512 m data_len))
                  = jobs * alloc_size (layout digest512 m data_len)).
  { unfold alloc_bytes, SIZE_MOD.
    assert (0 <= alloc_size (layout digest512 m data_len) < 2 ^ 32)
      by (destruct m; cbn; unfold SHA_DIGEST_SIZE, sizeof_padding, HMAC_MD5_DIGEST_SIZE,
            HMAC_SHA1_DIGEST_SIZE; lia).
    rewrite (Z.mod_small jobs), (Z.mod_small (alloc_size _)) by lia.
    apply Z.mod_small. nia. }
  rewrite Hsize. split; [reflexivity|]. split.
  - intros j Hj. unfold job_output. destruct m; cbn;
      unfold SHA_DIGEST_SIZE, sizeof_padding, HMAC_MD5_DIGEST_SIZE, HMAC_SHA1_DIGEST_SIZE;
      repeat split; nia.
  - intros j j' Hj Hj'. unfold job_output. destruct m; cbn;
      unfold SHA_DIGEST_SIZE, sizeof_padding, HMAC_MD5_DIGEST_SIZE, HMAC_SHA1_DIGEST_SIZE;
      nia.
Qed.

Lemma completed_cons s l :
  completed (s :: l) = (match s with STS_COMPLETED => 1 | STS_NOT_COMPLETED => 0 end) + completed l.
Proof. unfold completed. destruct s; cbn [List.filter length]; lia. Qed.

Lemma completed_bounds l : 0 <= completed l <= Z.of_nat (length l).
Proof.
  induction l as [|s l IH]; [unfold completed; cbn; lia|].
  rewrite completed_cons. cbn [length]. destruct s; lia.
Qed.

Lemma completed_all l :
  completed l = Z.of_nat (length l) <-> Forall (fun s => s = STS_COMPLETED) l.
Proof.
  induction l as [|s l IH]; [split; [constructor | reflexivity]|].
  rewrite completed_cons. cbn [length]. pose proof (completed_bounds l). split.
  - intros Hc. destruct s; [|lia]. constructor; [reflexivity|]. apply IH. lia.
  - intros Hall. inversion Hall as [|? ? -> Hl]. apply IH in Hl. lia.
Qed.

Lemma int_of_small x : - 2 ^ 31 <= x < 2 ^ 31 -> int_of x = x.
Proof. intros H. unfold int_of. rewrite Z.mod_small; lia. Qed.

(** The status checks of a list of jobs handed back. *)
Lemma check_status_fold name l t :
  0 <= jobs_done t -> Z.of_nat (length l) + jobs_done t < 2 ^ 31 ->
  0 <= bogo_counter t < UINT64_MOD ->
  let t' := foldl (fun t s => stress_job_check_status name s t) t l in
  jobs_done t' = jobs_done t + completed l /\
  bogo_counter t' = (bogo_counter t + completed l) mod UINT64_MOD /\
  reports t' =
    reports t ++ replicate (length l - Z.to_nat (completed l)) (PrErrNotCompleted name).
Proof.
  revert t. induction l as [|s l IH]; intros t Hpos Hlen Hc; cbv zeta.
  - unfold completed. cbn. rewrite app_nil_r, !Z.add_0_r, Z.mod_small by exact Hc. auto.
  - cbn [foldl]. rewrite completed_cons. pose proof (completed_bounds l) as Hb.
    cbn [length] in Hlen.
    destruct s; cbn [stress_job_check_status].
    + rewrite int_of_small by lia.
      specialize (IH (mk_tally (jobs_done t + 1)
                        ((bogo_counter t + 1) mod UINT64_MOD) (reports t))).
      cbn [jobs_done bogo_counter reports] in IH.
      destruct IH as (H1 & H2 & H3); [lia | lia | apply Z.mod_pos_bound; reflexivity |].
      rewrite H1, H2, H3. split; [lia|]. split.
      * rewrite Zplus_mod_idemp_l. f_equal. lia.
      * do 2 f_equal. cbn [length]. lia.
    + specialize (IH (mk_tally (jobs_done t) (bogo_counter t)
                        (reports t ++ [PrErrNotCompleted name]))).
      cbn [jobs_done bogo_counter reports] in IH.
      destruct IH as (H1 & H2 & H3); [lia | lia | exact Hc |].
      rewrite H1, H2, H3. split; [lia|]. split; [reflexivity|].
      rewrite <- app_assoc. f_equal. cbn [length].
      replace (S (length l) - Z.to_nat (0 + completed l))%nat
        with (S (length l - Z.to_nat (completed l)))%nat by lia.
      reflexivity.
Qed.

Lemma foldl_omap {A B C} (f : B -> option C) (g : A -> C -> A) (a : A) (l : list B) :
  foldl (fun t j => match f j with Some s => g t s | None => t end) a l
  = foldl g a (omap f l).
Proof.
  revert a. induction l as [|j l IH]; intros a; [reflexivity|].
  cbn [foldl omap list_omap]. destruct (f j); cbn [foldl]; apply IH.
Qed.

(** X13.  The job loops of a method function count what the library
    hands back.  [jobs_done] ends as the number of jobs handed back with
    the status STS_COMPLETED, and the bogo counter is advanced by that
    number; each job handed back with another status is reported as not
    completed; a count that differs from [jobs] is reported at the end.
    So a call reports nothing exactly when the library handed back
    [jobs] jobs, all of them completed. *)
Theorem job_accounting name jobs submitted flushed counter :
  0 <= jobs ->
  0 <= counter < UINT64_MOD ->
  Z.of_nat (length (handed_back jobs submitted flushed)) < 2 ^ 31 ->
  let back := handed_back jobs submitted flushed in
  let t := run_jobs name jobs submitted flushed counter in
  jobs_done t = completed back /\
  bogo_counter t = (counter + completed back) mod UINT64_MOD /\
  reports t =
    replicate (length back - Z.to_nat (completed back)) (PrErrNotCompleted name)
      ++ (if completed back =? jobs then []
          else [PrErrOnlyProcessed name (completed back) jobs]) /\
  (reports t = [] <->
   Forall (fun s => s = STS_COMPLETED) back /\ Z.of_nat (length back) = jobs).
Proof.
  intros Hjobs Hc Hlen. cbv zeta.
  assert (Hfold :
    let t2 := foldl (fun t s => stress_job_check_status name s t) (mk_tally 0 counter [])
                (handed_back jobs submitted flushed) in
    run_jobs name jobs submitted flushed counter
    = mk_tally (jobs_done t2) (bogo_counter t2)
        (reports t2 ++ stress_jobs_done name jobs (jobs_done t2))).
  { unfold run_jobs, handed_back. cbv zeta.
    rewrite (foldl_omap submitted (fun t s => stress_job_check_status name s t)).
    rewrite foldl_app. reflexivity. }
  cbv zeta in Hfold. rewrite Hfold.
  destruct (check_status_fold name (handed_back jobs submitted flushed)
              (mk_tally 0 counter [])) as (H1 & H2 & H3);
    [cbn; lia | cbn; lia | exact Hc |].
  cbn [jobs_done bogo_counter reports] in *. rewrite H1, H2, H3.
  rewrite !Z.add_0_l. cbn [app]. unfold stress_jobs_done.
  set (back := handed_back jobs submitted flushed) in *.
  pose proof (completed_bounds back) as Hb.
  split; [reflexivity|]. split; [reflexivity|].
  split; [destruct (completed back =? jobs); reflexivity|].
  rewrite <- completed_all. split.
  - intros Hnil. apply app_eq_nil in Hnil as [Hrep Hend].
    destruct (Z.eqb_spec (completed back) jobs) as [Heq|Hne]; [|discriminate].
    apply (f_equal length) in Hrep. rewrite length_replicate in Hrep. cbn in Hrep. lia.
  - intros [Hall Hlen']. rewrite Hall, Hlen', Z.eqb_refl.
    replace (length back - Z.to_nat jobs)%nat with 0%nat by lia. reflexivity.
Qed.

End IpsecJobs.

Section PrimeOptions.
Import Prime.

(** X14.  [stress_set_prime_method] accepts exactly the four method
    names: it stores the method's number under "prime-method", prints
    nothing and returns 0; any other argument stores nothing, lists the
    names on stderr and returns -1. *)
Theorem prime_method_option_selects_method :
  (forall i nm pm,
     stress_prime_methods !! i = Some (nm, pm) ->
     stress_set_prime_method nm
     = mk_outcome (Some ("prime-method"%string, pm)) "" (returns 0)) /\
  (forall opt key v,
     stored (stress_set_prime_method opt) = Some (key, v) ->
     key = "prime-method"%string /\ In (opt, v) stress_prime_methods) /\
  (forall opt,
     (forall pm, ~ In (opt, pm) stress_prime_methods) ->
     stress_set_prime_method opt
     = mk_outcome None
         ("prime-method must be one of: factorial inc pwr2 pwr10" ++ newline)
         (returns (-1))).
Proof.
  split; [|split].
  - intros i nm pm Hi.
    do 4 (destruct i as [|i]; [injection Hi as <- <-; reflexivity|]). discriminate.
  - intros opt key v. unfold stress_set_prime_method. cbv zeta.
    destruct (first_match opt _ 0) as [i|] eqn:Hfm; [|discriminate].
    apply first_match_Some in Hfm as (j & -> & Hj).
    rewrite list_lookup_fmap in Hj. cbn [stored Nat.add].
    destruct (stress_prime_methods !! j) as [[nm pm]|] eqn:Hm; [|discriminate].
    injection Hj as ->. intros [= <- <-]. split; [reflexivity|].
    apply (proj1 (list_elem_of_In _ _)). eapply list_elem_of_lookup_2. exact Hm.
  - intros opt Hnot. unfold stress_set_prime_method. cbv zeta.
    rewrite (proj2 (first_match_None opt (map fst stress_prime_methods) 0)); [reflexivity|].
    intros Hin. apply in_map_iff in Hin as ([nm pm] & Hname & Hin). cbn in Hname. subst nm.
    exact (Hnot pm Hin).
Qed.

End PrimeOptions.

Section PrimeBudget.
Import Prime.
Variable E : env_t.
Hypothesis Hquiet : forall n p, alarms E n p = 0%nat.

Lemma alarms_from_quiet n p len : alarms_from E n p len = 0%nat.
Proof.
  revert p. induction len as [|len IH]; intros p; [reflexivity|].
  cbn [alarms_from]. rewrite Hquiet, IH. reflexivity.
Qed.

(** An iteration that no signal hits runs its six statements. *)
Lemma run_body_quiet pm n st :
  count st = 0 ->
  run_body E n 0 (loop_body E pm) st = inl (run_stmts (loop_body E pm) st).
Proof.
  intros Hc.
  pose proof (run_body_spec E n (loop_body E pm) 0 st (loop_body_commutes E pm) Hc) as H.
  rewrite alarms_from_quiet in H. exact H.
Qed.

(** What the six statements of an iteration leave in the state. *)
Lemma loop_body_fields pm st :
  let st' := run_stmts (loop_body E pm) st in
  continue_flag st' = continue_flag st /\
  value st' = mpz_nextprime E (start st) /\
  (start st', factorial st') =
    (if pm =? STRESS_PRIME_METHOD_INC then (mpz_nextprime E (start st) + 2, factorial st)
     else if pm =? STRESS_PRIME_METHOD_PWR2 then (start st * 2, factorial st)
     else if pm =? STRESS_PRIME_METHOD_PWR10 then (start st * 10, factorial st)
     else (start st * factorial st, factorial st + 1)).
Proof.
  cbv zeta. unfold run_stmts, loop_body. cbn [foldl]. unfold stmt_advance.
  destruct (pm =? STRESS_PRIME_METHOD_INC);
    [|destruct (pm =? STRESS_PRIME_METHOD_PWR2);
      [|destruct (pm =? STRESS_PRIME_METHOD_PWR10)]];
    cbn [stmt_digits stmt_bogo_inc stmt_duration stmt_nextprime stmt_time
         continue_flag value start factorial]; auto.
Qed.

Lemma iteration_step pm n st :
  Z.of_nat (S n) < UINT64_MOD ->
  after_iterations pm n st ->
  let st' := run_stmts (loop_body E pm) st in
  after_iterations pm (S n) st' /\
  value st' = mpz_nextprime E (start st) /\
  trace st' = trace st.
Proof.
  intros Hn (Hc & Hf & Hj & Hb & Hstart). cbv zeta.
  destruct (run_stmts_frame (loop_body E pm) st (loop_body_commutes E pm))
    as (Hc' & Htr' & Hj').
  destruct (loop_body_fields pm st) as (Hf' & Hv' & Hsf). cbv zeta in Hf', Hv', Hsf.
  pose proof (loop_body_bogo E pm st) as Hb'.
  set (st' := run_stmts (loop_body E pm) st) in *.
  split; [|split; [exact Hv' | exact Htr']].
  unfold after_iterations.
  split; [congruence|]. split; [congruence|]. split; [congruence|].
  split; [rewrite Hb', Hb, Z.mod_small by lia; lia|].
  intros Hinc. destruct (Hstart Hinc) as (Hs & Hfact). unfold start_of in Hs |- *.
  destruct (Z.eqb_spec pm STRESS_PRIME_METHOD_INC) as [|_]; [contradiction|].
  destruct (Z.eqb_spec pm STRESS_PRIME_METHOD_PWR2) as [H2|H2].
  { apply (f_equal fst) in Hsf. cbn [fst] in Hsf. rewrite Hsf.
    split; [|intros; contradiction].
    rewrite Hs, Nat2Z.inj_succ, Z.pow_succ_r by lia. lia. }
  destruct (Z.eqb_spec pm STRESS_PRIME_METHOD_PWR10) as [H10|H10].
  { apply (f_equal fst) in Hsf. cbn [fst] in Hsf. rewrite Hsf.
    split; [|intros; contradiction].
    rewrite Hs, Nat2Z.inj_succ, Z.pow_succ_r by lia. lia. }
  pose proof (f_equal fst Hsf) as Hs1. pose proof (f_equal snd Hsf) as Hf1.
  cbn [fst snd] in Hs1, Hf1. rewrite Hs1, Hf1.
  specialize (Hfact H2 H10). split; [|intros _ _; lia].
  rewrite Hs, Hfact. change (fact (S (S n))) with (S (S n) * fact (S n))%nat. lia.
Qed.

(** [k] further iterations use up a budget of [n + k] primes. *)
Lemma prime_loop_budget pm k n st :
  max_ops E = Z.of_nat (n + S k) -> Z.of_nat (n + S k) < UINT64_MOD ->
  after_iterations pm n st ->
  exists st',
    prime_loop (S k) E pm n st = Some (inl st') /\
    after_iterations pm (n + S k) st' /\
    (pm <> STRESS_PRIME_METHOD_INC -> value st' = mpz_nextprime E (start_of pm (n + k))) /\
    trace st' = trace st.
Proof.
  revert n st. induction k as [|k IH]; intros n st Hmax Hlt Hafter.
  - destruct (iteration_step pm n st) as (Hafter' & Hval & Htr); [lia | exact Hafter|].
    cbn [prime_loop]. rewrite run_body_quiet by apply Hafter.
    set (st1 := run_stmts (loop_body E pm) st) in *.
    assert (Hstop : stress_continue E st1 = false).
    { unfold stress_continue. destruct Hafter' as (_ & -> & _ & -> & _). rewrite Hmax.
      replace (n + 1)%nat with (S n) by lia.
      destruct (Z.eqb_spec (Z.of_nat (S n)) 0); [lia|].
      rewrite Z.ltb_irrefl. reflexivity. }
    rewrite Hstop. exists st1. split; [reflexivity|].
    replace (n + 1)%nat with (S n) by lia. split; [exact Hafter'|].
    split; [|exact Htr]. intros Hinc. rewrite Hval, Nat.add_0_r.
    destruct Hafter as (_ & _ & _ & _ & Hs). rewrite (proj1 (Hs Hinc)). reflexivity.
  - destruct (iteration_step pm n st) as (Hafter' & Hval & Htr); [lia | exact Hafter|].
    cbn [prime_loop]. rewrite run_body_quiet by apply Hafter.
    set (st1 := run_stmts (loop_body E pm) st) in *.
    assert (Hgo : stress_continue E st1 = true).
    { unfold stress_continue. destruct Hafter' as (_ & -> & _ & -> & _). rewrite Hmax.
      destruct (Z.eqb_spec (Z.of_nat (n + S (S k))) 0); [lia|].
      destruct (Z.ltb_spec (Z.of_nat (S n)) (Z.of_nat (n + S (S k)))); [reflexivity | lia]. }
    rewrite Hgo.
    destruct (IH (S n) st1) as (st' & Hloop & Hafter'' & Hval' & Htr');
      [rewrite Hmax; f_equal; lia | lia | exact Hafter' |].
    exists st'. split; [exact Hloop|].
    replace (n + S (S k))%nat with (S n + S k)%nat by lia. split; [exact Hafter''|].
    split; [|rewrite Htr'; exact Htr].
    intros Hinc. rewrite (Hval' Hinc). do 2 f_equal. lia.
Qed.

Lemma finish_frame st :
  start (finish st).2 = start st /\ value (finish st).2 = value st.
Proof. unfold finish. destruct (jumped st); cbn; auto. Qed.

(** X15.  A run of stress-prime that no signal hits and that has a
    budget of [N] primes finds exactly [N] primes in [N] iterations and
    ends with EXIT_SUCCESS after clearing its GMP values and emitting
    its metric.  Under "pwr2" the searches start at 1, 2, 4, ..., under
    "pwr10" at 1, 10, 100, ..., and under "factorial", as under any
    method number that is not one of the four, at 1!, 2!, 3!, ...: the
    last prime found is the one that follows the start value of
    iteration [N - 1]. *)
Theorem budget_run_finds_its_budget (N : nat) :
  (0 < N)%nat -> Z.of_nat N < UINT64_MOD ->
  max_ops E = Z.of_nat N -> sighandler_ok E = true ->
  let pm := default STRESS_PRIME_METHOD_INC (setting_prime_method E) in
  exists st,
    stress_prime E N = Some (EXIT_SUCCESS, st) /\
    bogo st = Z.of_nat N /\
    (pm <> STRESS_PRIME_METHOD_INC ->
     start st = start_of pm N /\ value st = mpz_nextprime E (start_of pm (N - 1))) /\
    trace st =
      [EvMpzInits; EvProcState STRESS_STATE_RUN; EvSighandler true; EvMpzClears;
       EvPrInf (Z.of_nat N) (digits st);
       EvMetric 0 "primes per second" (rate_of (Z.of_nat N) (duration st))
         STRESS_HARMONIC_MEAN;
       EvProcState STRESS_STATE_DEINIT].
Proof.
  intros HN Hlt Hmax Hok. cbv zeta. unfold stress_prime. rewrite Hok. cbn [negb].
  destruct N as [|k]; [lia|].
  destruct (prime_loop_budget (default STRESS_PRIME_METHOD_INC (setting_prime_method E))
              k 0 (armed E)) as (st' & Hloop & Hafter & Hval & Htr);
    [exact Hmax | exact Hlt | |].
  { unfold after_iterations, armed, start_of. cbn.
    repeat split; auto.
    repeat match goal with |- context [if ?b then _ else _] => destruct b end; reflexivity. }
  rewrite Hloop. cbn [mbind option_bind Nat.add] in *.
  destruct Hafter as (_ & _ & Hj & Hb & Hs).
  destruct (finish_spec st') as (Hfin & Htrf & _ & Hd & _ & _ & Hbf & Hdig).
  destruct (finish_frame st') as (Hst & Hv).
  rewrite Hfin. eexists. split; [reflexivity|].
  split; [rewrite Hbf; exact Hb|]. split.
  - intros Hinc. rewrite Hst, Hv. split; [apply Hs; exact Hinc|].
    rewrite (Hval Hinc). do 2 f_equal. lia.
  - rewrite Htrf, Htr, Hj, Hb, Hd, Hdig. unfold armed. cbn. rewrite Hok. reflexivity.
Qed.

End PrimeBudget.

Section IpsecSlots.
Import IpsecMb.
Variable E : env_t.

Lemma report_slots fts fs j0 :
  omap metric_slot (report fts fs j0) = seq j0 (length (report fts fs j0)) /\
  (length (report fts fs j0) <= length fts)%nat.
Proof.
  revert fs j0. induction fts as [|ft fts IH]; intros fs j0; [cbn; auto|].
  destruct fs as [|f fs]; [cbn; split; [reflexivity | lia]|].
  cbn [report]. destruct (PrimFloat.ltb 0%float (duration (stats f))).
  - destruct (IH fs (S j0)) as (Hs & Hl). cbn [omap list_omap metric_slot length seq].
    change (list_omap _ _ metric_slot) with (omap metric_slot).
    rewrite Hs. split; [reflexivity | lia].
  - destruct (IH fs j0) as (Hs & Hl). split; [exact Hs | cbn [length]; lia].
Qed.

Lemma work_sets_no_slot evs :
  Forall (fun e => is_work e = true) evs -> omap metric_slot evs = [].
Proof.
  induction 1 as [|e evs He _ IH]; [reflexivity|].
  cbn [omap list_omap]. change (list_omap _ _ metric_slot) with (omap metric_slot).
  rewrite IH. destruct e; try discriminate; reflexivity.
Qed.

(** X19.  The metric slots that a run of stress-ipsec-mb sets are
    0, 1, ..., k - 1, in this order, for some k that is at most the
    number of features: the report loop numbers its metrics with a
    counter of its own, so that the slot of a feature depends on how
    many features before it in the table have a positive duration. *)
Theorem ipsec_metric_slots_are_consecutive fuel rc tr :
  stress_ipsec_mb E fuel = Some (rc, tr) ->
  exists k, (k <= NUM_MB_FEATURES)%nat /\ omap metric_slot tr = seq 0 k.
Proof.
  assert (Hskipped : forall pre post,
            omap metric_slot pre = [] -> omap metric_slot post = [] ->
            exists k, (k <= NUM_MB_FEATURES)%nat /\
                      omap metric_slot (pre ++ pr_inf_skip E ++ post) = seq 0 k).
  { intros pre post Hpre Hpost. exists 0%nat. split; [lia|].
    rewrite !omap_app, Hpre, Hpost. unfold pr_inf_skip.
    destruct (instance E =? 0); reflexivity. }
  unfold stress_ipsec_mb.
  destruct (imb_version_ok E); cbn [negb].
  2:{ intros [= <- <-]. destruct (Hskipped [] [] eq_refl eq_refl) as (k & Hk & Hs).
      exists k. split; [exact Hk|]. rewrite <- Hs, app_nil_r. reflexivity. }
  destruct (alloc_mb_mgr_ok E); cbn [negb].
  2:{ intros [= <- <-]. destruct (Hskipped [EvAllocMgr false] [] eq_refl eq_refl) as (k & Hk & Hs).
      exists k. split; [exact Hk|]. rewrite <- Hs, app_nil_r. reflexivity. }
  destruct (existsb supported (probe_features E)); cbn [negb];
    [|intros [= <- <-]; apply (Hskipped [EvAllocMgr true] [EvFreeMgr]); reflexivity].
  match goal with |- context [match ?p with Some _ => _ | None => _ end = _] =>
    destruct p as [fs'|] end;
    [|intros [= <- <-]; apply (Hskipped [EvAllocMgr true] [EvFreeMgr]); reflexivity].
  destruct (main_loop _ _ _ _ _) as [st|] eqn:Hloop; [|discriminate].
  cbn [mbind option_bind].
  destruct (report_slots (mb_features (bits E)) (fstate st) 0) as (Hs & Hl).
  remember (report (mb_features (bits E)) (fstate st) 0) as rep eqn:Hrep.
  intros [= <- <-].
  apply main_loop_works_on in Hloop as (evs & Htr & Hw & _).
  exists (length rep). split; [exact Hl|].
  rewrite Htr. cbn [initial_state trace]. rewrite !omap_app, Hs, (work_sets_no_slot evs Hw).
  cbn. rewrite app_nil_r. reflexivity.
Qed.

End IpsecSlots.

Section DfpBudget.
Import Dfp.
Variable E : env_t.
Hypothesis Hquiet : forall n, sigalrm E n = false.

Lemma leaf_bogo fld op idx st :
  bogo (stress_dfp_leaf E fld op idx st).2 = (bogo st + 1) mod UINT64_MOD.
Proof. reflexivity. Qed.

#[local] Opaque stress_dfp_leaf.

(** One unverified call of a concrete method. *)
Lemma unverified_call m func st :
  stress_dfp_funcs !! m = Some func -> m <> 0%nat ->
  exists st',
    stress_dfp_call_method E m false st = Some (EXIT_SUCCESS, st') /\
    trace st' = trace st ++ [EvCall m 0] /\
    bogo st' = (bogo st + 1) mod UINT64_MOD /\
    continue_flag st' = continue_flag st.
Proof.
  intros Hm Hm0. destruct (registry_leaf m func Hm Hm0) as (fld & op & Hf).
  unfold stress_dfp_call_method.
  rewrite (call_method_leaf E (call_func E) m func fld op false st (fun _ _ => eq_refl) Hm Hf).
  cbv zeta. replace (gate m false) with false
    by (unfold gate; rewrite !andb_false_r; reflexivity).
  pose proof (leaf_bogo fld op 0 (log (EvCall m 0) st)) as Hb.
  destruct (stress_dfp_leaf E fld op 0 (log (EvCall m 0) st)) as [dt0 st1] eqn:H0.
  apply leaf_facts in H0 as (_ & _ & Ht1 & _ & _ & Hf1).
  cbn [fst snd log set_stats bogo trace continue_flag loops_run] in *.
  eexists. split; [reflexivity|]. cbn [set_stats bogo trace continue_flag].
  rewrite Hquiet, andb_true_r in Hf1. auto.
Qed.

Lemma main_loop_S fuel m verify st :
  main_loop (S fuel) E m verify st =
  '(rc, st') ← stress_dfp_call_method E m verify st;
  if is_failure rc then Some (EXIT_FAILURE, st')
  else if stress_continue E st' then main_loop fuel E m verify st'
  else Some (EXIT_SUCCESS, st').
Proof. reflexivity. Qed.

Lemma main_loop_budget m func k n st :
  stress_dfp_funcs !! m = Some func -> m <> 0%nat ->
  max_ops E = Z.of_nat (n + S k) -> Z.of_nat (n + S k) < UINT64_MOD ->
  bogo st = Z.of_nat n -> continue_flag st = true ->
  exists st',
    main_loop (S k) E m false st = Some (EXIT_SUCCESS, st') /\
    bogo st' = Z.of_nat (n + S k) /\
    trace st' = trace st ++ replicate (S k) (EvCall m 0).
Proof.
  intros Hm Hm0. revert n st. induction k as [|k IH]; intros n st Hmax Hlt Hb Hup;
    destruct (unverified_call m func st Hm Hm0) as (st1 & Hcm & Htr1 & Hb1 & Hf1);
    rewrite main_loop_S, Hcm; cbn [mbind option_bind is_failure];
    rewrite Hb, Z.mod_small in Hb1 by lia; unfold stress_continue;
    rewrite Hf1, Hup, Hb1, Hmax; cbn [andb].
  - destruct (Z.eqb_spec (Z.of_nat (n + 1)) 0); [lia|].
    destruct (Z.ltb_spec (Z.of_nat n + 1) (Z.of_nat (n + 1))); [lia|]. cbn [orb].
    exists st1. split; [reflexivity|]. split; [lia | exact Htr1].
  - destruct (Z.eqb_spec (Z.of_nat (n + S (S k))) 0); [lia|].
    destruct (Z.ltb_spec (Z.of_nat n + 1) (Z.of_nat (n + S (S k)))); [|lia]. cbn [orb].
    destruct (IH (S n) st1) as (st' & Hloop & Hb' & Htr');
      [rewrite Hmax; f_equal; lia | lia | lia | congruence |].
    exists st'. split; [exact Hloop|].
    split; [rewrite Hb'; f_equal; lia|].
    rewrite Htr', Htr1, <- app_assoc. reflexivity.
Qed.

(** X20.  A run of stress-dfp with verification off, a concrete
    method selected and a budget of [N] bogo ops, which no stop request
    hits, makes exactly [N] calls of the method, one arithmetic pass
    and one bogo op each, and ends with EXIT_SUCCESS after its metrics,
    the DEINIT state and the release of the mapping. *)
Theorem budget_run_makes_budget_calls (N : nat) m func :
  setting_fp_method E = Some m ->
  stress_dfp_funcs !! m = Some func -> m <> 0%nat ->
  opt_flags_verify E = false -> mmap_ok E = true ->
  (0 < N)%nat -> Z.of_nat N < UINT64_MOD -> max_ops E = Z.of_nat N ->
  exists metrics,
    stress_dfp E N
    = Some (EXIT_SUCCESS,
            [EvMmap true; EvProcState STRESS_STATE_SYNC_WAIT; EvProcState STRESS_STATE_RUN]
              ++ replicate N (EvCall m 0) ++ metrics
              ++ [EvProcState STRESS_STATE_DEINIT; EvMunmap]) /\
    Forall (fun e => is_metric e = true) metrics.
Proof.
  intros Hset Hm Hm0 Hv Hmap HN Hlt Hmax. unfold stress_dfp.
  rewrite Hset, Hv, Hmap. cbn [negb default from_option id].
  destruct N as [|k]; [lia|].
  destruct (main_loop_budget m func k 0
              (initial_state E [EvMmap true; EvProcState STRESS_STATE_SYNC_WAIT;
                                EvProcState STRESS_STATE_RUN]) Hm Hm0)
    as (st' & Hloop & _ & Htr); [exact Hmax | exact Hlt | reflexivity | reflexivity |].
  rewrite Hloop. cbn [mbind option_bind].
  exists (report_metrics (stats st')). rewrite Htr. cbn [initial_state trace].
  rewrite <- !app_assoc. split; [reflexivity | apply report_metrics_are_metrics].
Qed.

End DfpBudget.

Section IpsecTermination.
Import IpsecMb.
Variable E : env_t.
Hypothesis Hmem : forall n, alloc_aligned_ok E n = true.

Lemma advanced_refl st : advanced E False st st.
Proof.
  split; [lia|]. split; [intros H; split; [exact H | intros n Hn; lia]|].
  split; [reflexivity | intros []].
Qed.

Lemma advanced_weaken (P Q : Prop) st st' :
  (Q -> P) -> advanced E P st st' -> advanced E Q st st'.
Proof. intros HPQ (H1 & H2 & H3 & H4). repeat split; auto; apply H2; auto. Qed.

(** Two stretches in a row: it is enough that one of them is strict. *)
Lemma advanced_trans (P Q R : Prop) st1 st2 st3 :
  (R -> P \/ Q) ->
  advanced E P st1 st2 -> advanced E Q st2 st3 -> advanced E R st1 st3.
Proof.
  intros HR (Hle1 & Hq1 & Hs1 & Hp) (Hle2 & Hq2 & Hs2 & Hq).
  split; [lia|]. split.
  - intros Hup. destruct (Hq2 Hup) as (Hup2 & Hn2). destruct (Hq1 Hup2) as (Hup1 & Hn1).
    split; [exact Hup1|]. intros n Hn.
    destruct (Nat.lt_ge_cases n (runs st2)); [apply Hn1 | apply Hn2]; lia.
  - split; [intros j; rewrite Hs2; apply Hs1|].
    intros Hr. destruct (HR Hr) as [HP|HQ]; [specialize (Hp HP) | specialize (Hq HQ)]; lia.
Qed.

(** A step that changes neither the runs, the flag nor the marks. *)
Lemma advanced_idle st st' :
  runs st' = runs st -> continue_flag st' = continue_flag st ->
  (forall j, supported (fstate st' !!! j) = supported (fstate st !!! j)) ->
  advanced E False st st'.
Proof.
  intros Hr Hf Hs. split; [lia|]. split.
  - intros Hup. split; [congruence | intros n Hn; lia].
  - split; [exact Hs | intros []].
Qed.

(** With memory at hand a method function makes its run. *)
Lemma leaf_advanced m jobs st : advanced E True st (stress_ipsec_leaf E m jobs st).
Proof.
  unfold stress_ipsec_leaf, advanced. cbv zeta. rewrite Hmem.
  cbn [negb runs continue_flag fstate].
  split; [lia|]. split.
  - intros [Hup Hq]%andb_true_iff. split; [exact Hup|].
    intros n Hn. assert (n = runs st) as -> by lia.
    destruct (sigalrm E (runs st)); [discriminate | reflexivity].
  - split; [reflexivity | intros _; lia].
Qed.

Lemma keep_stressing_idle st st' :
  counter st' = counter st -> continue_flag st' = continue_flag st ->
  keep_stressing E st' = keep_stressing E st.
Proof. intros Hc Hf. unfold keep_stressing. rewrite Hc, Hf. reflexivity. Qed.

(** One round of the loop of [stress_ipsec_call_func]: the method's
    function, which makes a run under the condition [C] of the state it
    is entered in, is called if the feature is supported. *)
Lemma call_func_step_advanced (run : run_t) fn (C : state -> Prop) jobs mi i st :
  (forall s, exists s', run fn jobs s = Some s' /\ advanced E (C s) s s') ->
  (forall s s', counter s' = counter s -> continue_flag s' = continue_flag s ->
                fstate s' = fstate s -> C s -> C s') ->
  (i < NUM_MB_FEATURES)%nat ->
  exists st',
    call_func_step E run fn jobs mi i st = Some st' /\
    advanced E (supported (fstate st !!! i) = true /\ C st) st st'.
Proof.
  intros Hrun HC Hi. unfold call_func_step.
  destruct (supported (fstate st !!! i)) eqn:Hsup.
  2:{ exists st. split; [reflexivity|].
      eapply advanced_weaken; [|apply advanced_refl]. intros [H _]. discriminate. }
  cbn [read_clock].
  destruct (lookup_lt_is_Some_2 (mb_features (bits E)) i) as [ft Hft]; [exact Hi|].
  rewrite Hft. cbn [mbind option_bind].
  match goal with |- context [run fn jobs ?s] =>
    destruct (Hrun s) as (st3 & Hr & Hadv); set (s2 := s) in *
  end.
  rewrite Hr. cbn [mbind option_bind]. eexists. split; [reflexivity|].
  eapply (advanced_trans False (C s2)); [| |eapply (advanced_trans (C s2) False);
    [|exact Hadv|]].
  - intros [_ Hc]. right. eapply HC; [| | |exact Hc]; reflexivity.
  - apply advanced_idle; reflexivity.
  - intros Hc. left. exact Hc.
  - apply advanced_idle; try reflexivity.
    intros j. cbn [set_fstate fstate]. apply add_stats_supported.
Qed.

Lemma call_func_loop_advanced (run : run_t) fn (C : state -> Prop) jobs mi len a st :
  (forall s, exists s', run fn jobs s = Some s' /\ advanced E (C s) s s') ->
  (forall s s', counter s' = counter s -> continue_flag s' = continue_flag s ->
                fstate s' = fstate s -> C s -> C s') ->
  (a + len <= NUM_MB_FEATURES)%nat ->
  exists st',
    call_func_loop (call_func_step E run fn jobs mi) (seq a len) st = Some st' /\
    advanced E
      ((exists i, (a <= i < a + len)%nat /\ supported (fstate st !!! i) = true) /\ C st)
      st st'.
Proof.
  intros Hrun HC. revert a st. induction len as [|len IH]; intros a st Hlen.
  - exists st. split; [reflexivity|].
    eapply advanced_weaken; [|apply advanced_refl]. intros [(i & Hi & _) _]. lia.
  - destruct (call_func_step_advanced run fn C jobs mi a st Hrun HC) as (st1 & Hstep & Hadv1);
      [lia|].
    destruct (IH (S a) st1) as (st' & Hloop & Hadv); [lia|].
    exists st'. cbn [seq call_func_loop]. rewrite Hstep. cbn [mbind option_bind].
    split; [exact Hloop|].
    destruct (supported (fstate st !!! a)) eqn:Hsup.
    + eapply (advanced_trans _ False); [|exact Hadv1 | eapply advanced_weaken; [|exact Hadv]].
      * intros [_ Hc]. left. auto.
      * intros [].
    + (* the feature is not supported: nothing was done *)
      assert (st1 = st) as ->.
      { unfold call_func_step in Hstep. rewrite Hsup in Hstep. congruence. }
      eapply advanced_weaken; [|exact Hadv].
      intros [(i & Hi & Hsi) Hc]. split; [|exact Hc]. exists i. split; [|exact Hsi].
      destruct (decide (i = a)) as [->|]; [congruence | lia].
Qed.


Lemma some_supported_ext (s s' : state) :
  (forall j, supported (fstate s' !!! j) = supported (fstate s !!! j)) ->
  some_supported s -> some_supported s'.
Proof. intros H (i & Hi & Hs). exists i. split; [exact Hi | rewrite H; exact Hs]. Qed.

Lemma method_entry mi :
  (1 <= mi < NUM_IPSEC_FUNCS)%nat ->
  exists entry l, stress_ipsec_funcs !! mi = Some entry /\ func entry = stress_ipsec_leaf_fn l.
Proof.
  intros Hmi.
  do 8 (destruct mi as [|mi]; [first [lia | eexists _, _; split; reflexivity]|]).
  cbn in Hmi. lia.
Qed.

(** [stress_ipsec_call_func] as [stress_ipsec_all] calls it. *)
Lemma inner_call_advanced jobs mi st :
  (1 <= mi < NUM_IPSEC_FUNCS)%nat ->
  exists st',
    stress_ipsec_call_func_with E (run_inner E) jobs mi st = Some st' /\
    advanced E (some_supported st) st st'.
Proof.
  intros Hmi. destruct (method_entry mi Hmi) as (entry & l & Hentry & Hl).
  unfold stress_ipsec_call_func_with. rewrite Hentry. cbn [mbind option_bind]. rewrite Hl.
  destruct (call_func_loop_advanced (run_inner E) (stress_ipsec_leaf_fn l) (fun _ => True)
              jobs mi NUM_MB_FEATURES 0 st) as (st' & Hloop & Hadv); [| |lia|].
  - intros s. eexists. split; [reflexivity | apply leaf_advanced].
  - auto.
  - exists st'. split; [exact Hloop|]. eapply advanced_weaken; [|exact Hadv].
    intros (i & Hi & Hs). split; [|exact I]. exists i. split; [lia | exact Hs].
Qed.

(** The loop of [stress_ipsec_all] over the methods [a .. a+len-1]. *)
Lemma all_loop_advanced jobs len a st :
  (1 <= a)%nat -> (a + len <= NUM_IPSEC_FUNCS)%nat ->
  exists st',
    all_loop E (stress_ipsec_call_func_with E (run_inner E) jobs) (seq a len) st = Some st' /\
    advanced E ((0 < len)%nat /\ keep_stressing E st = true /\ some_supported st) st st'.
Proof.
  revert a st. induction len as [|len IH]; intros a st Ha Hlen.
  - exists st. split; [reflexivity|].
    eapply advanced_weaken; [|apply advanced_refl]. intros [H _]. lia.
  - cbn [seq all_loop]. destruct (keep_stressing E st) eqn:Hkeep.
    2:{ exists st. split; [reflexivity|].
        eapply advanced_weaken; [|apply advanced_refl]. intros (_ & H & _). discriminate. }
    destruct (inner_call_advanced jobs a st) as (st1 & Hcall & Hadv1); [lia|].
    rewrite Hcall. cbn [mbind option_bind].
    destruct (IH (S a) st1) as (st' & Hloop & Hadv); [lia | lia |].
    exists st'. split; [exact Hloop|].
    eapply (advanced_trans _ False); [|exact Hadv1 | eapply advanced_weaken; [|exact Hadv]].
    + intros (_ & _ & Hs). left. exact Hs.
    + intros [].
Qed.

Lemma run_func_advanced fn jobs s :
  exists s', run_func E fn jobs s = Some s' /\ advanced E (runs_some E fn s) s s'.
Proof.
  destruct fn as [|m]; cbn [run_func runs_some].
  - unfold stress_ipsec_all.
    destruct (all_loop_advanced jobs (NUM_IPSEC_FUNCS - 1) 1 s) as (s' & Hloop & Hadv);
      [lia | cbn; lia |].
    exists s'. split; [exact Hloop|]. eapply advanced_weaken; [|exact Hadv].
    intros [Hk Hs]. split; [cbn; lia | auto].
  - eexists. split; [reflexivity | apply leaf_advanced].
Qed.

Lemma runs_some_idle fn s s' :
  counter s' = counter s -> continue_flag s' = continue_flag s -> fstate s' = fstate s ->
  runs_some E fn s -> runs_some E fn s'.
Proof.
  intros Hc Hf Hfs. destruct fn; cbn [runs_some]; [|auto].
  intros [Hk Hs]. split; [rewrite (keep_stressing_idle s s') by assumption; exact Hk|].
  eapply some_supported_ext; [|exact Hs]. intros j. rewrite Hfs. reflexivity.
Qed.

(** [stress_ipsec_call_func] as the main loop calls it. *)
Lemma call_func_advanced jobs mi entry st :
  stress_ipsec_funcs !! mi = Some entry ->
  exists st',
    stress_ipsec_call_func E jobs mi st = Some st' /\
    advanced E (some_supported st /\ runs_some E (func entry) st) st st'.
Proof.
  intros Hentry. unfold stress_ipsec_call_func, stress_ipsec_call_func_with.
  rewrite Hentry. cbn [mbind option_bind].
  destruct (call_func_loop_advanced (run_func E) (func entry) (runs_some E (func entry))
              jobs mi NUM_MB_FEATURES 0 st) as (st' & Hloop & Hadv); [| |lia|].
  - intros s. apply run_func_advanced.
  - intros s s'. apply runs_some_idle.
  - exists st'. split; [exact Hloop|]. eapply advanced_weaken; [|exact Hadv].
    intros ((i & Hi & Hs) & Hc). split; [|exact Hc]. exists i. split; [lia | exact Hs].
Qed.

(** One pass of the main loop over the features [a .. a+len-1]. *)
Lemma main_pass_loop_advanced jobs mi entry len a st :
  stress_ipsec_funcs !! mi = Some entry ->
  (a + len <= NUM_MB_FEATURES)%nat ->
  exists st',
    call_func_loop (main_step E jobs mi) (seq a len) st = Some st' /\
    advanced E
      ((exists i, (a <= i < a + len)%nat /\ supported (fstate st !!! i) = true) /\
       runs_some E (func entry) st)
      st st'.
Proof.
  intros Hentry. revert a st. induction len as [|len IH]; intros a st Hlen.
  - exists st. split; [reflexivity|].
    eapply advanced_weaken; [|apply advanced_refl]. intros [(i & Hi & _) _]. lia.
  - cbn [seq call_func_loop]. rewrite main_step_unfold.
    destruct (supported (fstate st !!! a)) eqn:Hsup.
    + destruct (lookup_lt_is_Some_2 (mb_features (bits E)) a) as [ft Hft];
        [cbn; unfold NUM_MB_FEATURES in Hlen; lia|].
      rewrite Hft. cbn [mbind option_bind].
      set (s0 := set_mgr (init_func ft) (log (EvInit a) st)).
      destruct (call_func_advanced jobs mi entry s0 Hentry) as (st1 & Hcall & Hadv1).
      rewrite Hcall. cbn [mbind option_bind].
      destruct (IH (S a) st1) as (st' & Hloop & Hadv); [lia|].
      exists st'. split; [exact Hloop|].
      eapply (advanced_trans (some_supported s0 /\ runs_some E (func entry) s0) False);
        [| |eapply advanced_weaken; [|exact Hadv]].
      * intros [_ Hc]. left. split.
        -- exists a. split; [unfold NUM_MB_FEATURES in *; lia | exact Hsup].
        -- eapply runs_some_idle; [| | |exact Hc]; reflexivity.
      * eapply (advanced_trans False _); [|apply (advanced_idle st s0); reflexivity|exact Hadv1].
        intros H. right. exact H.
      * intros [].
    + cbn [mbind option_bind].
      destruct (IH (S a) st) as (st' & Hloop & Hadv); [lia|].
      exists st'. split; [exact Hloop|]. eapply advanced_weaken; [|exact Hadv].
      intros [(i & Hi & Hsi) Hc]. split; [|exact Hc]. exists i. split; [|exact Hsi].
      destruct (decide (i = a)) as [->|]; [congruence | lia].
Qed.

Lemma main_pass_advanced jobs mi entry st :
  stress_ipsec_funcs !! mi = Some entry ->
  exists st',
    main_pass E jobs mi st = Some st' /\
    advanced E (some_supported st /\ runs_some E (func entry) st) st st'.
Proof.
  intros Hentry.
  destruct (main_pass_loop_advanced jobs mi entry NUM_MB_FEATURES 0 st Hentry)
    as (st' & Hpass & Hadv); [lia|].
  exists st'. split; [exact Hpass|]. eapply advanced_weaken; [|exact Hadv].
  intros ((i & Hi & Hs) & Hc). split; [|exact Hc]. exists i. split; [lia | exact Hs].
Qed.

(** The main loop ends once the stop request has landed: if it lands
    in method run [n0], at most [n0 + 1] more passes are made. *)
Lemma ipsec_main_loop_returns fuel jobs mi entry st n0 :
  stress_ipsec_funcs !! mi = Some entry ->
  some_supported st -> keep_stressing E st = true ->
  (runs st <= n0 < runs st + fuel)%nat -> sigalrm E n0 = true ->
  exists st', main_loop fuel E jobs mi st = Some st'.
Proof.
  intros Hentry. revert st. induction fuel as [|fuel IH]; intros st Hsome Hkeep Hn0 Halarm; [lia|].
  cbn [main_loop].
  destruct (main_pass_advanced jobs mi entry st Hentry) as (st1 & Hpass & Hle & Hq & Hsup & Hstrict).
  rewrite Hpass. cbn [mbind option_bind].
  destruct (keep_stressing E st1) eqn:Hkeep1; [|eauto].
  assert (Hlt : (runs st < runs st1)%nat).
  { apply Hstrict. split; [exact Hsome|]. destruct (func entry); cbn; auto. }
  pose proof Hkeep1 as Hup. unfold keep_stressing in Hup. apply andb_true_iff in Hup as [Hup _].
  destruct (Hq Hup) as (_ & Hquiet).
  apply IH; [eapply some_supported_ext; eauto | exact Hkeep1 | | exact Halarm].
  destruct (Nat.lt_ge_cases n0 (runs st1)) as [Hin|Hout]; [|lia].
  rewrite Hquiet in Halarm by lia. discriminate.
Qed.

(** X21.  A run of stress-ipsec-mb returns once the stop request has
    landed, as long as the per-call buffers can be allocated: if the
    request lands in method run [n0], the main loop is over within
    [n0 + 1] passes and the run ends with its metrics and the release
    of the manager.  The runs that end before the main loop (library
    too old, no manager, no supported feature, requested feature not
    supported) return at once. *)
Theorem stress_ipsec_mb_returns n0 entry :
  stress_ipsec_funcs !! default 0%nat (setting_method E) = Some entry ->
  0 <= max_ops E ->
  sigalrm E n0 = true ->
  exists r, stress_ipsec_mb E (S n0) = Some r.
Proof.
  intros Hentry Hmax Halarm. unfold stress_ipsec_mb.
  destruct (imb_version_ok E); cbn [negb]; [|eauto].
  destruct (alloc_mb_mgr_ok E); cbn [negb]; [|eauto].
  destruct (existsb supported (probe_features E)) eqn:Hgot; cbn [negb]; [|eauto].
  assert (Hlen : length (probe_features E) = NUM_MB_FEATURES) by reflexivity.
  assert (Hkeep : forall fs tr, keep_stressing E (initial_state fs tr) = true).
  { intros fs tr. unfold keep_stressing. cbn [initial_state continue_flag counter andb].
    destruct (Z.eqb_spec (max_ops E) 0); [reflexivity|].
    destruct (Z.ltb_spec 0 (max_ops E)); [reflexivity | lia]. }
  match goal with |- context [match ?p with Some _ => _ | None => _ end] =>
    destruct p as [fs'|] eqn:Hpin end; [|eauto].
  assert (Hsome : forall tr, some_supported (initial_state fs' tr)).
  { intros tr. unfold some_supported. cbn [initial_state fstate].
    destruct (setting_feature E) as [k|].
    - destruct (supported (probe_features E !!! k)) eqn:Hk; [|discriminate].
      injection Hpin as <-. exists k.
      assert (k < NUM_MB_FEATURES)%nat as Hklt.
      { destruct (Nat.lt_ge_cases k NUM_MB_FEATURES) as [|Hge]; [assumption|].
        rewrite list_lookup_total_alt, (proj2 (lookup_ge_None _ _)) in Hk by (rewrite Hlen; exact Hge).
        discriminate. }
      split; [exact Hklt|].
      unfold probe_features. cbn [mb_features map].
      do 5 (destruct k as [|k]; [reflexivity|]). unfold NUM_MB_FEATURES in Hklt. lia.
    - injection Hpin as <-. apply existsb_exists in Hgot as (f & Hin & Hf).
      apply list_elem_of_In, list_elem_of_lookup in Hin as (i & Hi).
      exists i. split; [apply lookup_lt_Some in Hi; rewrite Hlen in Hi; exact Hi|].
      rewrite list_lookup_total_alt, Hi. exact Hf. }
  destruct (ipsec_main_loop_returns (S n0) (default 128 (setting_jobs E))
              (default 0%nat (setting_method E)) entry
              (initial_state fs' ([EvAllocMgr true] ++ [EvProcState STRESS_STATE_RUN])) n0 Hentry)
    as (st & Hloop); [apply Hsome | apply Hkeep | cbn; lia | exact Halarm |].
  rewrite Hloop. cbn [mbind option_bind]. eauto.
Qed.

End IpsecTermination.

Section DfpSingleMethod.
Import Dfp.
Variable E : env_t.

Lemma initial_stats_lookup j si :
  initial_stats !! j = Some si -> si = mk_stats 0%float 0%float.
Proof.
  unfold initial_stats. intros H. apply lookup_replicate in H as [<- _]. reflexivity.
Qed.

(** A call of a concrete method leaves the stats of the other entries
    alone and emits no metric. *)
Lemma concrete_call_keeps_others m func verify st :
  stress_dfp_funcs !! m = Some func -> m <> 0%nat ->
  exists rc st' evs,
    stress_dfp_call_method E m verify st = Some (rc, st') /\
    (forall j, j <> m -> stats st' !! j = stats st !! j) /\
    trace st' = trace st ++ evs /\
    Forall (fun e => is_metric e = false) evs.
Proof.
  intros Hm Hm0.
  destruct (call_method_quiet E m func verify st Hm) as (rc & st' & evs & Hcm & Htr & Hq).
  exists rc, st', evs. split; [exact Hcm|]. split; [|auto].
  destruct (registry_leaf m func Hm Hm0) as (fld & op & Hf).
  destruct (leaf_method_cases E (call_func E) m func fld op verify st)
    as (rc' & st'' & Hcm' & Hcases); [reflexivity | exact Hm | exact Hf |].
  unfold stress_dfp_call_method in Hcm. rewrite Hcm in Hcm'. injection Hcm' as <- <-.
  intros j Hj.
  destruct Hcases as [(_ & _ & Hs & _)|[(_ & _ & _ & Hs & _)|
    [(_ & _ & _ & _ & Hs & _)|(_ & _ & _ & Hs & _)]]];
    rewrite Hs, ?list_lookup_alter_ne by congruence; reflexivity.
Qed.

(** X22.  A run of stress-dfp with a concrete method selected sets
    no metric but that of the selected method: the stats of every other
    entry stay at zero, and the report loop skips an entry whose
    duration or ops are not positive. *)
Theorem single_method_run_reports_its_method fuel m rc tr idx msg v k :
  setting_fp_method E = Some m -> m <> 0%nat ->
  stress_dfp E fuel = Some (rc, tr) ->
  In (EvMetric idx msg v k) tr ->
  exists func,
    stress_dfp_funcs !! m = Some func /\
    idx = (m - 1)%nat /\ msg = metric_msg (description func).
Proof.
  intros Hset Hm0. unfold stress_dfp. rewrite Hset. cbn [default from_option id].
  destruct (mmap_ok E); cbn [negb].
  2:{ intros [= <- <-] [H|[H|[]]]; discriminate. }
  destruct (stress_dfp_funcs !! m) as [func|] eqn:Hm.
  2:{ rewrite main_loop_bad_index by exact Hm. discriminate. }
  destruct (main_loop _ _ _ _ _) as [[rc' st]|] eqn:Hloop; [|discriminate].
  cbn [mbind option_bind]. intros [= <- <-].
  destruct (main_loop_extends E (fun e => is_metric e = false)
              (fun s => forall j, j <> m -> stats s !! j = initial_stats !! j) false
              fuel m (opt_flags_verify E)
              (initial_state E [EvMmap true; EvProcState STRESS_STATE_SYNC_WAIT;
                                EvProcState STRESS_STATE_RUN]) rc' st)
    as (Hzero & evs & Htr & Hq & _); [|reflexivity|exact Hloop|].
  { intros s Hs.
    destruct (concrete_call_keeps_others m func (opt_flags_verify E) s Hm Hm0)
      as (rc1 & s' & evs & Hcm & Hkeep & Htr & Hq).
    exists rc1, s', evs. split; [exact Hcm|].
    split; [intros j Hj; rewrite Hkeep by exact Hj; apply Hs; exact Hj|].
    split; [exact Htr|]. split; [exact Hq | discriminate]. }
  rewrite Htr. cbn [initial_state trace]. rewrite !in_app_iff.
  intros [[Hin|Hin]|[Hin|Hin]].
  - destruct Hin as [H|[H|[H|[]]]]; discriminate.
  - rewrite Forall_forall in Hq. apply list_elem_of_In, Hq in Hin. discriminate.
  - apply report_metrics_spec in Hin as (i & f & si & Hi & Hf & Hsi & Hd & _ & He).
    injection He as -> -> _ _.
    destruct (decide (i = m)) as [->|Hne].
    + exists f. rewrite Hm in Hf. injection Hf as ->. auto.
    + exfalso. rewrite (Hzero i Hne) in Hsi. apply initial_stats_lookup in Hsi. subst si.
      cbn in Hd. discriminate.
  - destruct Hin as [H|[H|[]]]; discriminate.
Qed.

End DfpSingleMethod.

Section IpsecReported.
Import IpsecMb.
Variable E : env_t.

Lemma keeps_refl st : keeps_unsupported st st.
Proof. split; reflexivity. Qed.

Lemma keeps_trans st1 st2 st3 :
  keeps_unsupported st1 st2 -> keeps_unsupported st2 st3 -> keeps_unsupported st1 st3.
Proof.
  intros (Hs1 & Hk1) (Hs2 & Hk2). split.
  - intros j. rewrite Hs2. apply Hs1.
  - intros j Hj. rewrite Hk2 by (rewrite Hs1; exact Hj). apply Hk1. exact Hj.
Qed.

Lemma keeps_same st st' : fstate st' = fstate st -> keeps_unsupported st st'.
Proof. intros H. unfold keeps_unsupported. rewrite H. split; reflexivity. Qed.

Lemma leaf_keeps m jobs st : keeps_unsupported st (stress_ipsec_leaf E m jobs st).
Proof.
  apply keeps_same. unfold stress_ipsec_leaf. cbv zeta.
  destruct (alloc_aligned_ok E (allocs st)); reflexivity.
Qed.

Lemma call_func_step_keeps (run : run_t) fn jobs mi i st st' :
  (forall s s', run fn jobs s = Some s' -> keeps_unsupported s s') ->
  call_func_step E run fn jobs mi i st = Some st' -> keeps_unsupported st st'.
Proof.
  intros Hrun. unfold call_func_step.
  destruct (supported (fstate st !!! i)) eqn:Hsup; [|intros [= <-]; apply keeps_refl].
  cbn [read_clock].
  destruct (mb_features (bits E) !! i) as [ft|]; [|discriminate].
  cbn [mbind option_bind].
  match goal with |- context [run fn jobs ?s] =>
    destruct (run fn jobs s) as [st3|] eqn:Hr; [|discriminate];
    assert (H0 : keeps_unsupported st s) by (apply keeps_same; reflexivity)
  end.
  cbn [mbind option_bind]. intros [= <-].
  eapply keeps_trans; [exact H0|]. apply Hrun in Hr.
  eapply keeps_trans; [exact Hr|]. destruct H0 as (Hs0 & _). destruct Hr as (Hs3 & _).
  split; cbn [set_fstate fstate].
  - intros j. apply add_stats_supported.
  - intros j Hj. rewrite list_lookup_total_alter.
    destruct (decide _) as [[-> _]|_]; [|reflexivity].
    rewrite Hs3, Hs0, Hsup in Hj. discriminate.
Qed.

Lemma call_func_loop_keeps (step : nat -> state -> option state) idxs st st' :
  (forall i s s', step i s = Some s' -> keeps_unsupported s s') ->
  call_func_loop step idxs st = Some st' -> keeps_unsupported st st'.
Proof.
  intros Hstep. revert st. induction idxs as [|i idxs IH]; intros st.
  - intros [= <-]. apply keeps_refl.
  - cbn [call_func_loop]. destruct (step i st) as [s1|] eqn:Hs; [|discriminate].
    cbn [mbind option_bind]. intros Hloop.
    eapply keeps_trans; [eapply Hstep; exact Hs | apply IH; exact Hloop].
Qed.

Lemma call_func_with_keeps (run : run_t) jobs mi st st' :
  (forall fn s s', run fn jobs s = Some s' -> keeps_unsupported s s') ->
  stress_ipsec_call_func_with E run jobs mi st = Some st' -> keeps_unsupported st st'.
Proof.
  intros Hrun. unfold stress_ipsec_call_func_with.
  destruct (stress_ipsec_funcs !! mi) as [entry|]; [|discriminate].
  cbn [mbind option_bind]. apply call_func_loop_keeps.
  intros i s s'. apply call_func_step_keeps. apply Hrun.
Qed.

Lemma all_loop_keeps (call : nat -> state -> option state) idxs st st' :
  (forall i s s', call i s = Some s' -> keeps_unsupported s s') ->
  all_loop E call idxs st = Some st' -> keeps_unsupported st st'.
Proof.
  intros Hcall. revert st. induction idxs as [|i idxs IH]; intros st.
  - intros [= <-]. apply keeps_refl.
  - cbn [all_loop]. destruct (keep_stressing E st); [|intros [= <-]; apply keeps_refl].
    destruct (call i st) as [s1|] eqn:Hs; [|discriminate].
    cbn [mbind option_bind]. intros Hloop.
    eapply keeps_trans; [eapply Hcall; exact Hs | apply IH; exact Hloop].
Qed.

Lemma run_func_keeps fn jobs s s' : run_func E fn jobs s = Some s' -> keeps_unsupported s s'.
Proof.
  destruct fn as [|m]; [|intros [= <-]; apply leaf_keeps].
  cbn [run_func]. unfold stress_ipsec_all. apply all_loop_keeps.
  intros i s0 s0'. apply call_func_with_keeps.
  intros fn s1 s1'. destruct fn as [|m]; [discriminate|].
  intros [= <-]. apply leaf_keeps.
Qed.

Lemma main_loop_keeps fuel jobs mi st st' :
  main_loop fuel E jobs mi st = Some st' -> keeps_unsupported st st'.
Proof.
  revert st. induction fuel as [|fuel IH]; intros st; [discriminate|].
  cbn [main_loop]. destruct (main_pass E jobs mi st) as [s1|] eqn:Hp; [|discriminate].
  cbn [mbind option_bind].
  assert (Hk : keeps_unsupported st s1).
  { revert Hp. unfold main_pass. apply call_func_loop_keeps.
    intros i s s'. unfold main_step.
    destruct (supported (fstate s !!! i)); [|intros [= <-]; apply keeps_refl].
    destruct (mb_features (bits E) !! i) as [ft|]; [|discriminate].
    cbn [mbind option_bind]. intros Hcall.
    unfold stress_ipsec_call_func in Hcall.
    eapply keeps_trans; [|eapply call_func_with_keeps; [|exact Hcall]];
      [apply keeps_same; reflexivity|].
    intros fn s1' s1''. apply run_func_keeps. }
  destruct (keep_stressing E s1).
  - intros Hloop. eapply keeps_trans; [exact Hk | apply IH; exact Hloop].
  - intros [= <-]. exact Hk.
Qed.

Lemma probe_stats_zero i :
  stats (probe_features E !!! i) = mk_stats 0%float 0%float.
Proof. do 5 (destruct i as [|i]; [reflexivity|]). reflexivity. Qed.

Lemma pin_feature_lookup k fs i :
  (i < length fs)%nat ->
  pin_feature k fs !!! i = mk_fstate (Nat.eqb i k) (stats (fs !!! i)).
Proof.
  intros Hi. unfold pin_feature. rewrite !list_lookup_total_alt, list_lookup_imap.
  destruct (fs !! i) as [f|] eqn:Hf; [reflexivity|].
  apply lookup_ge_None in Hf. lia.
Qed.

(** X23.  Every metric that a run of stress-ipsec-mb sets belongs to
    a feature that the CPU supports, and with a feature pinned by
    ipsec-mb-feature to that feature alone: the stats of a feature that
    is not marked as supported stay at zero, and the report loop skips a
    feature whose duration is not positive. *)
Theorem only_supported_features_are_reported fuel rc tr j msg v k :
  stress_ipsec_mb E fuel = Some (rc, tr) ->
  In (EvMetric j msg v k) tr ->
  exists i ft,
    mb_features (bits E) !! i = Some ft /\
    msg = (name ft ++ " bogo ops per sec")%string /\
    supported (probe_features E !!! i) = true /\
    (forall p, setting_feature E = Some p -> i = p).
Proof.
  assert (Hskipped : forall pre post,
            ~ In (EvMetric j msg v k) pre -> ~ In (EvMetric j msg v k) post ->
            ~ In (EvMetric j msg v k) (pre ++ pr_inf_skip E ++ post)).
  { intros pre post Hpre Hpost. rewrite !in_app_iff. unfold pr_inf_skip.
    destruct (instance E =? 0); cbn; intuition discriminate. }
  unfold stress_ipsec_mb.
  destruct (imb_version_ok E); cbn [negb].
  2:{ intros [= <- <-] Hin. destruct (Hskipped [] [] (fun H => H) (fun H => H)).
      cbn [app]. rewrite app_nil_r. exact Hin. }
  destruct (alloc_mb_mgr_ok E); cbn [negb].
  2:{ intros [= <- <-] Hin. destruct (Hskipped [EvAllocMgr false] []); cbn [In];
        [intuition discriminate | tauto |].
      rewrite app_nil_r. exact Hin. }
  assert (Hgone : ~ In (EvMetric j msg v k) ([EvAllocMgr true] ++ pr_inf_skip E ++ [EvFreeMgr])).
  { apply Hskipped; cbn [In]; intuition discriminate. }
  destruct (existsb supported (probe_features E)); cbn [negb];
    [|intros [= <- <-] Hin; contradiction].
  assert (Hlen : length (probe_features E) = NUM_MB_FEATURES) by reflexivity.
  match goal with |- context [match ?p with Some _ => _ | None => _ end = _] =>
    destruct p as [fs'|] eqn:Hpin end;
    [|intros [= <- <-] Hin; contradiction].
  assert (Hfs' : forall i, (i < NUM_MB_FEATURES)%nat ->
            stats (fs' !!! i) = mk_stats 0%float 0%float /\
            (supported (fs' !!! i) = true ->
             supported (probe_features E !!! i) = true /\
             forall p, setting_feature E = Some p -> i = p)).
  { intros i Hi. destruct (setting_feature E) as [p|].
    - destruct (supported (probe_features E !!! p)) eqn:Hp; [|discriminate].
      assert (Hfs : fs' = pin_feature p (probe_features E))
        by exact (eq_sym (inj Some _ _ Hpin)).
      rewrite Hfs. clear Hpin Hfs.
      rewrite pin_feature_lookup by (rewrite Hlen; exact Hi). cbn [stats supported].
      split; [apply probe_stats_zero|]. intros Heq%Nat.eqb_eq. subst i.
      split; [exact Hp | intros p' [= <-]; reflexivity].
    - assert (Hfs : fs' = probe_features E) by exact (eq_sym (inj Some _ _ Hpin)).
      rewrite Hfs. clear Hpin Hfs. split; [apply probe_stats_zero|].
      intros Hs. split; [exact Hs | discriminate]. }
  destruct (main_loop _ _ _ _ _) as [st|] eqn:Hloop; [|discriminate].
  cbn [mbind option_bind].
  remember (report (mb_features (bits E)) (fstate st) 0) as rep eqn:Hrep.
  intros [= <- <-].
  pose proof (main_loop_works_on E _ _ _ _ _ Hloop) as (evs & Htr & Hw & _).
  apply main_loop_keeps in Hloop as (Hsup & Hkeep).
  rewrite Htr. cbn [initial_state trace fstate] in *. rewrite !in_app_iff.
  intros [[Hin|Hin]|[Hin|Hin]].
  - cbn in Hin. destruct Hin as [[H|[]]|[H|[]]]; discriminate.
  - rewrite Forall_forall in Hw. apply list_elem_of_In, Hw in Hin. discriminate.
  - subst rep. assert (k = None) as ->.
    { apply ipsec_report_only_metrics in Hin as (? & ? & ? & [= _ _ _ ->]). reflexivity. }
    destruct (proj1 (ipsec_report_spec (mb_features (bits E)) (fstate st) 0 msg v))
      as (i & ft & f & Hft & Hf & Hpos & Hmsg & _); [eauto|].
    assert (Hi : (i < NUM_MB_FEATURES)%nat) by (apply lookup_lt_Some in Hft; exact Hft).
    destruct (Hfs' i Hi) as (Hzero & Himp).
    exists i, ft. split; [exact Hft|]. split; [exact Hmsg|].
    apply Himp. destruct (supported (fs' !!! i)) eqn:Hs; [reflexivity|].
    exfalso. specialize (Hkeep i Hs).
    rewrite list_lookup_total_alt, Hf in Hkeep. cbn in Hkeep. subst f.
    rewrite Hzero in Hpos. cbn in Hpos. discriminate.
  - destruct Hin as [H|[H|[]]]; discriminate.
Qed.

End IpsecReported.

(** * Concrete runs *)
Section ConcreteRuns.
Import Scenario.

(** Closed goals about concrete runs are settled by evaluation. *)
Ltac by_evaluation :=
  repeat match goal with
    | |- exists _, _ => eexists
    | |- _ /\ _ => split
    end;
  vm_compute; reflexivity.

(** The run of stress-dfp with verification on, the method "all" and
    one element miscomputed in the verification pass of "df32add". *)
Lemma faulty_run :
  Dfp.stress_dfp dfp_fault 1
  = Some (EXIT_SUCCESS,
          [Dfp.EvMmap true; Dfp.EvProcState STRESS_STATE_SYNC_WAIT;
           Dfp.EvProcState STRESS_STATE_RUN; Dfp.EvCall 0 0;
           Dfp.EvCall 1 0; Dfp.EvCall 1 1; Dfp.EvMemcmp 0;
           Dfp.EvMemcmp 1; Dfp.EvMemcmp 2; Dfp.EvMemcmp 3;
           Dfp.EvPrFail "_Decimal32" "df32add" 3 0 1;
           Dfp.EvMetric 0 "Mdfp-ops per sec, _Decimal32 add      "
             (PrimFloat.div (PrimFloat.div 1048576%float 2%float) 1000000%float)
             harmonic_mean;
           Dfp.EvProcState STRESS_STATE_DEINIT; Dfp.EvMunmap]).
Proof. by_evaluation. Qed.

(** C1 (defect).  With verification on and the hardware miscomputing
    one element, [stress_dfp_all] returns the -1.0 sentinel; the call of
    [stress_dfp_call_method] for index 0 adds that -1.0 and the op count
    to the stats of the "all" entry all the same, and returns
    EXIT_SUCCESS, so that the run as a whole ends with EXIT_SUCCESS
    after the failure report. *)
Theorem all_sentinel_is_accumulated :
  fst <$> Dfp.stress_dfp_all dfp_fault 0
            (Dfp.log (Dfp.EvCall 0 0) (dfp_start dfp_fault))
  = Some (-1)%float /\
  Dfp.stats (dfp_start dfp_fault) !! 0%nat = Some (Dfp.mk_stats 0%float 0%float) /\
  (fun r => (r.1, Dfp.stats r.2 !! 0%nat))
    <$> Dfp.stress_dfp_call_method dfp_fault 0 true (dfp_start dfp_fault)
  = Some (EXIT_SUCCESS, Some (Dfp.mk_stats (-1)%float 524288%float)) /\
  fst <$> Dfp.stress_dfp dfp_fault 1 = Some EXIT_SUCCESS /\
  (exists d nm i r0 r1 tr,
     snd <$> Dfp.stress_dfp dfp_fault 1 = Some tr /\ In (Dfp.EvPrFail d nm i r0 r1) tr).
Proof.
  split; [by_evaluation|]. split; [by_evaluation|]. split; [by_evaluation|].
  split; [by_evaluation|]. do 6 eexists. rewrite faulty_run. split; [reflexivity|].
  cbn. auto 20.
Qed.

(** X18.  The guard that the verification pass has and the
    production pass lacks: a negative duration from the verification
    pass of a concrete method ends the call with EXIT_FAILURE at once.
    The call consists of the two passes and nothing else: no element is
    compared and no failure is reported.  Neither that duration nor the
    ops of the pass are added to the stats: the stats of the method
    have grown by the duration of the production pass and by 524288
    ops, those of the other entries are as they were. *)
Lemma second_pass_sentinel_not_accumulated (E : Dfp.env_t) st m func :
  Dfp.stress_dfp_funcs !! m = Some func -> m <> 0%nat ->
  PrimFloat.ltb (Dfp.second_pass_dt E st) 0%float = true ->
  exists st',
    Dfp.stress_dfp_call_method E m true st = Some (EXIT_FAILURE, st') /\
    Dfp.trace st' = Dfp.trace st ++ [Dfp.EvCall m 0; Dfp.EvCall m 1] /\
    Dfp.stats st' =
      alter (fun s =>
               Dfp.mk_stats
                 (PrimFloat.add (Dfp.duration s)
                    (PrimFloat.sub (Dfp.stress_time_now E (S (Dfp.clock_reads st)))
                       (Dfp.stress_time_now E (Dfp.clock_reads st))))
                 (PrimFloat.add (Dfp.ops s) 524288%float))
        m (Dfp.stats st).
Proof.
  intros Hm Hm0 Hneg.
  destruct (registry_leaf m func Hm Hm0) as (fld & op & Hf).
  destruct (leaf_method_cases E (Dfp.call_func E) m func fld op true st)
    as (rc & st' & Hcm & Hcases); [reflexivity | exact Hm | exact Hf |].
  assert (Hg : Dfp.gate m true = true).
  { apply gate_true. repeat split; auto. eapply registry_bound; eauto. }
  destruct Hcases as [(Hgate & _)|[(_ & _ & Hrc & Hs & Htr)|
    [(_ & Hpos & _)|(_ & Hpos & _)]]]; try congruence.
  subst rc. exists st'. split; [exact Hcm|]. split; [exact Htr | exact Hs].
Qed.

(** C2 (defect).  On a CPU that supports the features "avx", "avx2",
    "noaesni" and "sse", with no feature pinned, one pass of the main
    loop calls the method function four times for each of the four
    features, not once.  With the method "all" the stats of a feature
    also take in what ran for the other ones: after one pass "avx" has
    14336 completed jobs of its own and ops of 28672. *)
Theorem feature_loop_is_nested :
  IpsecMb.supported_features (ipsec_start ipsec_sha) = [0; 1; 3; 4]%nat /\
  (fun st => IpsecMb.method_calls (IpsecMb.trace st))
    <$> IpsecMb.main_pass ipsec_sha 128 7 (ipsec_start ipsec_sha)
  = Some (concat (replicate 4 [(7, 0); (7, 1); (7, 3); (7, 4)]%nat)) /\
  (fun st => (IpsecMb.counter st, jobs_for 0 None (IpsecMb.trace st),
              IpsecMb.ops (IpsecMb.stats (IpsecMb.fstate st !!! 0%nat))))
    <$> IpsecMb.main_loop 1 ipsec_all 128 0 (ipsec_start ipsec_all)
  = Some (57344, 14336, 28672%float).
Proof. by_evaluation. Qed.

(** For every CPU and every method but "all", one pass of the main
    loop calls the method, for each supported feature, once for every
    supported feature. *)
Lemma feature_loop_calls_squared (E : IpsecMb.env_t) jobs mi st :
  (1 <= mi < IpsecMb.NUM_IPSEC_FUNCS)%nat ->
  exists st' evs,
    IpsecMb.main_pass E jobs mi st = Some st' /\
    IpsecMb.trace st' = IpsecMb.trace st ++ evs /\
    IpsecMb.method_calls evs
    = flat_map (fun _ => map (pair mi) (IpsecMb.supported_features st))
        (IpsecMb.supported_features st).
Proof. apply main_pass_calls. Qed.

(** Witness of C3: the stop request lands during the verification pass
    of "df32add"; the slots differ, and the call succeeds unverified. *)
Lemma verification_pass_gate_witness :
  (exists st',
     Dfp.stress_dfp_call_method dfp_alarm 1 true (dfp_start dfp_alarm)
     = Some (EXIT_SUCCESS, st') /\
     Dfp.continue_flag st' = false /\
     Dfp.get_r 0 (Dfp.data_d32 (Dfp.dfp_data st' !!! 3%nat)) = 0 /\
     Dfp.get_r 1 (Dfp.data_d32 (Dfp.dfp_data st' !!! 3%nat)) = 1) /\
  exists rc st' evs,
    Dfp.stress_dfp_call_method dfp_alarm 1 true (dfp_start dfp_alarm) = Some (rc, st') /\
    Dfp.trace st' = Dfp.trace (dfp_start dfp_alarm) ++ evs /\
    (In (Dfp.EvCall 1 1) evs <-> true = true /\ 1%nat <> 0%nat) /\
    (In (Dfp.EvCall 1 1) evs ->
     Dfp.continue_flag st' = false ->
     PrimFloat.ltb (Dfp.second_pass_dt dfp_alarm (dfp_start dfp_alarm)) 0%float = false ->
     rc = EXIT_SUCCESS /\ Forall (fun e => Dfp.is_comparison e = false) evs).
Proof.
  split.
  - by_evaluation.
  - exact (verification_pass_gate dfp_alarm (dfp_start dfp_alarm) 1 true _ eq_refl).
Defined.

(** Witness of C4: "df64add" is verified with differing slots and
    succeeds. *)
Lemma exempt_types_report_success_witness :
  (exists st',
     Dfp.stress_dfp_call_method dfp_fault 2 true (dfp_start dfp_fault)
     = Some (EXIT_SUCCESS, st') /\
     Dfp.get_r 0 (Dfp.data_d64 (Dfp.dfp_data st' !!! 3%nat)) = 0 /\
     Dfp.get_r 1 (Dfp.data_d64 (Dfp.dfp_data st' !!! 3%nat)) = 1) /\
  exists st' evs,
    Dfp.stress_dfp_call_method dfp_fault 2 true (dfp_start dfp_fault)
    = Some (EXIT_SUCCESS, st') /\
    Dfp.trace st' = Dfp.trace (dfp_start dfp_fault) ++ evs /\
    (2%nat <> 0%nat -> Forall (fun e => Dfp.is_comparison e = false) evs).
Proof.
  split.
  - by_evaluation.
  - apply (exempt_types_report_success dfp_fault (dfp_start dfp_fault) 2 true _ eq_refl).
    + discriminate.
    + intros _. vm_compute. reflexivity.
Defined.

(** Witness of C5: "df32add" with element 3 miscomputed in the
    verification pass. *)
Lemma decimal32_verification_witness :
  (exists st',
     Dfp.stress_dfp_call_method dfp_fault 1 true (dfp_start dfp_fault)
     = Some (EXIT_FAILURE, st') /\
     Dfp.continue_flag st' = true /\
     Dfp.trace st' =
       [Dfp.EvCall 1 0; Dfp.EvCall 1 1; Dfp.EvMemcmp 0; Dfp.EvMemcmp 1; Dfp.EvMemcmp 2;
        Dfp.EvMemcmp 3; Dfp.EvPrFail "_Decimal32" "df32add" 3 0 1]) /\
  exists rc st',
    Dfp.stress_dfp_call_method dfp_fault 1 true (dfp_start dfp_fault) = Some (rc, st') /\
    (Dfp.continue_flag st' = true ->
     let data := Dfp.dfp_data st' in
     let passes := Dfp.trace (dfp_start dfp_fault) ++ [Dfp.EvCall 1 0; Dfp.EvCall 1 1] in
     (rc = EXIT_SUCCESS <->
      forall i, (i < Dfp.DFP_ELEMENTS)%nat -> Dfp.same_bytes (data !!! i)) /\
     (rc = EXIT_SUCCESS ->
      Dfp.trace st' = passes ++ map Dfp.EvMemcmp (seq 0 Dfp.DFP_ELEMENTS)) /\
     (rc <> EXIT_SUCCESS ->
      rc = EXIT_FAILURE /\
      exists i, (i < Dfp.DFP_ELEMENTS)%nat /\
        (forall j, (j < i)%nat -> Dfp.same_bytes (data !!! j)) /\
        ~ Dfp.same_bytes (data !!! i) /\
        Dfp.trace st' = passes ++ map Dfp.EvMemcmp (seq 0 (S i))
          ++ [Dfp.EvPrFail "_Decimal32" "df32add" i
                (Dfp.get_r 0 (Dfp.data_d32 (data !!! i)))
                (Dfp.get_r 1 (Dfp.data_d32 (data !!! i)))])).
Proof.
  split.
  - by_evaluation.
  - exact (decimal32_verification dfp_fault (dfp_start dfp_fault) 1 _ eq_refl eq_refl eq_refl).
Defined.

(** Counterexample to C8 as stated: the first per-call buffer
    allocation fails, the run neither stops nor returns
    EXIT_NO_RESOURCE, and the next call allocates again. *)
Lemma per_call_allocation_failure_goes_on :
  IpsecMb.alloc_aligned_ok ipsec_nomem 0 = false /\
  IpsecMb.stress_ipsec_mb ipsec_nomem 2 =
  Some (EXIT_SUCCESS,
        [IpsecMb.EvAllocMgr true; IpsecMb.EvProcState STRESS_STATE_RUN;
         IpsecMb.EvInit 4; IpsecMb.EvInit 4; IpsecMb.EvFunc 7 4;
         IpsecMb.EvAllocAligned IpsecMb.sha false;
         IpsecMb.EvInit 4; IpsecMb.EvInit 4; IpsecMb.EvFunc 7 4;
         IpsecMb.EvAllocAligned IpsecMb.sha true;
         IpsecMb.EvJobs IpsecMb.sha (Some IpsecMb.init_mb_mgr_sse) 128 128;
         IpsecMb.EvFree IpsecMb.sha;
         IpsecMb.EvMetric 0 "sse bogo ops per sec" 64%float None;
         IpsecMb.EvProcState STRESS_STATE_DEINIT; IpsecMb.EvFreeMgr]).
Proof. by_evaluation. Qed.

(** Witness of C8 as amended: the manager cannot be allocated, in the
    first worker and in the second one. *)
Lemma allocation_failures_witness :
  Dfp.stress_dfp dfp_nomap 3
  = Some (EXIT_NO_RESOURCE, [Dfp.EvMmap false; Dfp.EvPrInfSkip]) /\
  IpsecMb.stress_ipsec_mb ipsec_nomgr 3
  = Some (EXIT_NO_RESOURCE, [IpsecMb.EvAllocMgr false; IpsecMb.EvPrInfSkip]) /\
  IpsecMb.stress_ipsec_mb ipsec_nomgr_1 3
  = Some (EXIT_NO_RESOURCE, [IpsecMb.EvAllocMgr false]) /\
  IpsecMb.stress_ipsec_leaf ipsec_nomem IpsecMb.sha 128 (ipsec_start ipsec_nomem)
  = IpsecMb.mk_state (IpsecMb.fstate (ipsec_start ipsec_nomem)) 0 true None 0 1 0
      ([] ++ [IpsecMb.EvAllocAligned IpsecMb.sha false]).
Proof.
  destruct allocation_failures as (Hdfp & Hmgr & Hleaf & _).
  split; [exact (Hdfp dfp_nomap 3%nat eq_refl)|].
  split; [exact (Hmgr ipsec_nomgr 3%nat eq_refl eq_refl)|].
  split; [exact (Hmgr ipsec_nomgr_1 3%nat eq_refl eq_refl)|].
  exact (Hleaf ipsec_nomem IpsecMb.sha 128 (ipsec_start ipsec_nomem) eq_refl).
Defined.

(** Counterexample to C9 as stated.  stress-prime emits its metric
    although the accumulated duration is not positive; stress-dfp
    reports the rate divided by 1000000, not ops / duration;
    stress-ipsec-mb hands no aggregation kind to the sink. *)
Lemma shutdown_metrics_differ :
  (exists final,
     Prime.stress_prime prime_escape 1 = Some (EXIT_SUCCESS, final) /\
     PrimFloat.ltb 0%float (Prime.duration final) = false /\
     In (Prime.EvMetric 0 "primes per second" 0%float harmonic_mean) (Prime.trace final)) /\
  (exists st,
     Dfp.main_loop 1 dfp_single 1 false (dfp_start dfp_single) = Some (EXIT_SUCCESS, st) /\
     Dfp.stats st !! 1%nat = Some (Dfp.mk_stats 1%float 524288%float) /\
     Dfp.report_metrics (Dfp.stats st)
     = [Dfp.EvMetric 0 "Mdfp-ops per sec, _Decimal32 add      "
          (PrimFloat.div 524288%float 1000000%float) harmonic_mean] /\
     PrimFloat.eqb (PrimFloat.div 524288%float 1000000%float)
       (PrimFloat.div 524288%float 1%float) = false) /\
  (fun r => (r.1, ipsec_metrics r.2)) <$> IpsecMb.stress_ipsec_mb ipsec_sha 1
  = Some (EXIT_SUCCESS,
          [IpsecMb.EvMetric 0 "avx bogo ops per sec" 128%float None;
           IpsecMb.EvMetric 1 "avx2 bogo ops per sec" 128%float None;
           IpsecMb.EvMetric 2 "noaesni bogo ops per sec" 128%float None;
           IpsecMb.EvMetric 3 "sse bogo ops per sec" 128%float None]).
Proof.
  split; [|split].
  - eexists. split; [vm_compute; reflexivity|]. split; [vm_compute; reflexivity|].
    cbn. auto 10.
  - by_evaluation.
  - by_evaluation.
Qed.


(** Witness of C10: in the run of C1 the "all" entry ends with the
    stats (-1.0, 524288.0), and the one metric emitted is that of
    "df32add". *)
Lemma all_entry_stats_never_reported_witness :
  (fun r => Dfp.stats r.2 !! 0%nat)
    <$> Dfp.main_loop 1 dfp_fault 0 true (dfp_start dfp_fault)
  = Some (Some (Dfp.mk_stats (-1)%float 524288%float)) /\
  exists i f,
    (1 <= i < Dfp.STRESS_NUM_DFP_FUNCS)%nat /\ 0%nat = (i - 1)%nat /\
    Dfp.stress_dfp_funcs !! i = Some f /\
    Dfp.dfp_func f <> Dfp.stress_dfp_all_fn /\
    "Mdfp-ops per sec, _Decimal32 add      "%string = Dfp.metric_msg (Dfp.description f).
Proof.
  split; [vm_compute; reflexivity|].
  destruct (all_entry_stats_never_reported dfp_fault) as (_ & _ & _ & Hrep).
  apply (Hrep 1%nat _ _ 0%nat _
           (PrimFloat.div (PrimFloat.div 1048576%float 2%float) 1000000%float)
           harmonic_mean faulty_run).
  cbn. auto 20.
Defined.

Lemma dfp_steady_deterministic : Dfp.deterministic dfp_steady.
Proof.
  intros n n' fld op i f f' [= H1 H2 H3 H4 H5]. cbn. unfold adder_alu.
  destruct op; congruence.
Qed.

Lemma dfp_steady_monotonic : Dfp.monotonic dfp_steady.
Proof.
  intros n. cbn [Dfp.stress_time_now dfp_steady]. unfold capped_seconds.
  do 65 (destruct n as [|n]; [vm_compute; reflexivity|]).
  vm_compute. reflexivity.
Qed.

(** Witness of X2: "df32div" entered with the flag down leaves the
    initialization value 3 of element 3 in slot 1. *)
Lemma stopped_div_only_resets_witness :
  Dfp.get_r 1
    (Dfp.field_of Dfp.d32
       (Dfp.dfp_data (Dfp.stress_dfp_leaf dfp_steady Dfp.d32 Dfp.op_div 1 dfp_stopped).2 !!! 3%nat))
  = 3 /\
  Dfp.bogo (Dfp.stress_dfp_leaf dfp_steady Dfp.d32 Dfp.op_div 1 dfp_stopped).2 = 1 /\
  Dfp.continue_flag (Dfp.stress_dfp_leaf dfp_steady Dfp.d32 Dfp.op_div 1 dfp_stopped).2 = false.
Proof.
  apply (stopped_div_only_resets dfp_steady Dfp.d32 Dfp.op_div 1 dfp_stopped 3);
    [reflexivity | unfold Dfp.DFP_ELEMENTS; lia | vm_compute; lia | vm_compute; lia].
Defined.

(** Witness of X3: a run on deterministic hardware. *)
Lemma deterministic_run_reports_no_failure_witness :
  exists rc tr,
    Dfp.stress_dfp dfp_steady 1 = Some (rc, tr) /\
    rc <> EXIT_FAILURE /\ Forall (fun e => Dfp.is_pr_fail e = false) tr.
Proof.
  destruct (Dfp.stress_dfp dfp_steady 1) as [[rc tr]|] eqn:Hrun;
    [|vm_compute in Hrun; discriminate].
  exists rc, tr. split; [reflexivity|].
  exact (deterministic_run_reports_no_failure dfp_steady 1 rc tr
           dfp_steady_deterministic dfp_steady_monotonic Hrun).
Defined.

(** Witness of X4: the run with one element miscomputed under
    verification ends with EXIT_SUCCESS. *)
Lemma default_method_never_fails_witness :
  exists rc tr,
    Dfp.stress_dfp dfp_fault 1 = Some (rc, tr) /\
    (rc = EXIT_SUCCESS \/ rc = EXIT_NO_RESOURCE).
Proof.
  eexists _, _. split; [exact faulty_run|].
  exact (default_method_never_fails dfp_fault 1 _ _ eq_refl faulty_run).
Defined.

(** Witness of X19: the run of "sha" on four features sets the slots 0
    to 3. *)
Lemma ipsec_metric_slots_are_consecutive_witness :
  exists rc tr k,
    IpsecMb.stress_ipsec_mb ipsec_sha 1 = Some (rc, tr) /\
    (k <= IpsecMb.NUM_MB_FEATURES)%nat /\ omap IpsecMb.metric_slot tr = seq 0 k.
Proof.
  destruct (IpsecMb.stress_ipsec_mb ipsec_sha 1) as [[rc tr]|] eqn:Hrun;
    [|vm_compute in Hrun; discriminate].
  destruct (ipsec_metric_slots_are_consecutive ipsec_sha 1 rc tr Hrun) as (k & Hk & Hs).
  exists rc, tr, k. auto.
Defined.

(** Witness of X20: three calls of "df64mul". *)
Lemma budget_run_makes_budget_calls_witness :
  exists metrics,
    Dfp.stress_dfp dfp_budget 3
    = Some (EXIT_SUCCESS,
            [Dfp.EvMmap true; Dfp.EvProcState STRESS_STATE_SYNC_WAIT;
             Dfp.EvProcState STRESS_STATE_RUN]
              ++ replicate 3 (Dfp.EvCall 5 0) ++ metrics
              ++ [Dfp.EvProcState STRESS_STATE_DEINIT; Dfp.EvMunmap]) /\
    Forall (fun e => Dfp.is_metric e = true) metrics.
Proof.
  apply (budget_run_makes_budget_calls dfp_budget (fun _ => eq_refl) 3 5 _ eq_refl eq_refl);
    [lia | reflexivity | reflexivity | lia | unfold UINT64_MOD; lia | reflexivity].
Defined.

(** Witness of X21: the stop request lands in method run 447. *)
Lemma stress_ipsec_mb_returns_witness :
  exists r, IpsecMb.stress_ipsec_mb ipsec_all 448 = Some r.
Proof.
  apply (stress_ipsec_mb_returns ipsec_all (fun _ => eq_refl) 447 _ eq_refl);
    [cbn; lia | reflexivity].
Defined.

(** Witness of X22: the run of "df32add" alone sets metric 0. *)
Lemma single_method_run_reports_its_method_witness :
  exists func,
    Dfp.stress_dfp_funcs !! 1%nat = Some func /\
    0%nat = (1 - 1)%nat /\
    "Mdfp-ops per sec, _Decimal32 add      "%string = Dfp.metric_msg (Dfp.description func).
Proof.
  apply (single_method_run_reports_its_method dfp_single 1 1 EXIT_SUCCESS
           [Dfp.EvMmap true; Dfp.EvProcState STRESS_STATE_SYNC_WAIT;
            Dfp.EvProcState STRESS_STATE_RUN; Dfp.EvCall 1 0;
            Dfp.EvMetric 0 "Mdfp-ops per sec, _Decimal32 add      "
              (PrimFloat.div (PrimFloat.div 524288%float 1%float) 1000000%float)
              harmonic_mean;
            Dfp.EvProcState STRESS_STATE_DEINIT; Dfp.EvMunmap]
           0 _ (PrimFloat.div (PrimFloat.div 524288%float 1%float) 1000000%float)
           harmonic_mean eq_refl);
    [lia | vm_compute; reflexivity | cbn; auto 10].
Defined.

(** Witness of X23: with "sse" pinned the one metric is that of "sse". *)
Lemma only_supported_features_are_reported_witness :
  exists rc tr j msg v k,
    IpsecMb.stress_ipsec_mb ipsec_pinned 1 = Some (rc, tr) /\
    In (IpsecMb.EvMetric j msg v k) tr /\
    exists i ft,
      IpsecMb.mb_features header_bits !! i = Some ft /\
      msg = (IpsecMb.name ft ++ " bogo ops per sec")%string /\
      i = 4%nat.
Proof.
  destruct (IpsecMb.stress_ipsec_mb ipsec_pinned 1) as [[rc tr]|] eqn:Hrun;
    [|vm_compute in Hrun; discriminate].
  assert (Hin : In (IpsecMb.EvMetric 0 "sse bogo ops per sec"
                      128%float None) tr).
  { vm_compute in Hrun. injection Hrun as _ <-. cbn. auto 20. }
  destruct (only_supported_features_are_reported ipsec_pinned 1 rc tr _ _ _ _ Hrun Hin)
    as (i & ft & Hft & Hmsg & _ & Hp).
  exists rc, tr, 0%nat, "sse bogo ops per sec"%string, 128%float, None.
  split; [reflexivity|]. split; [exact Hin|].
  exists i, ft. split; [exact Hft|]. split; [exact Hmsg|]. apply Hp. reflexivity.
Defined.

(** Witness of X5: the run with one element miscomputed. *)
Lemma dfp_run_shape_witness :
  exists work metrics,
    snd <$> Dfp.stress_dfp dfp_fault 1
    = Some ([Dfp.EvMmap true; Dfp.EvProcState STRESS_STATE_SYNC_WAIT;
             Dfp.EvProcState STRESS_STATE_RUN]
              ++ work ++ metrics ++ [Dfp.EvProcState STRESS_STATE_DEINIT; Dfp.EvMunmap]) /\
    Forall (fun e => Dfp.is_loop_event e = true) work /\
    Forall (fun e => Dfp.is_metric e = true) metrics.
Proof.
  destruct (dfp_run_shape dfp_fault 1 _ _ faulty_run)
    as [(Hmap & _)|(_ & _ & work & metrics & Htr & Hw & Hm)]; [discriminate Hmap|].
  exists work, metrics. rewrite faulty_run. cbn [fmap option_fmap option_map snd].
  rewrite <- Htr. auto.
Defined.

(** Witness of X7: one pass of "sha" on the four supported features;
    and the second worker on a CPU without the features, which prints
    nothing and frees the manager. *)
Lemma ipsec_run_shape_witness :
  (exists rc tr work metrics,
     IpsecMb.stress_ipsec_mb ipsec_sha 1 = Some (rc, tr) /\
     rc = EXIT_SUCCESS /\
     tr = [IpsecMb.EvAllocMgr true; IpsecMb.EvProcState STRESS_STATE_RUN] ++ work ++ metrics
            ++ [IpsecMb.EvProcState STRESS_STATE_DEINIT; IpsecMb.EvFreeMgr] /\
     Forall (fun e => IpsecMb.is_work e = true) work /\
     IpsecMb.held false work = Some false /\
     Forall (fun e => IpsecMb.is_metric e = true) metrics) /\
  IpsecMb.stress_ipsec_mb ipsec_bare_1 1
  = Some (EXIT_NOT_IMPLEMENTED, [IpsecMb.EvAllocMgr true; IpsecMb.EvFreeMgr]).
Proof.
  split.
  - destruct (IpsecMb.stress_ipsec_mb ipsec_sha 1) as [[rc tr]|] eqn:Hrun;
      [|vm_compute in Hrun; discriminate].
    destruct (ipsec_run_shape ipsec_sha 1 rc tr Hrun)
      as [(H & _)|[(_ & H & _)|[(_ & _ & H & _)|
           (_ & _ & Hrc & work & metrics & Htr & Hw & Hh & Hm)]]].
    + discriminate H.
    + discriminate H.
    + rewrite H in Hrun. vm_compute in Hrun. discriminate.
    + exists rc, tr, work, metrics. auto 10.
  - destruct (IpsecMb.stress_ipsec_mb ipsec_bare_1 1) as [[rc tr]|] eqn:Hrun;
      [|vm_compute in Hrun; discriminate].
    destruct (ipsec_run_shape ipsec_bare_1 1 rc tr Hrun)
      as [(H & _)|[(_ & H & _)|[(_ & _ & Hrc & Htr)|(_ & _ & Hrc & _)]]].
    + discriminate H.
    + discriminate H.
    + rewrite Hrc, Htr. reflexivity.
    + rewrite Hrc in Hrun. vm_compute in Hrun. discriminate.
Defined.

(** Witness of X12: the one job of a call of "sha" with a job count of
    1 writes the bytes 16 to 79 of its 96 byte buffer. *)
Lemma job_outputs_fit_witness :
  IpsecMb.alloc_bytes 1 (IpsecMb.alloc_size (IpsecMb.layout 64 IpsecMb.sha 8192)) = 96 /\
  IpsecMb.job_output 64 IpsecMb.sha 8192 0 = (16, 80) /\
  0 <= (IpsecMb.job_output 64 IpsecMb.sha 8192 0).1 /\
  (IpsecMb.job_output 64 IpsecMb.sha 8192 0).1 < (IpsecMb.job_output 64 IpsecMb.sha 8192 0).2 /\
  (IpsecMb.job_output 64 IpsecMb.sha 8192 0).2
  <= IpsecMb.alloc_bytes 1 (IpsecMb.alloc_size (IpsecMb.layout 64 IpsecMb.sha 8192)).
Proof.
  split; [reflexivity|]. split; [reflexivity|].
  destruct (job_outputs_fit 64 IpsecMb.sha 8192 1) as (_ & Hin & _); [lia | lia | lia |].
  apply (Hin 0). lia.
Defined.

(** Witness of X13: of two "sha" jobs one comes back completed and one
    not: one op is counted and both reports are made. *)
Lemma job_accounting_witness :
  IpsecMb.run_jobs "sha" 2 one_of_two [IpsecMb.STS_NOT_COMPLETED] 5
  = IpsecMb.mk_tally 1 6
      [IpsecMb.PrErrNotCompleted "sha"; IpsecMb.PrErrOnlyProcessed "sha" 1 2].
Proof.
  destruct (job_accounting "sha" 2 one_of_two [IpsecMb.STS_NOT_COMPLETED] 5)
    as (H1 & H2 & H3 & _); [lia | unfold UINT64_MOD; lia | vm_compute; reflexivity |].
  destruct (IpsecMb.run_jobs "sha" 2 one_of_two [IpsecMb.STS_NOT_COMPLETED] 5)
    as [jd bc rp].
  cbn [IpsecMb.jobs_done IpsecMb.bogo_counter IpsecMb.reports] in H1, H2, H3.
  rewrite H1, H2, H3. vm_compute. reflexivity.
Defined.

(** Witness of X15: three primes under "pwr2". *)
Lemma budget_run_finds_its_budget_witness :
  exists st,
    Prime.stress_prime prime_budget 3 = Some (EXIT_SUCCESS, st) /\
    Prime.bogo st = 3 /\ Prime.start st = 8 /\ Prime.value st = 5.
Proof.
  destruct (budget_run_finds_its_budget prime_budget (fun _ _ => eq_refl) 3)
    as (st & Hrun & Hb & Hs & _);
    [lia | unfold UINT64_MOD; lia | reflexivity | reflexivity |].
  exists st. split; [exact Hrun|]. split; [exact Hb|].
  destruct Hs as (Hstart & Hvalue); [discriminate|].
  split; [exact Hstart | exact Hvalue].
Defined.

(** Witness of X16: the stop request lands in the second arithmetic
    loop. *)
Lemma stress_dfp_returns_witness : exists r, Dfp.stress_dfp dfp_alarm 2 = Some r.
Proof. exact (stress_dfp_returns dfp_alarm 1 _ eq_refl eq_refl). Defined.

(** Witness of X17: one delivery hits the first iteration. *)
Lemma stress_prime_returns_witness : exists r, Prime.stress_prime prime_single 1 = Some r.
Proof.
  apply (stress_prime_returns prime_single 0). vm_compute. lia.
Defined.

(** Witness of X18: the clock runs backwards during the verification
    pass of "df32add". *)
Lemma second_pass_sentinel_not_accumulated_witness :
  exists st',
    Dfp.stress_dfp_call_method dfp_backwards 1 true (dfp_start dfp_backwards)
    = Some (EXIT_FAILURE, st') /\
    Dfp.trace st' = [Dfp.EvCall 1 0; Dfp.EvCall 1 1] /\
    Dfp.stats st' !! 1%nat = Some (Dfp.mk_stats 1%float 524288%float).
Proof.
  destruct (second_pass_sentinel_not_accumulated dfp_backwards (dfp_start dfp_backwards)
              1 _ eq_refl) as (st' & Hcm & Htr & Hs); [lia | vm_compute; reflexivity |].
  exists st'. split; [exact Hcm|]. split; [exact Htr|]. rewrite Hs. vm_compute. reflexivity.
Defined.

End ConcreteRuns.
